(** * notes-tools: decoding Notes records and rendering them as HTML

    A shallow embedding of [export.py], [publish.py] and
    [publish-simple.py], followed by the properties of the conversion
    pipeline that the specification states.

    Conventions of the embedding:
    - a Python [int] is a [Z]; a [bytes] object is a [list byte];
    - a Python [str] is the list of its code points ([list Z]), so that
      [len] counts code points as Python does;
    - a function that can raise returns a [res], whose [Raise] carries the
      exception class;
    - a [dict] is an association list in insertion order, because the
      source iterates over dictionaries. *)

From Stdlib Require Import ZArith List String Ascii Bool Lia.
From Stdlib Require Import Strings.Byte.
From Stdlib Require Import Permutation Sorted.
Import ListNotations.

Set Implicit Arguments.

(** ** Python values shared by the three scripts *)

Module Py.

(** The exception classes that the modelled code can meet. *)
Inductive exn : Type :=
| ValueError
| TypeError
| BadGzipFile
| EOFError
| ZlibError
| UnicodeDecodeError
| AttributeError.

(** [except ValueError] also catches [UnicodeDecodeError], its subclass. *)
Definition is_value_error (e : exn) : bool :=
  match e with
  | ValueError | UnicodeDecodeError => true
  | _ => false
  end.

Inductive res (A : Type) : Type :=
| Ok (a : A)
| Raise (e : exn).

Arguments Ok {A} a.
Arguments Raise {A} e.

Definition bind {A B : Type} (m : res A) (k : A -> res B) : res B :=
  match m with
  | Ok a => k a
  | Raise e => Raise e
  end.

Definition bytes : Type := list byte.

Definition byte_val (b : byte) : Z := Z.of_N (Byte.to_N b).

(** [len(x)] as a Python integer. *)
Definition len {A : Type} (l : list A) : Z := Z.of_nat (List.length l).

(** *** str *)

Definition str : Type := list Z.

(** A literal of the source, given by its ASCII characters. *)
Definition lit (s : string) : str :=
  map (fun a => Z.of_N (N_of_ascii a)) (list_ascii_of_string s).

Fixpoint str_eqb (a b : str) : bool :=
  match a, b with
  | [], [] => true
  | x :: a', y :: b' => (x =? y)%Z && str_eqb a' b'
  | _, _ => false
  end.

Fixpoint startswith (prefix s : str) : bool :=
  match prefix, s with
  | [], _ => true
  | p :: prefix', c :: s' => (p =? c)%Z && startswith prefix' s'
  | _ :: _, [] => false
  end.

(** [s[a:b]] with Python's treatment of negative and out-of-range bounds. *)
Definition slice_index (n i : Z) : Z :=
  if (i <? 0)%Z then Z.max 0 (i + n) else Z.min i n.

Definition slice {A : Type} (s : list A) (a b : Z) : list A :=
  let lo := slice_index (len s) a in
  let hi := slice_index (len s) b in
  firstn (Z.to_nat (hi - lo)) (skipn (Z.to_nat lo) s).

(** [s.replace(old, new)]: the non-overlapping occurrences of [old], found
    from left to right; [skip] counts the characters of an occurrence that
    are still to be passed over. *)
Fixpoint replace_go (old new s : str) (skip : nat) : str :=
  match s with
  | [] => []
  | c :: s' =>
      match skip with
      | S k => replace_go old new s' k
      | O =>
          if startswith old s
          then new ++ replace_go old new s' (List.length old - 1)
          else c :: replace_go old new s' 0
      end
  end.

Definition replace (old new s : str) : str :=
  match old with
  | [] => new ++ flat_map (fun c => c :: new) s
  | _ => replace_go old new s 0
  end.

(** [s.split(sep)] and [s.split(sep, maxsplit)] for a non-empty [sep];
    [limit] is the number of splits still allowed, [None] when unbounded. *)
Definition may_split (limit : option nat) : bool :=
  match limit with
  | Some O => false
  | _ => true
  end.

Definition after_split (limit : option nat) : option nat :=
  match limit with
  | Some n => Some (Nat.pred n)
  | None => None
  end.

Fixpoint split_go (sep s : str) (skip : nat) (cur : str)
    (limit : option nat) : list str :=
  match s with
  | [] => [cur]
  | c :: s' =>
      match skip with
      | S k => split_go sep s' k cur limit
      | O =>
          if may_split limit && startswith sep s
          then cur :: split_go sep s' (List.length sep - 1) [] (after_split limit)
          else split_go sep s' 0 (cur ++ [c]) limit
      end
  end.

Definition split (sep s : str) : list str := split_go sep s 0 [] None.

Definition split_max (sep s : str) (maxsplit : nat) : list str :=
  split_go sep s 0 [] (Some maxsplit).

(** [sep.join(parts)] *)
Fixpoint join (sep : str) (parts : list str) : str :=
  match parts with
  | [] => []
  | [p] => p
  | p :: parts' => p ++ sep ++ join sep parts'
  end.

(** [c.isspace()], which is also the class [\s] of [re] on [str]. *)
Definition isspace (c : Z) : bool :=
  (((0x09 <=? c) && (c <=? 0x0D)) || ((0x1C <=? c) && (c <=? 0x20))
  || (c =? 0x85) || (c =? 0xA0) || (c =? 0x1680)
  || ((0x2000 <=? c) && (c <=? 0x200A))
  || (c =? 0x2028) || (c =? 0x2029) || (c =? 0x202F)
  || (c =? 0x205F) || (c =? 0x3000))%Z.

Fixpoint dropwhile {A : Type} (p : A -> bool) (l : list A) : list A :=
  match l with
  | [] => []
  | x :: l' => if p x then dropwhile p l' else l
  end.

Definition lstrip_by (p : Z -> bool) (s : str) : str := dropwhile p s.
Definition rstrip_by (p : Z -> bool) (s : str) : str :=
  rev (dropwhile p (rev s)).

(** [s.strip()] *)
Definition strip (s : str) : str := rstrip_by isspace (lstrip_by isspace s).

Definition newline : Z := 10.

(** [s.rstrip("\n")] *)
Definition rstrip_newlines (s : str) : str :=
  rstrip_by (fun c => c =? newline)%Z s.

(** [b.decode("utf-8")], strict: shortest forms only, no surrogates, nothing
    above U+10FFFF. *)
Definition is_cont (b : Z) : bool := ((0x80 <=? b) && (b <=? 0xBF))%Z.

Definition second_of_3 (b0 b1 : Z) : bool :=
  (if b0 =? 0xE0 then (0xA0 <=? b1) && (b1 <=? 0xBF)
  else if b0 =? 0xED then (0x80 <=? b1) && (b1 <=? 0x9F)
  else is_cont b1)%Z.

Definition second_of_4 (b0 b1 : Z) : bool :=
  (if b0 =? 0xF0 then (0x90 <=? b1) && (b1 <=? 0xBF)
  else if b0 =? 0xF4 then (0x80 <=? b1) && (b1 <=? 0x8F)
  else is_cont b1)%Z.

Definition low6 (b : Z) : Z := Z.land b 0x3F.

Definition push (c : Z) (r : res str) : res str :=
  match r with
  | Ok s => Ok (c :: s)
  | Raise e => Raise e
  end.

Fixpoint utf8_decode (b : bytes) : res str :=
  match b with
  | [] => Ok []
  | x0 :: r0 =>
    let b0 := byte_val x0 in
    if b0 <? 0x80 then push b0 (utf8_decode r0)
    else
    match r0 with
    | [] => Raise UnicodeDecodeError
    | x1 :: r1 =>
      let b1 := byte_val x1 in
      if (0xC2 <=? b0) && (b0 <=? 0xDF) then
        if is_cont b1
        then push (Z.lor (Z.shiftl (Z.land b0 0x1F) 6) (low6 b1))
                  (utf8_decode r1)
        else Raise UnicodeDecodeError
      else
      match r1 with
      | [] => Raise UnicodeDecodeError
      | x2 :: r2 =>
        let b2 := byte_val x2 in
        if (0xE0 <=? b0) && (b0 <=? 0xEF) then
          if second_of_3 b0 b1 && is_cont b2
          then push (Z.lor (Z.shiftl (Z.land b0 0x0F) 12)
                       (Z.lor (Z.shiftl (low6 b1) 6) (low6 b2)))
                    (utf8_decode r2)
          else Raise UnicodeDecodeError
        else
        match r2 with
        | [] => Raise UnicodeDecodeError
        | x3 :: r3 =>
          let b3 := byte_val x3 in
          if (0xF0 <=? b0) && (b0 <=? 0xF4) && second_of_4 b0 b1
             && is_cont b2 && is_cont b3
          then push (Z.lor (Z.shiftl (Z.land b0 0x07) 18)
                       (Z.lor (Z.shiftl (low6 b1) 12)
                          (Z.lor (Z.shiftl (low6 b2) 6) (low6 b3))))
                    (utf8_decode r3)
          else Raise UnicodeDecodeError
        end
      end
    end
  end%Z.

(** *** dict, in insertion order *)

Section Dict.
Variables K V : Type.
Variable eqb : K -> K -> bool.

Definition dict : Type := list (K * V).

Fixpoint dict_get (d : dict) (k : K) : option V :=
  match d with
  | [] => None
  | (k', v) :: d' => if eqb k k' then Some v else dict_get d' k
  end.

(** [d[k] = v]: an existing key keeps its place, a new one goes last. *)
Fixpoint dict_set (d : dict) (k : K) (v : V) : dict :=
  match d with
  | [] => [(k, v)]
  | (k', v') :: d' =>
      if eqb k k' then (k', v) :: d' else (k', v') :: dict_set d' k v
  end.

Definition dict_keys (d : dict) : list K := map fst d.

(** A table filled by one assignment [d[key(n)] = val(n)] per element [n]
    of a list. *)
Definition dict_fill (N : Type) (key : N -> K) (val : N -> V)
    (l : list N) (d : dict) : dict :=
  fold_left (fun d n => dict_set d (key n) (val n)) l d.
End Dict.

(** *** datetime and the parts of the run time that are tables or native code

    A [datetime] is the instant it denotes; the scripts only compare and
    format them.  What the interpreter and its C libraries supply as data
    (Unicode case mapping, the decimal digits of Unicode, [strftime]) or as
    native code (the DEFLATE decoder behind [gzip]) is a parameter of the
    development. *)

Definition datetime : Type := Z.

Definition ascii_decimal (c : Z) : option Z :=
  (if (48 <=? c) && (c <=? 57) then Some (c - 48) else None)%Z.

Class Runtime : Type := {
  (** [s.lower()] *)
  lower : str -> str;
  (** the digit value of a code point of category Nd, which is what [\d]
      matches and [int] reads; in ASCII these are the digits 0 to 9 *)
  decimal : Z -> option Z;
  decimal_ascii : forall c, (0 <= c < 128)%Z -> decimal c = ascii_decimal c;
  (** [dt.strftime(format)] *)
  strftime : string -> datetime -> str;
  (** what [gzip.decompress] does with a member once its fixed header has
      been accepted *)
  inflate : bytes -> res bytes;
  (** [sys.get_int_max_str_digits()]: the greatest number of digits of a
      string that [int] converts, 0 when there is no limit; it is 4300 by
      default from CPython 3.11 on, and the interpreter refuses a limit
      between 1 and 639 *)
  int_max_str_digits : Z;
  int_max_str_digits_threshold :
    int_max_str_digits = 0%Z \/ (640 <= int_max_str_digits)%Z
}.

(** [s.lower()] on ASCII text. *)
Definition ascii_lower (s : str) : str :=
  map (fun c => if (65 <=? c) && (c <=? 90) then c + 32 else c)%Z s.

(** A run time that is exact on ASCII text, for evaluating the model on
    examples; it formats no date and inflates nothing, and has the default
    limit on the digits of an integer string. *)
Definition ascii_runtime : Runtime :=
  {| lower := ascii_lower;
     decimal := ascii_decimal;
     decimal_ascii := fun c _ => eq_refl;
     strftime := fun _ _ => [];
     inflate := fun _ => Raise ZlibError;
     int_max_str_digits := 4300;
     int_max_str_digits_threshold :=
       or_intror (fun H : (640 ?= 4300)%Z = Gt => eq_ind Lt
                    (fun c => match c with Gt => False | _ => True end)
                    I Gt H) |}.

(** [gzip.decompress]: no data gives no data; the two magic bytes and the
    compression method are checked ([BadGzipFile]) and the fixed ten-byte
    header must be complete ([EOFError]). *)
Definition gzip_decompress `{Runtime} (data : bytes) : res bytes :=
  match data with
  | [] => Ok []
  | [_] => Raise BadGzipFile
  | m0 :: m1 :: header =>
      if (byte_val m0 =? 0x1F)%Z && (byte_val m1 =? 0x8B)%Z then
        match header with
        | method :: _ :: _ :: _ :: _ :: _ :: _ :: _ :: _ =>
            if (byte_val method =? 8)%Z then inflate data
            else Raise BadGzipFile
        | _ => Raise EOFError
        end
      else Raise BadGzipFile
  end.

End Py.

Import Py.

Declare Scope res_scope.
Delimit Scope res_scope with res.
Notation "x <- m ;; k" := (bind m (fun x => k))
  (at level 61, m at next level, right associativity) : res_scope.
Notation "' pat <- m ;; k" := (bind m (fun x => match x with pat => k end))
  (at level 61, pat pattern, m at next level, right associativity) : res_scope.

(** ** export.py: the wire decoder *)

Module ExportPy.

Open Scope res_scope.

(** The value of a decoded field: an [int] for the varint and fixed-width
    wire types, a [bytes] object for the length-delimited one. *)
Inductive value : Type :=
| VInt (n : Z)
| VBytes (b : bytes).

(** [(field_number, wire_type, value)] *)
Definition field : Type := (Z * Z * value)%type.

(** [ProtobufParser].  The object holds [data] and a cursor [pos] that only
    moves forward, and every access of the source is relative to [pos]; the
    state of the parser is therefore kept as the unread part [data[pos:]]:
    [self.pos >= len(self.data)] is the unread part being empty and
    [self.pos + length > len(self.data)] is [length] exceeding its length. *)

Fixpoint read_varint_loop (unread : bytes) (result shift : Z)
  : res (Z * bytes) :=
  match unread with
  | [] => Raise ValueError
  | b :: unread' =>
      let result := Z.lor result (Z.shiftl (Z.land (byte_val b) 0x7F) shift) in
      if Z.land (byte_val b) 0x80 =? 0 then Ok (result, unread')
      else read_varint_loop unread' result (shift + 7)
  end%Z.

Definition read_varint (unread : bytes) : res (Z * bytes) :=
  read_varint_loop unread 0 0.

Definition read_bytes (length : Z) (unread : bytes) : res (bytes * bytes) :=
  if (len unread <? length)%Z then Raise ValueError
  else Ok (firstn (Z.to_nat length) unread, skipn (Z.to_nat length) unread).

(** [struct.unpack("<Q", b)[0]] and [struct.unpack("<I", b)[0]]: the
    little-endian unsigned integer held by [b]. *)
Fixpoint unpack_le (b : bytes) : Z :=
  match b with
  | [] => 0
  | x :: b' => byte_val x + 256 * unpack_le b'
  end%Z.

(** What [read_field] does once the tag is read. *)
Definition read_field_body (tag_wire : Z) (unread : bytes)
  : res (option field * bytes) :=
  let field_number := Z.shiftr tag_wire 3 in
  let wire_type := Z.land tag_wire 0x07 in
  if (wire_type =? 0)%Z then
    '(v, unread) <- read_varint unread ;;
    Ok (Some (field_number, wire_type, VInt v), unread)
  else if (wire_type =? 1)%Z then
    '(b, unread) <- read_bytes 8 unread ;;
    Ok (Some (field_number, wire_type, VInt (unpack_le b)), unread)
  else if (wire_type =? 2)%Z then
    '(length, unread) <- read_varint unread ;;
    '(b, unread) <- read_bytes length unread ;;
    Ok (Some (field_number, wire_type, VBytes b), unread)
  else if (wire_type =? 5)%Z then
    '(b, unread) <- read_bytes 4 unread ;;
    Ok (Some (field_number, wire_type, VInt (unpack_le b)), unread)
  else Raise ValueError.

Definition read_field (unread : bytes) : res (option field * bytes) :=
  match unread with
  | [] => Ok (None, unread)
  | _ =>
      '(tag_wire, unread) <- read_varint unread ;;
      read_field_body tag_wire unread
  end.

(** The [while] loop of [parse_all].  Every successful [read_field] consumes
    at least the tag byte, so [length data] iterations always suffice
    (lemma [parse_all_loop_fuel] below); [fuel] only makes the recursion
    structural.  Only [ValueError] and its subclasses are caught. *)
Fixpoint parse_all_loop (fuel : nat) (unread : bytes) (fields : list field)
  : res (list field) :=
  match fuel with
  | O => Ok fields
  | S fuel' =>
      match unread with
      | [] => Ok fields
      | _ =>
          match read_field unread with
          | Ok (None, _) => Ok fields
          | Ok (Some f, unread') => parse_all_loop fuel' unread' (fields ++ [f])
          | Raise e => if is_value_error e then Ok fields else Raise e
          end
      end
  end.

Definition parse_all (data : bytes) : res (list field) :=
  parse_all_loop (List.length data) data [].

(** ** export.py: navigation and run extraction *)

Definition PARA_STYLE_NORMAL : Z := 0.
Definition PARA_STYLE_HEADING : Z := 1.
Definition PARA_STYLE_SUBHEADING : Z := 2.
Definition PARA_STYLE_MONO : Z := 4.
Definition PARA_STYLE_BULLET_LIST : Z := 100.
Definition PARA_STYLE_DASH_LIST : Z := 101.
Definition PARA_STYLE_NUMBER_LIST : Z := 102.

Definition TEXT_STYLE_NORMAL : Z := 0.
Definition TEXT_STYLE_BOLD : Z := 1.
Definition TEXT_STYLE_ITALIC : Z := 2.

(** [v == n] for a field value [v] and an [int] constant [n]: a [bytes]
    object is never equal to an [int]. *)
Definition value_is (v : value) (n : Z) : bool :=
  match v with
  | VInt m => (m =? n)%Z
  | VBytes _ => false
  end.

(** [bool(v)] *)
Definition truthy (v : value) : bool :=
  match v with
  | VInt m => negb (m =? 0)%Z
  | VBytes b => negb (Nat.eqb (List.length b) 0)
  end.

(** The attributes [paragraph_style] and [text_style] hold whatever value the
    record carried under their tag. *)
Record StyleRun : Type := {
  start : Z;
  length : Z;
  text : str;
  paragraph_style : value;
  text_style : value;
  is_blockquote : bool;
  is_superscript : bool;
  is_underline : bool;
  is_strikethrough : bool;
  link_url : option str
}.

Definition is_bold (r : StyleRun) : bool :=
  value_is (text_style r) TEXT_STYLE_BOLD.

Definition is_italic (r : StyleRun) : bool :=
  value_is (text_style r) TEXT_STYLE_ITALIC.

Record NoteLink : Type := {
  url : str;
  note_id : str;
  link_text : str
}.

Record ParsedNote : Type := {
  title : str;
  text_content : str;
  style_runs : list StyleRun;
  note_links : list NoteLink;
  raw_data : bytes
}.

(** [parse_all_fields(data)]; a [ProtobufParser] built on an [int] fails at
    the first [len(self.data)]. *)
Definition parse_all_fields (data : value) : res (list field) :=
  match data with
  | VBytes b => parse_all b
  | VInt _ => Raise TypeError
  end.

Definition tagged (fn wt : Z) (f : field) : bool :=
  let '(field_num, wire_type, _) := f in
  ((field_num =? fn) && (wire_type =? wt))%Z.

(** The inner [for] of [get_note_content_fields]: the first note-content
    field of a document, parsed; [None] when the document has none. *)
Fixpoint find_note_content (doc_fields : list field)
  : option (res (list field)) :=
  match doc_fields with
  | [] => None
  | f :: doc_fields' =>
      if tagged 3 2 f then Some (parse_all_fields (snd f))
      else find_note_content doc_fields'
  end.

(** The outer [for]: documents are tried in order until one has a
    note-content field. *)
Fixpoint find_document (root_fields : list field) : res (list field) :=
  match root_fields with
  | [] => Ok []
  | f :: root_fields' =>
      if tagged 2 2 f then
        doc_fields <- parse_all_fields (snd f) ;;
        match find_note_content doc_fields with
        | Some r => r
        | None => find_document root_fields'
        end
      else find_document root_fields'
  end.

Definition get_note_content_fields (data : bytes) : res (list field) :=
  root_fields <- parse_all_fields (VBytes data) ;;
  find_document root_fields.

(** [value.decode("utf-8")] *)
Definition decode (v : value) : res str :=
  match v with
  | VBytes b => utf8_decode b
  | VInt _ => Raise AttributeError
  end.

Fixpoint first_text (note_fields : list field) : res str :=
  match note_fields with
  | [] => Ok []
  | f :: note_fields' =>
      if tagged 2 2 f then
        match decode (snd f) with
        | Ok s => Ok s
        | Raise UnicodeDecodeError => first_text note_fields'
        | Raise e => Raise e
        end
      else first_text note_fields'
  end.

Definition extract_main_text (data : bytes) : res str :=
  note_fields <- get_note_content_fields data ;;
  first_text note_fields.

(** The dictionary [run] that collects the attributes of one run record. *)
Record run_attrs : Type := {
  r_length : value;
  r_para_style : value;
  r_text_style : value;
  r_is_blockquote : bool;
  r_is_superscript : bool;
  r_is_underline : bool;
  r_is_strikethrough : bool;
  r_link_url : option str
}.

Definition run_defaults : run_attrs :=
  {| r_length := VInt 0; r_para_style := VInt 0; r_text_style := VInt 0;
     r_is_blockquote := false; r_is_superscript := false;
     r_is_underline := false; r_is_strikethrough := false;
     r_link_url := None |}.

Definition set_length v r :=
  {| r_length := v; r_para_style := r_para_style r;
     r_text_style := r_text_style r; r_is_blockquote := r_is_blockquote r;
     r_is_superscript := r_is_superscript r;
     r_is_underline := r_is_underline r;
     r_is_strikethrough := r_is_strikethrough r; r_link_url := r_link_url r |}.

Definition set_para_style v r :=
  {| r_length := r_length r; r_para_style := v;
     r_text_style := r_text_style r; r_is_blockquote := r_is_blockquote r;
     r_is_superscript := r_is_superscript r;
     r_is_underline := r_is_underline r;
     r_is_strikethrough := r_is_strikethrough r; r_link_url := r_link_url r |}.

Definition set_text_style v r :=
  {| r_length := r_length r; r_para_style := r_para_style r;
     r_text_style := v; r_is_blockquote := r_is_blockquote r;
     r_is_superscript := r_is_superscript r;
     r_is_underline := r_is_underline r;
     r_is_strikethrough := r_is_strikethrough r; r_link_url := r_link_url r |}.

Definition set_is_blockquote b r :=
  {| r_length := r_length r; r_para_style := r_para_style r;
     r_text_style := r_text_style r; r_is_blockquote := b;
     r_is_superscript := r_is_superscript r;
     r_is_underline := r_is_underline r;
     r_is_strikethrough := r_is_strikethrough r; r_link_url := r_link_url r |}.

Definition set_is_superscript b r :=
  {| r_length := r_length r; r_para_style := r_para_style r;
     r_text_style := r_text_style r; r_is_blockquote := r_is_blockquote r;
     r_is_superscript := b;
     r_is_underline := r_is_underline r;
     r_is_strikethrough := r_is_strikethrough r; r_link_url := r_link_url r |}.

Definition set_is_underline b r :=
  {| r_length := r_length r; r_para_style := r_para_style r;
     r_text_style := r_text_style r; r_is_blockquote := r_is_blockquote r;
     r_is_superscript := r_is_superscript r;
     r_is_underline := b;
     r_is_strikethrough := r_is_strikethrough r; r_link_url := r_link_url r |}.

Definition set_is_strikethrough b r :=
  {| r_length := r_length r; r_para_style := r_para_style r;
     r_text_style := r_text_style r; r_is_blockquote := r_is_blockquote r;
     r_is_superscript := r_is_superscript r;
     r_is_underline := r_is_underline r;
     r_is_strikethrough := b; r_link_url := r_link_url r |}.

Definition set_link_url u r :=
  {| r_length := r_length r; r_para_style := r_para_style r;
     r_text_style := r_text_style r; r_is_blockquote := r_is_blockquote r;
     r_is_superscript := r_is_superscript r;
     r_is_underline := r_is_underline r;
     r_is_strikethrough := r_is_strikethrough r; r_link_url := u |}.

(** [for afn, awt, aval in attrs] *)
Fixpoint read_attrs (attrs : list field) (run : run_attrs) : run_attrs :=
  match attrs with
  | [] => run
  | (afn, _, aval) :: attrs' =>
      read_attrs attrs'
        (if afn =? 1 then set_para_style aval run
         else if afn =? 5 then set_is_underline (truthy aval) run
         else if afn =? 6 then set_is_strikethrough (truthy aval) run
         else if afn =? 8 then set_is_blockquote (truthy aval) run
         else run)
  end%Z.

(** [for sfn, swt, sval in style_fields] *)
Fixpoint read_style_fields (style_fields : list field) (run : run_attrs)
  : res run_attrs :=
  match style_fields with
  | [] => Ok run
  | (sfn, _, sval) :: style_fields' =>
      if (sfn =? 1)%Z then read_style_fields style_fields' (set_length sval run)
      else if (sfn =? 2)%Z then
        attrs <- parse_all_fields sval ;;
        read_style_fields style_fields' (read_attrs attrs run)
      else if (sfn =? 5)%Z then
        read_style_fields style_fields' (set_text_style sval run)
      else if (sfn =? 8)%Z then
        read_style_fields style_fields' (set_is_superscript (truthy sval) run)
      else if (sfn =? 9)%Z then
        match sval with
        | VBytes b =>
            match utf8_decode b with
            | Ok u => read_style_fields style_fields' (set_link_url (Some u) run)
            | Raise UnicodeDecodeError => read_style_fields style_fields' run
            | Raise e => Raise e
            end
        | VInt _ => read_style_fields style_fields' run
        end
      else read_style_fields style_fields' run
  end.

(** The outer [for] of [extract_style_runs], with the cursor [pos]; the runs
    are returned in the order in which they were appended. *)
Fixpoint extract_loop (note_fields : list field) (text : str) (pos : Z)
  : res (list StyleRun) :=
  match note_fields with
  | [] => Ok []
  | f :: note_fields' =>
      if tagged 5 2 f then
        style_fields <- parse_all_fields (snd f) ;;
        run <- read_style_fields style_fields run_defaults ;;
        match r_length run with
        | VBytes _ => Raise TypeError
        | VInt length =>
            if (0 <? length)%Z && (pos <? len text)%Z then
              rest <- extract_loop note_fields' text (pos + length) ;;
              Ok ({| start := pos;
                     length := length;
                     text := slice text pos (pos + length);
                     paragraph_style := r_para_style run;
                     text_style := r_text_style run;
                     is_blockquote := r_is_blockquote run;
                     is_superscript := r_is_superscript run;
                     is_underline := r_is_underline run;
                     is_strikethrough := r_is_strikethrough run;
                     link_url := r_link_url run |} :: rest)
            else extract_loop note_fields' text pos
        end
      else extract_loop note_fields' text pos
  end.

Definition extract_style_runs (data : bytes) (text : str)
  : res (list StyleRun) :=
  note_fields <- get_note_content_fields data ;;
  extract_loop note_fields text 0.

Definition applenotes_prefix : str := lit "applenotes:note/".

(** [parts[-1]] of a non-empty list *)
Definition last_part (parts : list str) : str := last parts [].

(** [parts[0]] of a non-empty list *)
Definition first_part (parts : list str) : str := hd [] parts.

Definition link_has_url (u : option str) : bool :=
  match u with
  | Some (_ :: _) => true
  | _ => false
  end.

Fixpoint collect_note_links (runs : list StyleRun) : list NoteLink :=
  match runs with
  | [] => []
  | run :: runs' =>
      match link_url run with
      | Some u =>
          if link_has_url (Some u) && startswith applenotes_prefix u then
            let parts := split (lit "/") (first_part (split (lit "?") u)) in
            if (2 <=? len parts)%Z then
              {| url := u; note_id := last_part parts; link_text := text run |}
              :: collect_note_links runs'
            else collect_note_links runs'
          else collect_note_links runs'
      | None => collect_note_links runs'
      end
  end.

Definition empty_note (raw : bytes) : ParsedNote :=
  {| title := []; text_content := []; style_runs := []; note_links := [];
     raw_data := raw |}.

(** [lines[1] if len(lines) > 1 else ""] *)
Definition second_or_empty (lines : list str) : str :=
  match lines with
  | _ :: body :: _ => body
  | _ => []
  end.

(** [parse_note_content] after the [try] block: what is done with the
    decompressed [data]. *)
Definition parse_decompressed (data : bytes) : res ParsedNote :=
  text_content <- extract_main_text data ;;
  let lines := split_max [newline] text_content 1 in
  let title := first_part lines in
  let body := second_or_empty lines in
  style_runs <- extract_style_runs data text_content ;;
  Ok {| title := title; text_content := body; style_runs := style_runs;
        note_links := collect_note_links style_runs; raw_data := data |}.

Definition parse_note_content `{Runtime} (compressed_data : bytes)
  : res ParsedNote :=
  match gzip_decompress compressed_data with
  | Raise BadGzipFile => Ok (empty_note compressed_data)
  | Raise e => Raise e
  | Ok data => parse_decompressed data
  end.

(** *** Vocabulary for the statements about run extraction *)

Definition sum_Z (l : list Z) : Z := fold_right Z.add 0%Z l.

Definition sum_lengths (runs : list StyleRun) : Z := sum_Z (map length runs).

(** The length that one run record declares. *)
Definition declared_length (f : field) : res value :=
  style_fields <- parse_all_fields (snd f) ;;
  run <- read_style_fields style_fields run_defaults ;;
  Ok (r_length run).

(** The lengths declared by the run records of a note, in order; [None]
    when a record does not decode to a run with an integer length. *)
Fixpoint declared_lengths (note_fields : list field) : option (list Z) :=
  match note_fields with
  | [] => Some []
  | f :: note_fields' =>
      if tagged 5 2 f then
        match declared_length f, declared_lengths note_fields' with
        | Ok (VInt n), Some lens => Some (n :: lens)
        | _, _ => None
        end
      else declared_lengths note_fields'
  end.

Definition nonneg_value (v : value) : Prop :=
  match v with
  | VInt n => (0 <= n)%Z
  | VBytes _ => True
  end.

Definition nonneg_field (f : field) : Prop := nonneg_value (snd f).

(** A decompressed record is well formed when its run records declare
    lengths that add up to the length of its main text.  The main text, with
    its title line, is the text that [parse_note_content] hands to
    [extract_style_runs] and that [publish.py] indexes the runs into. *)
Definition well_formed (data : bytes) : Prop :=
  match get_note_content_fields data with
  | Ok note_fields =>
      match first_text note_fields, declared_lengths note_fields with
      | Ok text, Some lens => sum_Z lens = len text
      | _, _ => False
      end
  | Raise _ => False
  end.

(** A record whose main text is the title [T], a newline and the body
    [Body], with one run of length 2 and one of length 4. *)
Definition sample_record : bytes :=
  [x12; x12;
     x1a; x10;
       x12; x06; x54; x0a; x42; x6f; x64; x79;
       x2a; x02; x08; x02;
       x2a; x02; x08; x04].

(** *** Vocabulary for the statements about the decoder *)

(** A byte whose continuation bit is set: a varint does not end on it. *)
Definition continues (b : byte) : bool :=
  negb (Z.land (byte_val b) 0x80 =? 0)%Z.

(** [complete_fields buf fs]: [buf] is the concatenation of the encodings of
    the fields [fs], each of which [read_field] decodes entirely. *)
Inductive complete_fields : bytes -> list field -> Prop :=
| complete_nil : complete_fields [] []
| complete_cons (enc rest : bytes) (f : field) (fs : list field) :
    read_field enc = Ok (Some f, []) ->
    complete_fields rest fs ->
    complete_fields (enc ++ rest) (f :: fs).

(** The bytes of a field cut in the middle of a varint: either its tag is
    cut, or its tag is whole, announces a varint (wire type 0) or a length
    (wire type 2), and that varint is cut. *)
Inductive cut_mid_varint : bytes -> Prop :=
| cut_in_tag (t : bytes) :
    t <> [] -> forallb continues t = true -> cut_mid_varint t
| cut_in_value (tag t : bytes) (tag_wire : Z) :
    read_varint tag = Ok (tag_wire, []) ->
    Z.land tag_wire 0x07 = 0%Z \/ Z.land tag_wire 0x07 = 2%Z ->
    t <> [] -> forallb continues t = true ->
    cut_mid_varint (tag ++ t).

(** The value of a varint: its seven-bit groups, least significant first. *)
Fixpoint varint_value (bs : bytes) : Z :=
  match bs with
  | [] => 0
  | b :: bs' => Z.land (byte_val b) 0x7F + 128 * varint_value bs'
  end%Z.

(** The bytes of a field that cannot be read although its tag is whole:
    the wire type is none of 0, 1, 2 and 5, or the buffer ends before the
    eight or four bytes of a fixed-width value, or before the announced end
    of a length-delimited value. *)
Inductive unreadable : bytes -> Prop :=
| unknown_wire_type (tag rest : bytes) (tag_wire : Z) :
    read_varint tag = Ok (tag_wire, []) ->
    Z.land tag_wire 0x07 <> 0%Z -> Z.land tag_wire 0x07 <> 1%Z ->
    Z.land tag_wire 0x07 <> 2%Z -> Z.land tag_wire 0x07 <> 5%Z ->
    unreadable (tag ++ rest)
| short_fixed64 (tag rest : bytes) (tag_wire : Z) :
    read_varint tag = Ok (tag_wire, []) ->
    Z.land tag_wire 0x07 = 1%Z ->
    (List.length rest < 8)%nat ->
    unreadable (tag ++ rest)
| short_fixed32 (tag rest : bytes) (tag_wire : Z) :
    read_varint tag = Ok (tag_wire, []) ->
    Z.land tag_wire 0x07 = 5%Z ->
    (List.length rest < 4)%nat ->
    unreadable (tag ++ rest)
| short_payload (tag size rest : bytes) (tag_wire n : Z) :
    read_varint tag = Ok (tag_wire, []) ->
    Z.land tag_wire 0x07 = 2%Z ->
    read_varint size = Ok (n, []) ->
    (len rest < n)%Z ->
    unreadable (tag ++ size ++ rest).

(** What a decoded field looks like: a field number that is not negative, one
    of the four wire types, and a value of the shape and range of that
    type. *)
Definition wire_typed (f : field) : Prop :=
  let '(field_number, wire_type, v) := f in
  (0 <= field_number)%Z
  /\ match v with
     | VInt n =>
         (wire_type = 0 /\ 0 <= n)%Z
         \/ (wire_type = 1 /\ 0 <= n < 2 ^ 64)%Z
         \/ (wire_type = 5 /\ 0 <= n < 2 ^ 32)%Z
     | VBytes _ => wire_type = 2%Z
     end.

(** Runs that follow one another from the position [pos]. *)
Fixpoint contiguous_from (pos : Z) (runs : list StyleRun) : Prop :=
  match runs with
  | [] => True
  | run :: runs' =>
      start run = pos /\ contiguous_from (pos + length run)%Z runs'
  end.

(** A run that starts inside the text [txt], has a positive length, and
    whose text is the part of [txt] that it spans, which is not empty. *)
Definition run_in_text (txt : str) (run : StyleRun) : Prop :=
  (0 <= start run < len txt)%Z
  /\ (0 < length run)%Z
  /\ text run = slice txt (start run) (start run + length run)
  /\ text run <> [].


Definition slash : Z := 47.
Definition question_mark : Z := 63.

(** A run that links to the note [NOTE-1]. *)
Definition linking_run : StyleRun :=
  {| start := 0; length := 4; text := lit "here";
     paragraph_style := VInt 0; text_style := VInt 0;
     is_blockquote := false; is_superscript := false;
     is_underline := false; is_strikethrough := false;
     link_url := Some (lit "applenotes:note/NOTE-1?ownerIdentifier=x") |}.

End ExportPy.

(** ** publish.py *)

Module PublishPy.

Import ExportPy.

Definition nl : str := [newline].
Definition quote : str := [34%Z].

Definition escape_html (text : str) : str :=
  replace (lit ">") (lit "&gt;")
    (replace (lit "<") (lit "&lt;")
       (replace (lit "&") (lit "&amp;") text)).

(** *** Block segmentation *)

Definition get_block_type (run : StyleRun) : string :=
  (if is_blockquote run then "blockquote"
   else if value_is (paragraph_style run) PARA_STYLE_HEADING then "h1"
   else if value_is (paragraph_style run) PARA_STYLE_SUBHEADING then "h2"
   else if value_is (paragraph_style run) PARA_STYLE_MONO then "code"
   else if value_is (paragraph_style run) PARA_STYLE_BULLET_LIST then "ul"
   else if value_is (paragraph_style run) PARA_STYLE_DASH_LIST then "ul-dash"
   else if value_is (paragraph_style run) PARA_STYLE_NUMBER_LIST then "ol"
   else "normal")%string.

(** The dictionary [{"type": ..., "runs": [...]}]. *)
Record block : Type := {
  b_type : string;
  b_runs : list StyleRun
}.

Definition nonempty {A : Type} (l : list A) : bool :=
  match l with
  | [] => false
  | _ :: _ => true
  end.

(** [blocks.append(current_block)] under the guard
    [current_block is not None and current_block["runs"]]. *)
Definition close_block (blocks : list block) (current_block : option block)
  : list block :=
  match current_block with
  | Some b => if nonempty (b_runs b) then blocks ++ [b] else blocks
  | None => blocks
  end.

Definition starts_new_block (block_type : string)
    (current_block : option block) : bool :=
  match current_block with
  | None => true
  | Some b => negb (String.eqb block_type (b_type b))
  end.

Definition append_run (run : StyleRun) (b : block) : block :=
  {| b_type := b_type b; b_runs := b_runs b ++ [run] |}.

(** The grouping loop of [convert_note_to_html], followed by the closing of
    the last block. *)
Fixpoint group_runs (title_end_pos : Z) (style_runs : list StyleRun)
    (blocks : list block) (current_block : option block) : list block :=
  match style_runs with
  | [] => close_block blocks current_block
  | run :: style_runs' =>
      if (start run + length run <=? title_end_pos)%Z then
        group_runs title_end_pos style_runs' blocks current_block
      else
        let block_type := get_block_type run in
        if String.eqb block_type "h1" then
          group_runs title_end_pos style_runs' blocks current_block
        else if starts_new_block block_type current_block then
          group_runs title_end_pos style_runs'
            (close_block blocks current_block)
            (Some {| b_type := block_type; b_runs := [run] |})
        else
          group_runs title_end_pos style_runs' blocks
            (option_map (append_run run) current_block)
  end.

Definition title_end_pos (parsed_note : ParsedNote) : Z :=
  len (title parsed_note) + 1.

(** The list [blocks] of [convert_note_to_html] when there are style runs. *)
Definition note_blocks (parsed_note : ParsedNote) : list block :=
  group_runs (title_end_pos parsed_note) (style_runs parsed_note) [] None.

(** *** Merging of runs *)

Definition format_key : Type :=
  (bool * bool * bool * bool * bool * option str)%type.

Definition get_run_format_key (run : StyleRun) : format_key :=
  (is_bold run, is_italic run, is_superscript run, is_underline run,
   is_strikethrough run, link_url run).

Definition option_str_eqb (a b : option str) : bool :=
  match a, b with
  | None, None => true
  | Some x, Some y => str_eqb x y
  | _, _ => false
  end.

Definition format_key_eqb (a b : format_key) : bool :=
  let '(a1, a2, a3, a4, a5, a6) := a in
  let '(b1, b2, b3, b4, b5, b6) := b in
  Bool.eqb a1 b1 && Bool.eqb a2 b2 && Bool.eqb a3 b3 && Bool.eqb a4 b4
  && Bool.eqb a5 b5 && option_str_eqb a6 b6.

(** The dictionary [{"text": ..., "format_key": ..., "run": ...}]. *)
Record merged_run : Type := {
  m_text : str;
  m_format_key : format_key;
  m_run : StyleRun
}.

Definition run_slice (full_text : str) (run : StyleRun) : str :=
  slice full_text (start run) (start run + length run).

Definition add_text (run_text : str) (current : merged_run) : merged_run :=
  {| m_text := m_text current ++ run_text;
     m_format_key := m_format_key current;
     m_run := m_run current |}.

Fixpoint merge_loop (runs : list StyleRun) (full_text : str)
    (merged : list merged_run) (current : option merged_run)
  : list merged_run :=
  match runs with
  | [] =>
      match current with
      | Some c => merged ++ [c]
      | None => merged
      end
  | run :: runs' =>
      let run_text := run_slice full_text run in
      let key := get_run_format_key run in
      match current with
      | None =>
          merge_loop runs' full_text merged
            (Some {| m_text := run_text; m_format_key := key; m_run := run |})
      | Some c =>
          if format_key_eqb key (m_format_key c) then
            merge_loop runs' full_text merged (Some (add_text run_text c))
          else
            merge_loop runs' full_text (merged ++ [c])
              (Some {| m_text := run_text; m_format_key := key; m_run := run |})
      end
  end.

Definition merge_runs_for_rendering (runs : list StyleRun) (full_text : str)
  : list merged_run :=
  match runs with
  | [] => []
  | _ => merge_loop runs full_text [] None
  end.

(** *** Rendering *)

(** An entry of [note_lookup]. *)
Record note_info : Type := {
  slug : str;
  creationDate : datetime;
  identifier : str
}.

Definition note_lookup_t : Type := dict str note_info.

Definition wrap (tag html : str) : str :=
  lit "<" ++ tag ++ lit ">" ++ html ++ lit "</" ++ tag ++ lit ">".

Definition anchor (href html : str) : str :=
  lit "<a href=" ++ quote ++ href ++ quote ++ lit ">" ++ html ++ lit "</a>".

(** The [for title, info in note_lookup.items()] loop: the slug of the first
    entry whose identifier matches. *)
Fixpoint find_target_slug `{Runtime} (items : note_lookup_t) (note_id : str)
  : option str :=
  match items with
  | [] => None
  | (_, info) :: items' =>
      if str_eqb (lower (identifier info)) note_id then Some (slug info)
      else find_target_slug items' note_id
  end.

Definition has_inline_formatting (run : StyleRun) : bool :=
  is_superscript run || is_bold run || is_italic run || is_underline run
  || is_strikethrough run || link_has_url (link_url run).

Definition apply_link `{Runtime} (run : StyleRun) (note_lookup : note_lookup_t)
    (html : str) : str :=
  match link_url run with
  | Some (c :: u) =>
      let link := c :: u in
      if startswith applenotes_prefix link then
        let note_id :=
          lower (last_part (split (lit "/") (first_part (split (lit "?") link))))
        in
        match find_target_slug note_lookup note_id with
        | Some (c' :: target) =>
            anchor (lit "/" ++ (c' :: target) ++ lit ".html") html
        | _ => html
        end
      else anchor link html
  | _ => html
  end.

Definition apply_inline (run : StyleRun) (html : str) : str :=
  let html := if is_superscript run then wrap (lit "sup") html else html in
  let html := if is_bold run then wrap (lit "strong") html else html in
  let html := if is_italic run then wrap (lit "em") html else html in
  let html := if is_underline run then wrap (lit "u") html else html in
  if is_strikethrough run then wrap (lit "s") html else html.

Definition format_merged_run_as_html `{Runtime} (merged : merged_run)
    (note_lookup : note_lookup_t) (slug : str) : str :=
  let run := m_run merged in
  let text := m_text merged in
  let stripped :=
    if has_inline_formatting run then rstrip_newlines text else text in
  let trailing_newlines :=
    if has_inline_formatting run then skipn (List.length stripped) text
    else [] in
  let html := escape_html stripped in
  let html := apply_inline run html in
  let html := apply_link run note_lookup html in
  html ++ trailing_newlines.

(** [[item.strip() for item in content.split("\n") if item.strip()]] *)
Definition list_items (content : str) : list str :=
  filter nonempty (map strip (split nl content)).

Definition render_list (tag : string) (content : str) : str :=
  lit "<" ++ lit tag ++ lit ">" ++ nl
  ++ join nl (map (wrap (lit "li")) (list_items content))
  ++ nl ++ lit "</" ++ lit tag ++ lit ">".

Definition render_paragraphs (content : str) : str :=
  join nl
    (map (fun p => wrap (lit "p") (replace nl (lit " ") p))
       (filter nonempty (map strip (split (nl ++ nl) content)))).

(** The content of a block: its merged runs, formatted and concatenated,
    without the trailing newlines. *)
Definition block_content `{Runtime} (runs : list StyleRun) (full_text : str)
    (note_lookup : note_lookup_t) (slug : str) : str :=
  rstrip_newlines
    (List.concat
       (map (fun m => format_merged_run_as_html m note_lookup slug)
          (merge_runs_for_rendering runs full_text))).

Definition render_block `{Runtime} (b : block) (full_text : str)
    (note_lookup : note_lookup_t) (slug : str) : str :=
  let block_type := b_type b in
  match b_runs b with
  | [] => []
  | _ =>
      let content := block_content (b_runs b) full_text note_lookup slug in
      if String.eqb block_type "h2" then wrap (lit "h2") (strip content)
      else if String.eqb block_type "h3" then wrap (lit "h3") (strip content)
      else if String.eqb block_type "code" then
        lit "<pre><code>" ++ content ++ lit "</code></pre>"
      else if String.eqb block_type "blockquote" then
        lit "<blockquote><p>"
        ++ replace nl (lit "<br>") (replace (nl ++ nl) (lit "</p><p>") content)
        ++ lit "</p></blockquote>"
      else if String.eqb block_type "ul" || String.eqb block_type "ul-dash"
      then render_list "ul" content
      else if String.eqb block_type "ol" then render_list "ol" content
      else render_paragraphs content
  end.

Definition full_text_of (parsed_note : ParsedNote) : str :=
  title parsed_note ++ nl ++ text_content parsed_note.

(** The list [html_parts] of [convert_note_to_html]: the blocks that render
    to a non-empty string. *)
Definition html_parts `{Runtime} (parsed_note : ParsedNote)
    (note_lookup : note_lookup_t) (slug : str) : list str :=
  filter nonempty
    (map (fun b => render_block b (full_text_of parsed_note) note_lookup slug)
       (note_blocks parsed_note)).

Definition convert_note_to_html `{Runtime} (parsed_note : ParsedNote)
    (note_lookup : note_lookup_t) (slug : str) : str :=
  match style_runs parsed_note with
  | [] =>
      join (nl ++ nl)
        (map (fun p => wrap (lit "p") (escape_html (strip p)))
           (filter (fun p => nonempty (strip p))
              (split (nl ++ nl) (text_content parsed_note))))
  | _ => join (nl ++ nl) (html_parts parsed_note note_lookup slug)
  end.

(** *** Vocabulary for the statements about blocks *)

(** The run is not entirely within the title span. *)
Definition past_title (title_end_pos : Z) (run : StyleRun) : bool :=
  negb (start run + length run <=? title_end_pos)%Z.

(** The run has the block type that the grouping loop skips. *)
Definition is_title_style (run : StyleRun) : bool :=
  String.eqb (get_block_type run) "h1".

Definition kept (title_end_pos : Z) (run : StyleRun) : bool :=
  past_title title_end_pos run && negb (is_title_style run).

Definition all_block_runs (blocks : list block) : list StyleRun :=
  List.concat (map b_runs blocks).

Definition current_runs (current_block : option block) : list StyleRun :=
  match current_block with
  | Some b => b_runs b
  | None => []
  end.

Definition current_text (current : option merged_run) : str :=
  match current with
  | Some c => m_text c
  | None => []
  end.

(** What the grouping loop maintains of every block: it has runs, they all
    have the block's type, and that type is not the skipped one. *)
Definition well_typed_block (b : block) : Prop :=
  b_runs b <> []
  /\ Forall (fun run => get_block_type run = b_type b) (b_runs b)
  /\ b_type b <> "h1"%string.

Definition plain_run (start length : Z) (text : str) (paragraph_style : Z)
  : StyleRun :=
  {| start := start; length := length; text := text;
     paragraph_style := VInt paragraph_style; text_style := VInt 0;
     is_blockquote := false; is_superscript := false; is_underline := false;
     is_strikethrough := false; link_url := None |}.

(** The note titled [T] whose body is a heading line [Head] followed by a
    subheading line [Sub]. *)
Definition heading_run : StyleRun :=
  plain_run 2 5 (lit "Head" ++ nl) PARA_STYLE_HEADING.

Definition subheading_run : StyleRun :=
  plain_run 7 4 (lit "Sub" ++ nl) PARA_STYLE_SUBHEADING.

Definition sample_note : ParsedNote :=
  {| title := lit "T";
     text_content := lit "Head" ++ nl ++ lit "Sub" ++ nl;
     style_runs :=
       [plain_run 0 2 (lit "T" ++ nl) PARA_STYLE_NORMAL;
        heading_run; subheading_run];
     note_links := [];
     raw_data := [] |}.

(** The note titled [Hello] whose body is the bold word [World]. *)
Definition bold_world_note : ParsedNote :=
  {| title := lit "Hello";
     text_content := lit "World";
     style_runs :=
       [plain_run 0 6 (lit "Hello" ++ nl) PARA_STYLE_NORMAL;
        {| start := 6; length := 5; text := lit "World";
           paragraph_style := VInt PARA_STYLE_NORMAL;
           text_style := VInt TEXT_STYLE_BOLD;
           is_blockquote := false; is_superscript := false;
           is_underline := false; is_strikethrough := false;
           link_url := None |}];
     note_links := [];
     raw_data := [] |}.

(** The note titled [T] whose body is a bulleted list of three lines. *)
Definition bullet_note : ParsedNote :=
  {| title := lit "T";
     text_content := lit "one" ++ nl ++ lit "two" ++ nl ++ lit "three";
     style_runs :=
       [plain_run 0 2 (lit "T" ++ nl) PARA_STYLE_NORMAL;
        plain_run 2 13 (lit "one" ++ nl ++ lit "two" ++ nl ++ lit "three")
          PARA_STYLE_BULLET_LIST];
     note_links := [];
     raw_data := [] |}.

(** [process_footnotes]: [{"content": html, "footer": ""}] *)
Definition process_footnotes (html slug : str) : str * str := (html, []).

(** *** Templates, index and feed *)

Definition token (key : str) : str := lit "{{" ++ key ++ lit "}}".

Definition lbrace : Z := 123.

(** [variables] lists the items of the mapping in iteration order. *)
Fixpoint render_template (template : str) (variables : dict str str) : str :=
  match variables with
  | [] => template
  | (key, value) :: variables' =>
      render_template (replace (token key) value template) variables'
  end.

(** [generate_slug]: [re.sub(r"[^a-z0-9\s]", "", ...)] keeps the characters
    of the class, [re.sub(r"\s+", "-", ...)] turns every maximal run of
    whitespace into one hyphen. *)
Definition slug_char (c : Z) : bool :=
  (((97 <=? c) && (c <=? 122)) || ((48 <=? c) && (c <=? 57)))%Z || isspace c.

Fixpoint hyphenate (s : str) (in_space : bool) : str :=
  match s with
  | [] => []
  | c :: s' =>
      if isspace c then
        if in_space then hyphenate s' true else 45%Z :: hyphenate s' true
      else c :: hyphenate s' false
  end.

Definition generate_slug `{Runtime} (title : str) (creation_date : datetime)
  : str :=
  strftime "%Y" creation_date ++ lit "/" ++ strftime "%m" creation_date
  ++ lit "/" ++ hyphenate (filter slug_char (lower title)) false.

Definition format_rfc822_date `{Runtime} (dt : datetime) : str :=
  strftime "%a, %d %b %Y %H:%M:%S +0000" dt.

(** A note as [export.get_notes_from_folder] returns it, with the keys that
    [main] reads. *)
Record note : Type := {
  n_identifier : str;
  n_title : str;
  n_creation_date : datetime;
  n_parsed_content : ParsedNote
}.

Definition info_of_note `{Runtime} (n : note) : note_info :=
  {| slug := generate_slug (n_title n) (n_creation_date n);
     creationDate := n_creation_date n;
     identifier := n_identifier n |}.

(** The loop of [main] that fills [note_lookup]. *)
Fixpoint fill_note_lookup `{Runtime} (all_notes : list note)
    (note_lookup : note_lookup_t) : note_lookup_t :=
  match all_notes with
  | [] => note_lookup
  | n :: all_notes' =>
      fill_note_lookup all_notes'
        (dict_set str_eqb note_lookup (n_title n) (info_of_note n))
  end.

Definition main_note_lookup `{Runtime} (all_notes : list note)
  : note_lookup_t :=
  fill_note_lookup all_notes [].

(** The dictionary that [main] appends to [posts]. *)
Record post : Type := {
  p_title : str;
  p_slug : str;
  p_creationDate : datetime;
  p_humanDate : str;
  p_content : str;
  p_articleSnippet : str
}.

(** [sorted(posts, key=lambda p: p["creationDate"], reverse=True)].  The
    sort of Python is stable, also when reversed, which determines its
    result: it is the one of this insertion sort, where a post goes before
    the first post that is not more recent than it. *)
Fixpoint insert_desc (p : post) (sorted : list post) : list post :=
  match sorted with
  | [] => [p]
  | q :: sorted' =>
      if (p_creationDate q <=? p_creationDate p)%Z then p :: sorted
      else q :: insert_desc p sorted'
  end.

Definition sorted_desc (posts : list post) : list post :=
  fold_right insert_desc [] posts.

Definition rss_item `{Runtime} (site_url : str) (p : post) : str :=
  let link := site_url ++ lit "/" ++ p_slug p ++ lit ".html" in
  let pub_date := format_rfc822_date (p_creationDate p) in
  let content := replace (lit "]]>") (lit "]]]]><![CDATA[>") (p_content p) in
  lit "<item>" ++ nl
  ++ lit "  <title>" ++ p_title p ++ lit "</title>" ++ nl
  ++ lit "  <link>" ++ link ++ lit "</link>" ++ nl
  ++ lit "  <pubDate>" ++ pub_date ++ lit "</pubDate>" ++ nl
  ++ lit "  <description><![CDATA[" ++ content ++ lit "]]></description>" ++ nl
  ++ lit "  <guid>" ++ link ++ lit "</guid>" ++ nl
  ++ lit "</item>".

Definition generate_rss_items `{Runtime} (posts : list post) (site_url : str)
  : str :=
  let recent_posts := firstn 30 (sorted_desc posts) in
  join nl (map (rss_item site_url) recent_posts).

(** The index page of [main]. *)
Definition index_html (posts : list post) (index_template : str) : str :=
  let posts_sorted := firstn 30 (sorted_desc posts) in
  let articles_html := join nl (map p_articleSnippet posts_sorted) in
  render_template index_template [(lit "articles", articles_html)].

(** *** Vocabulary for the statements about the index, the feed and the
    lookup table *)

Definition newer_or_equal (a b : post) : Prop :=
  (p_creationDate b <= p_creationDate a)%Z.

(** The posts that the index page and the feed list. *)
Definition listed_posts (posts : list post) : list post :=
  firstn 30 (sorted_desc posts).

(** The last note of the batch that has the title [t]. *)
Definition last_titled (all_notes : list note) (t : str) : option note :=
  find (fun n => str_eqb t (n_title n)) (rev all_notes).

(** Two notes with the title [T]. *)
Definition first_sample_note : note :=
  {| n_identifier := lit "A"; n_title := lit "T"; n_creation_date := 1%Z;
     n_parsed_content := empty_note [] |}.

Definition second_sample_note : note :=
  {| n_identifier := lit "B"; n_title := lit "T"; n_creation_date := 2%Z;
     n_parsed_content := empty_note [] |}.

(** *** Vocabulary for further statements *)

(** Every element of the list is related to the next one. *)
Fixpoint adjacent {A : Type} (R : A -> A -> Prop) (l : list A) : Prop :=
  match l with
  | a :: l' =>
      match l' with
      | b :: _ => R a b /\ adjacent R l'
      | [] => True
      end
  | [] => True
  end.

Definition other_type (a b : block) : Prop := b_type a <> b_type b.

Definition other_format (a b : merged_run) : Prop :=
  format_key_eqb (m_format_key b) (m_format_key a) = false.

Definition less_than : Z := 60.
Definition greater_than : Z := 62.
Definition ampersand : Z := 38.
Definition hyphen : Z := 45.

(** A character of the title part of a slug: a lower-case ASCII letter, an
    ASCII digit or a hyphen. *)
Definition url_safe (c : Z) : Prop :=
  (97 <= c <= 122)%Z \/ (48 <= c <= 57)%Z \/ c = hyphen.

Definition not_both_hyphens (a b : Z) : Prop := ~ (a = hyphen /\ b = hyphen).

(** The part of a slug that comes from the title. *)
Definition title_slug `{Runtime} (title : str) : str :=
  hyphenate (filter slug_char (lower title)) false.

Definition same_date (d : datetime) (p : post) : bool :=
  (p_creationDate p =? d)%Z.

(** The block that the grouping loop is filling, as a list. *)
Definition open_block (current_block : option block) : list block :=
  match current_block with
  | Some b => [b]
  | None => []
  end.

(** The merged run that the merging loop is extending, as a list. *)
Definition open_merged (current : option merged_run) : list merged_run :=
  match current with
  | Some c => [c]
  | None => []
  end.

(** The merged run has the format key of its representative run, which is
    one of [runs]. *)
Definition keeps_key (runs : list StyleRun) (m : merged_run) : Prop :=
  m_format_key m = get_run_format_key (m_run m) /\ In (m_run m) runs.

(** The text does not start with a hyphen. *)
Definition starts_without_hyphen (s : str) : Prop :=
  match s with
  | c :: _ => c <> hyphen
  | [] => True
  end.

(** *** The legacy renderer of a run *)

(** [format_run_as_html]: the text is escaped and formatted whole. *)
Definition format_run_as_html `{Runtime} (run : StyleRun) (text : str)
    (note_lookup : note_lookup_t) (slug : str) : str :=
  let html := escape_html text in
  let html := apply_inline run html in
  apply_link run note_lookup html.

(** [text_to_paragraphs]: [result] and [buffer] are threaded through the
    loop over the lines; [flush_buffer] returns the new [result] and leaves
    the buffer empty. *)
Definition flush_buffer (result buffer : list str) : list str :=
  match buffer with
  | [] => result
  | _ =>
      match strip (join (lit " ") buffer) with
      | [] => result
      | text => result ++ [wrap (lit "p") text]
      end
  end.

Fixpoint paragraphs_loop (lines result buffer : list str) : list str :=
  match lines with
  | [] => flush_buffer result buffer
  | line :: lines' =>
      match strip line with
      | [] => paragraphs_loop lines' (flush_buffer result buffer) []
      | stripped =>
          if startswith (lit "<h") stripped
             || startswith (lit "<blockquote") stripped
          then
            paragraphs_loop lines' (flush_buffer result buffer ++ [stripped])
              []
          else paragraphs_loop lines' result (buffer ++ [stripped])
      end
  end.

Definition text_to_paragraphs (html : str) : str :=
  join nl (paragraphs_loop (split nl html) [] []).

(** [range(a, b)] *)
Definition range (a b : Z) : list Z :=
  map (fun k => a + Z.of_nat k)%Z (seq 0 (Z.to_nat (b - a))).

(** The table [pos_to_runs] of [style_runs_to_html], from a position to the
    runs that cover it. *)
Definition pos_to_runs_t : Type := dict Z (list StyleRun).

(** [pos_to_runs.get(i, [])] *)
Definition runs_at (pos_to_runs : pos_to_runs_t) (i : Z) : list StyleRun :=
  match dict_get Z.eqb pos_to_runs i with
  | Some runs => runs
  | None => []
  end.

(** The body of the inner loop: [pos_to_runs[i]] is created empty when it
    is missing, and [run] is appended to it. *)
Definition add_run_at (run : StyleRun) (pos_to_runs : pos_to_runs_t) (i : Z)
  : pos_to_runs_t :=
  dict_set Z.eqb pos_to_runs i (runs_at pos_to_runs i ++ [run]).

(** The two loops that fill the table: one round for every position of
    every run. *)
Definition build_pos_to_runs (style_runs : list StyleRun) : pos_to_runs_t :=
  fold_left
    (fun pos_to_runs run =>
       fold_left (add_run_at run)
         (range (start run) (start run + length run)) pos_to_runs)
    style_runs [].

(** The [while] loop of [style_runs_to_html].  Every round moves [i]
    forward, so that [len(text)] rounds are enough. *)
Fixpoint style_loop `{Runtime} (fuel : nat) (text : str)
    (pos_to_runs : pos_to_runs_t) (note_lookup : note_lookup_t) (slug : str)
    (i : Z) : list str :=
  match fuel with
  | O => []
  | S fuel' =>
      if (i <? len text)%Z then
        match runs_at pos_to_runs i with
        | [] =>
            match nth_error text (Z.to_nat i) with
            | Some char =>
                (if (char =? newline)%Z then nl else escape_html [char])
                :: style_loop fuel' text pos_to_runs note_lookup slug (i + 1)
            | None => []
            end
        | run :: _ =>
            format_run_as_html run (run_slice text run) note_lookup slug
            :: style_loop fuel' text pos_to_runs note_lookup slug
                 (start run + length run)
        end
      else []
  end.

Definition style_runs_to_html `{Runtime} (text : str)
    (style_runs : list StyleRun) (note_lookup : note_lookup_t) (slug : str)
  : str :=
  match style_runs with
  | [] => text_to_paragraphs (escape_html text)
  | _ =>
      let pos_to_runs := build_pos_to_runs style_runs in
      let result :=
        style_loop (List.length text) text pos_to_runs note_lookup slug 0 in
      text_to_paragraphs (List.concat result)
  end.

(** [i in range(run.start, run.start + run.length)] *)
Definition covers (i : Z) (run : StyleRun) : bool :=
  ((start run <=? i) && (i <? start run + length run))%Z.

(** A part of the result of [text_to_paragraphs]: a paragraph around a
    text that is not empty, or a line that starts a heading or a
    blockquote; it holds no newline. *)
Definition paragraph_or_block (part : str) : Prop :=
  ((exists text, text <> [] /\ part = wrap (lit "p") text)
   \/ startswith (lit "<h") part || startswith (lit "<blockquote") part
      = true)
  /\ ~ In newline part.

(** *** The loops of [main]

    The files that [write_file] writes are a table from the path to the
    content, where a path that is written again is overwritten.  A run
    starts after the templates have been loaded and the rows have been read
    from the database.  [isoformat] is [dt.isoformat()], which
    [format_datetime] returns. *)

(** [format_date]: [dt.strftime("%B %d, %Y").replace(" 0", " ")] *)
Definition format_date `{Runtime} (dt : datetime) : str :=
  replace (lit " 0") (lit " ") (strftime "%B %d, %Y" dt).

Definition files : Type := dict str str.

Definition write_file (fs : files) (filepath content : str) : files :=
  dict_set str_eqb fs filepath content.

(** A row of [all_notes] as [export.get_notes_from_folder] returns it, with
    the fields that [main] reads: a date is [None] for a null timestamp and
    the content is [None] for a row without data. *)
Record stored_note : Type := {
  sn_identifier : str;
  sn_title : str;
  sn_creation_date : option datetime;
  sn_modification_date : option datetime;
  sn_parsed_content : option ParsedNote
}.

(** The row as the loop over [notes] uses it.  The loop calls
    [creation_date.strftime] and then reads [parsed_note.title]; on [None]
    either raises [AttributeError], before anything is written for the
    row. *)
Definition note_of (n : stored_note) : res note :=
  match sn_creation_date n, sn_parsed_content n with
  | Some creation_date, Some parsed =>
      Ok {| n_identifier := sn_identifier n; n_title := sn_title n;
            n_creation_date := creation_date; n_parsed_content := parsed |}
  | _, _ => Raise AttributeError
  end.

(** What [main] takes from the configuration and from the template
    directory. *)
Record site : Type := {
  output_dir : str;
  site_title : str;
  site_url : str;
  site_description : str;
  article_template : str;
  snippet_template : str;
  index_template : str;
  feed_template : str
}.

(** [note["modification_date"] and note["modification_date"] >
    last_published] *)
Definition modified_since (last_published : datetime) (n : stored_note)
  : bool :=
  match sn_modification_date n with
  | Some modification_date => (last_published <? modification_date)%Z
  | None => false
  end.

(** [notes]: the rows modified since the last run when there is a manifest,
    all the rows otherwise. *)
Definition selected_notes (all_notes : list stored_note)
    (last_published : option datetime) : list stored_note :=
  match last_published with
  | Some t => filter (modified_since t) all_notes
  | None => all_notes
  end.

Definition article_path (cfg : site) (slug : str) : str :=
  output_dir cfg ++ lit "/" ++ slug ++ lit ".html".

Definition index_path (cfg : site) : str := output_dir cfg ++ lit "/index.html".

Definition feed_path (cfg : site) : str := output_dir cfg ++ lit "/feed.xml".

Section Main.

Context {rt : Runtime}.
Variable isoformat : datetime -> str.

Definition format_datetime (dt : datetime) : str := isoformat dt.

(** The body of the loop over [notes], up to the write: the article and the
    entry of [posts]. *)
Definition render_note (cfg : site) (note_lookup : note_lookup_t) (n : note)
  : str * post :=
  let title := n_title n in
  let creation_date := n_creation_date n in
  let slug := generate_slug title creation_date in
  let datetime_str := format_datetime creation_date in
  let human_date := format_date creation_date in
  let parsed := n_parsed_content n in
  let html := convert_note_to_html parsed note_lookup slug in
  let footnote_result := process_footnotes html slug in
  let html := fst footnote_result in
  let template_vars :=
    [(lit "title", title); (lit "slug", slug);
     (lit "datetime", datetime_str); (lit "humanDate", human_date);
     (lit "content", html); (lit "footer", snd footnote_result)] in
  let article_output := render_template (article_template cfg) template_vars in
  let snippet_output := render_template (snippet_template cfg) template_vars in
  (article_output,
   {| p_title := title; p_slug := slug; p_creationDate := creation_date;
      p_humanDate := human_date; p_content := html;
      p_articleSnippet := snippet_output |}).

(** The loop of [main] that fills [note_lookup] from the rows:
    [generate_slug] raises [AttributeError] on a row without creation
    date. *)
Fixpoint fill_note_lookup_rows (all_notes : list stored_note)
    (note_lookup : note_lookup_t) : res note_lookup_t :=
  match all_notes with
  | [] => Ok note_lookup
  | n :: all_notes' =>
      match sn_creation_date n with
      | Some creation_date =>
          fill_note_lookup_rows all_notes'
            (dict_set str_eqb note_lookup (sn_title n)
               {| slug := generate_slug (sn_title n) creation_date;
                  creationDate := creation_date;
                  identifier := sn_identifier n |})
      | None => Raise AttributeError
      end
  end.

(** The loop over [notes]: each note is written to the path of its slug and
    appended to [posts]; an exception ends the loop and leaves the files
    written so far. *)
Fixpoint publish_notes (cfg : site) (note_lookup : note_lookup_t)
    (notes : list stored_note) (fs : files) (posts : list post)
  : files * res (list post) :=
  match notes with
  | [] => (fs, Ok posts)
  | row :: notes' =>
      match note_of row with
      | Ok n =>
          let (article_output, p) := render_note cfg note_lookup n in
          publish_notes cfg note_lookup notes'
            (write_file fs (article_path cfg (p_slug p)) article_output)
            (posts ++ [p])
      | Raise e => (fs, Raise e)
      end
  end.



(** How a run ends: [sys.exit(code)], an exception that is not caught,
    with the files written before it, or the files written and [posts]. *)
Inductive outcome : Type :=
  | Exit (code : Z)
  | Raised (e : exn) (fs : files)
  | Published (fs : files) (posts : list post).

Definition main (cfg : site) (fs : files) (all_notes : list stored_note)
    (last_published : option datetime) : outcome :=
  match all_notes with
  | [] => Exit 1
  | _ =>
      let notes := selected_notes all_notes last_published in
      match last_published, notes with
      | Some _, [] => Exit 0
      | _, _ =>
          match fill_note_lookup_rows all_notes [] with
          | Raise e => Raised e fs
          | Ok note_lookup =>
              match publish_notes cfg note_lookup notes fs [] with
              | (fs, Raise e) => Raised e fs
              | (fs, Ok posts) =>
                  let fs :=
                    write_file fs (index_path cfg)
                      (index_html posts (index_template cfg)) in
                  let rss_items := generate_rss_items posts (site_url cfg) in
                  let feed_vars :=
                    [(lit "site_title", site_title cfg);
                     (lit "site_url", site_url cfg);
                     (lit "site_description", site_description cfg);
                     (lit "items", rss_items)] in
                  Published
                    (write_file fs (feed_path cfg)
                       (render_template (feed_template cfg) feed_vars))
                    posts
              end
          end
      end
  end.

End Main.

(** *** Vocabulary for the statements about a run *)


(** A site whose templates show the title of a note. *)
Definition sample_site : site :=
  {| output_dir := lit "out"; site_title := lit "Notes";
     site_url := lit "https://example.org"; site_description := [];
     article_template := lit "<h1>{{title}}</h1>{{content}}";
     snippet_template := lit "<li>{{title}}</li>";
     index_template := lit "<ul>{{articles}}</ul>";
     feed_template := lit "<rss>{{items}}</rss>" |}.

(** A bold run of normal paragraph style. *)
Definition bold_run (start length : Z) (text : str) : StyleRun :=
  {| start := start; length := length; text := text;
     paragraph_style := VInt PARA_STYLE_NORMAL;
     text_style := VInt TEXT_STYLE_BOLD;
     is_blockquote := false; is_superscript := false; is_underline := false;
     is_strikethrough := false; link_url := None |}.

(** A note with a body whose only run is the one of the title line. *)
Definition title_run_note : ParsedNote :=
  {| title := lit "T";
     text_content := lit "body";
     style_runs := [plain_run 0 2 (lit "T" ++ nl) PARA_STYLE_NORMAL];
     note_links := [];
     raw_data := [] |}.

(** The row of a note that has its date and its content. *)
Definition row_of (n : note) (modification_date : option datetime)
  : stored_note :=
  {| sn_identifier := n_identifier n; sn_title := n_title n;
     sn_creation_date := Some (n_creation_date n);
     sn_modification_date := modification_date;
     sn_parsed_content := Some (n_parsed_content n) |}.




(** The two sample notes as rows: the first was modified at 5, the second
    at 1. *)
Definition sample_rows : list stored_note :=
  [row_of first_sample_note (Some 5%Z); row_of second_sample_note (Some 1%Z)].





(** A post of which only the date matters. *)
Definition dated_post (title : str) (d : datetime) : post :=
  {| p_title := title; p_slug := title; p_creationDate := d;
     p_humanDate := []; p_content := []; p_articleSnippet := title |}.

End PublishPy.

(** ** publish-simple.py *)

Module PublishSimplePy.

Import PublishPy.

(** [generate_slug], [render_template] and [generate_rss_items] have the
    same text in both scripts, and so has the index page of [main]. *)
Definition generate_slug `{Runtime} := PublishPy.generate_slug.
Definition render_template := PublishPy.render_template.
Definition generate_rss_items `{Runtime} := PublishPy.generate_rss_items.
Definition index_html := PublishPy.index_html.

(** A note as the automation bridge returns it. *)
Record note : Type := {
  name : str;
  body : str;
  creationDate : datetime
}.

(** An entry of the lookup table: [{'slug': ..., 'creationDate': ...}]. *)
Record note_info : Type := {
  slug : str;
  info_creationDate : datetime
}.

Definition note_lookup_t : Type := dict str note_info.

Definition info_of_note `{Runtime} (n : note) : note_info :=
  {| slug := generate_slug (name n) (creationDate n);
     info_creationDate := creationDate n |}.

Fixpoint fill_note_lookup `{Runtime} (notes : list note)
    (lookup : note_lookup_t) : note_lookup_t :=
  match notes with
  | [] => lookup
  | n :: notes' =>
      fill_note_lookup notes'
        (dict_set str_eqb lookup (name n) (info_of_note n))
  end.

Definition build_note_lookup `{Runtime} (notes : list note) : note_lookup_t :=
  fill_note_lookup notes [].

(** *** Wiki links *)

(** [span p l]: the longest prefix of [l] whose elements satisfy [p], and
    the rest. *)
Fixpoint span {A : Type} (p : A -> bool) (l : list A) : list A * list A :=
  match l with
  | [] => ([], [])
  | x :: l' =>
      if p x then let (a, b) := span p l' in (x :: a, b) else ([], l)
  end.

Definition not_char (c : Z) (x : Z) : bool := negb (x =? c)%Z.

Definition rbracket : Z := 93.

(** The callback [replace_link]. *)
Definition replace_link (note_lookup : note_lookup_t) (title : str) : str :=
  match dict_get str_eqb note_lookup title with
  | Some info => anchor (lit "/" ++ slug info ++ lit ".html") title
  | None => title
  end.

(** [\[\[([^\]]+)\]\]] at the head of [s]: the title and the number of
    characters matched.  The class [[^\]]+] stops at the first closing
    bracket, where the two closing brackets must stand. *)
Definition match_wiki_link (s : str) : option (str * nat) :=
  if startswith (lit "[[") s then
    let (title, rest) := span (not_char rbracket) (skipn 2 s) in
    if nonempty title && startswith (lit "]]") rest
    then Some (title, (4 + List.length title)%nat)
    else None
  else None.

(** [re.sub] with the pattern above: matches are looked for from left to
    right and the scan resumes after each match. *)
Fixpoint sub_wiki_links (note_lookup : note_lookup_t) (s : str) (skip : nat)
  : str :=
  match s with
  | [] => []
  | c :: s' =>
      match skip with
      | S k => sub_wiki_links note_lookup s' k
      | O =>
          match match_wiki_link s with
          | Some (title, n) =>
              replace_link note_lookup title
              ++ sub_wiki_links note_lookup s' (Nat.pred n)
          | None => c :: sub_wiki_links note_lookup s' 0
          end
      end
  end.

Definition resolve_links (html : str) (note_lookup : note_lookup_t) : str :=
  sub_wiki_links note_lookup html 0.

(** *** Footnotes *)

Definition is_digit `{Runtime} (c : Z) : bool :=
  match decimal c with
  | Some _ => true
  | None => false
  end.

Definition digit_value `{Runtime} (c : Z) : Z :=
  match decimal c with
  | Some d => d
  | None => 0%Z
  end.

(** The number that a string of decimal digits denotes. *)
Definition int_value `{Runtime} (num : str) : Z :=
  fold_left (fun acc c => 10 * acc + digit_value c)%Z num 0%Z.

(** The string has no more digits than [int] converts. *)
Definition within_digit_limit `{Runtime} (num : str) : bool :=
  ((int_max_str_digits =? 0) || (len num <=? int_max_str_digits))%Z.

(** [int(num)] for a string of decimal digits, which is what [\d+] matches:
    [ValueError] when the string has more digits than the limit of the
    interpreter. *)
Definition py_int `{Runtime} (num : str) : res Z :=
  if within_digit_limit num then Ok (int_value num) else Raise ValueError.

(** [\[\^(\d+)\]] at the head of [s]: the digits and the number of
    characters matched. *)
Definition match_reference `{Runtime} (s : str) : option (str * nat) :=
  if startswith (lit "[^") s then
    let (num, rest) := span is_digit (skipn 2 s) in
    if nonempty num && startswith (lit "]") rest
    then Some (num, (3 + List.length num)%nat)
    else None
  else None.

(** The greatest [j] such that the first [j] characters of [s] are
    whitespace and a character other than the newline follows them.  This
    is how [\s+], which is greedy and gives back characters one at a time,
    leaves [(.+?)$] a first character to match. *)
Fixpoint whitespace_split (s : str) : option nat :=
  match s with
  | [] => None
  | c :: s' =>
      if isspace c then
        match whitespace_split s' with
        | Some j => Some (S j)
        | None => if (c =? newline)%Z then None else Some O
        end
      else Some O
  end.

(** [^\[\^(\d+)\]:?\s+(.+?)$] with [re.MULTILINE], at the head of [s], which
    starts a line: the digits, the text and the number of characters
    matched.  The text is lazy and [$] stands at the end of a line, so the
    text is what is left of the line. *)
Definition match_definition `{Runtime} (s : str) : option (str * str * nat) :=
  match match_reference s with
  | None => None
  | Some (num, n) =>
      let s3 := skipn n s in
      let colon := if startswith (lit ":") s3 then 1%nat else 0%nat in
      let s4 := skipn colon s3 in
      match whitespace_split s4 with
      | Some (S j) =>
          let text := fst (span (not_char newline) (skipn (S j) s4)) in
          Some (num, text, (n + colon + S j + List.length text)%nat)
      | _ => None
      end
  end.

(** The first [re.sub] of [process_footnotes], with the callback
    [extract_definition]: [at_bol] tells whether the position starts a line,
    [definitions] is the dictionary that the callback fills. *)
Fixpoint sub_definitions `{Runtime} (s : str) (at_bol : bool) (skip : nat)
    (definitions : dict str str) : str * dict str str :=
  match s with
  | [] => ([], definitions)
  | c :: s' =>
      let next_bol := (c =? newline)%Z in
      match skip with
      | S k => sub_definitions s' next_bol k definitions
      | O =>
          match (if at_bol then match_definition s else None) with
          | Some (num, text, n) =>
              sub_definitions s' next_bol (Nat.pred n)
                (dict_set str_eqb definitions num (strip text))
          | None =>
              let (content, definitions') :=
                sub_definitions s' next_bol 0 definitions in
              (c :: content, definitions')
          end
      end
  end.

Definition footnote_id (slug num : str) : str :=
  slug ++ lit "--footnote-" ++ num.

Definition footnote_anchor_id (slug num : str) : str :=
  footnote_id slug num ++ lit "--anchor".

(** The callback [replace_reference]. *)
Definition replace_reference (slug num : str) : str :=
  lit "<a id=" ++ quote ++ footnote_anchor_id slug num ++ quote
  ++ lit " href=" ++ quote ++ lit "#" ++ footnote_id slug num ++ quote
  ++ lit "><sup>" ++ num ++ lit "</sup></a>".

(** The second [re.sub]. *)
Fixpoint sub_references `{Runtime} (slug : str) (s : str) (skip : nat) : str :=
  match s with
  | [] => []
  | c :: s' =>
      match skip with
      | S k => sub_references slug s' k
      | O =>
          match match_reference s with
          | Some (num, n) =>
              replace_reference slug num ++ sub_references slug s' (Nat.pred n)
          | None => c :: sub_references slug s' 0
          end
      end
  end.

(** [sorted(definitions.keys(), key=int)].  The key of every element is
    computed first, in order, and the first [int] that raises ends the
    call; the elements are then sorted by their keys.  The sort is stable,
    which determines its result: it is the one of this insertion sort, where
    an element goes before the first element whose key is not smaller. *)
Fixpoint int_keys `{Runtime} (nums : list str) : res (list (Z * str)) :=
  match nums with
  | [] => Ok []
  | num :: nums' =>
      match py_int num with
      | Ok key =>
          match int_keys nums' with
          | Ok keyed => Ok ((key, num) :: keyed)
          | Raise e => Raise e
          end
      | Raise e => Raise e
      end
  end.

Fixpoint insert_asc (item : Z * str) (sorted : list (Z * str))
  : list (Z * str) :=
  match sorted with
  | [] => [item]
  | m :: sorted' =>
      if (fst item <=? fst m)%Z then item :: sorted
      else m :: insert_asc item sorted'
  end.

Definition sorted_keys `{Runtime} (nums : list str) : res (list str) :=
  match int_keys nums with
  | Ok keyed => Ok (map snd (fold_right insert_asc [] keyed))
  | Raise e => Raise e
  end.

Definition back_arrow : str := [0x21A9; 0xFE0E]%Z.

(** One [<li>] line of the footer. *)
Definition footer_line (slug num definition : str) : str :=
  lit "<li id=" ++ quote ++ footnote_id slug num ++ quote ++ lit ">"
  ++ definition
  ++ lit "<a href=" ++ quote ++ lit "#" ++ footnote_anchor_id slug num ++ quote
  ++ lit ">" ++ back_arrow ++ lit "</a></li>" ++ nl.

(** [definitions[num]] is defined for the keys of the dictionary, which are
    the only ones asked for. *)
Definition footer_item (slug : str) (definitions : dict str str) (num : str)
  : str :=
  footer_line slug num
    match dict_get str_eqb definitions num with
    | Some text => text
    | None => []
    end.

Definition build_footer `{Runtime} (slug : str) (definitions : dict str str)
  : res str :=
  match definitions with
  | [] => Ok []
  | _ =>
      match sorted_keys (dict_keys definitions) with
      | Ok nums =>
          Ok (lit "<footer>" ++ nl ++ lit "<ol>" ++ nl
              ++ List.concat (map (footer_item slug definitions) nums)
              ++ lit "</ol>" ++ nl ++ lit "</footer>")
      | Raise e => Raise e
      end
  end.

(** [process_footnotes]: the pair of [content] and [footer], or the
    exception of [int]. *)
Definition process_footnotes `{Runtime} (html slug : str)
  : res (str * str) :=
  let (content, definitions) := sub_definitions html true 0 [] in
  let content := sub_references slug content 0 in
  match build_footer slug definitions with
  | Ok footer => Ok (strip content, footer)
  | Raise e => Raise e
  end.

(** *** Cleaning the HTML of Notes.app

    [re.sub(pattern, repl, s)] for a pattern that matches no empty string:
    [m] gives the length of the match of the pattern at the head of a text,
    matches are looked for from left to right and the scan resumes after
    each match. *)
Fixpoint sub_go (m : str -> option nat) (repl : str) (s : str) (skip : nat)
  : str :=
  match s with
  | [] => []
  | c :: s' =>
      match skip with
      | S k => sub_go m repl s' k
      | O =>
          match m s with
          | Some n => repl ++ sub_go m repl s' (Nat.pred n)
          | None => c :: sub_go m repl s' 0
          end
      end
  end.

Definition re_sub (m : str -> option nat) (repl : str) (s : str) : str :=
  sub_go m repl s 0.

Definition is_newline (c : Z) : bool := (c =? newline)%Z.

Definition gt_sign : Z := 62.

(** [<name[^>]*>] at the head of [s]: the class stops at the first [>],
    which must be there. *)
Definition match_tag_with_attributes (name : str) (s : str) : option nat :=
  if startswith (lit "<" ++ name) s then
    let (attrs, rest) :=
      span (not_char gt_sign) (skipn (1 + List.length name) s) in
    match rest with
    | _ :: _ => Some (1 + List.length name + List.length attrs + 1)%nat
    | [] => None
    end
  else None.

(** [<td>\n*] at the head of [s]. *)
Definition match_td_newlines (s : str) : option nat :=
  if startswith (lit "<td>") s
  then Some (4 + List.length (fst (span is_newline (skipn 4 s))))%nat
  else None.

(** [\n*</td>] at the head of [s]: the newlines are a maximal run, since
    nothing but [<] can follow them in a match. *)
Definition match_newlines_td (s : str) : option nat :=
  let (newlines, rest) := span is_newline s in
  if startswith (lit "</td>") rest
  then Some (List.length newlines + 5)%nat
  else None.

(** [\n{3,}] at the head of [s]. *)
Definition match_newlines3 (s : str) : option nat :=
  let newlines := fst (span is_newline s) in
  if (3 <=? List.length newlines)%nat then Some (List.length newlines)
  else None.

Definition clean_html (html : str) : str :=
  let c := html in
  let c := replace (lit "<tt>") (lit "<code>") c in
  let c := replace (lit "</tt>") (lit "</code>") c in
  let c :=
    replace (lit "<ul class=" ++ quote ++ lit "Apple-dash-list" ++ quote
             ++ lit ">")
      (lit "<ul>") c in
  let c := re_sub (match_tag_with_attributes (lit "table")) (lit "<table>") c in
  let c := re_sub (match_tag_with_attributes (lit "td")) (lit "<td>") c in
  let c := re_sub (match_tag_with_attributes (lit "tr")) (lit "<tr>") c in
  let c := re_sub (match_tag_with_attributes (lit "tbody")) (lit "<tbody>") c in
  let c := replace (lit "<object>") [] c in
  let c := replace (lit "</object>") [] c in
  let c := replace (lit "<div><br></div>") nl c in
  let c := replace (lit "<div>") [] c in
  let c := replace (lit "</div>") nl c in
  let c := re_sub match_td_newlines (lit "<td>") c in
  let c := re_sub match_newlines_td (lit "</td>") c in
  let c := replace (lit "<br>") nl c in
  let c := re_sub match_newlines3 (nl ++ nl) c in
  strip c.

(** Three newlines in a row. *)
Definition three_newlines : str := nl ++ nl ++ nl.

(** The first run of newlines of the text has at most [k] newlines and the
    later runs at most two. *)
Fixpoint newline_runs (k : nat) (s : str) : Prop :=
  match s with
  | [] => True
  | c :: s' =>
      if is_newline c then
        match k with
        | S k' => newline_runs k' s'
        | O => False
        end
      else newline_runs 2 s'
  end.

(** The text is empty or has no whitespace at its ends. *)
Definition stripped (s : str) : Prop :=
  match s with
  | [] => True
  | c :: _ => isspace c = false
  end
  /\ match rev s with
     | [] => True
     | c :: _ => isspace c = false
     end.

(** The last note of the batch that has the name [t]. *)
Definition last_named (notes : list note) (t : str) : option note :=
  find (fun n => str_eqb t (name n)) (rev notes).

(** The definitions that [process_footnotes] finds in [html]. *)
Definition found_definitions `{Runtime} (html : str) : dict str str :=
  snd (sub_definitions html true 0 []).

(** The order of the footer: by numeric id. *)
Definition id_le `{Runtime} (a b : str) : Prop :=
  (int_value a <= int_value b)%Z.

Definition lbracket : Z := 91.

(** The text starts with a character that is not whitespace. *)
Definition starts_plain (text : str) : bool :=
  match text with
  | [] => false
  | c :: _ => negb (isspace c)
  end.

(** The reference [[^num]] followed by [rest], character by character. *)
Definition reference_then (num rest : str) : str :=
  lbracket :: 94%Z :: num ++ rbracket :: rest.

(** The wiki link [[[title]]] followed by [rest]. *)
Definition wiki_link_then (title rest : str) : str :=
  lit "[[" ++ title ++ lit "]]" ++ rest.

Definition space : Z := 32.

(** The colon and the space of a definition line. *)
Definition colon_space (text : str) : str := 58%Z :: 32%Z :: text.

(** The definition line [[^num]: text]. *)
Definition definition_line (definition : str * str) : str :=
  reference_then (fst definition) (colon_space (snd definition)).

(** A text made of definition lines only. *)
Definition definition_lines (definitions : list (str * str)) : str :=
  join nl (map definition_line definitions).

(** An id of digits and a text that starts with a character other than
    whitespace and has no newline. *)
Definition is_definition `{Runtime} (definition : str * str) : Prop :=
  fst definition <> []
  /\ forallb is_digit (fst definition) = true
  /\ starts_plain (snd definition) = true
  /\ ~ In newline (snd definition).

(** The footer with the given lines. *)
Definition footer_of (lines : list str) : str :=
  lit "<footer>" ++ nl ++ lit "<ol>" ++ nl ++ List.concat lines
  ++ lit "</ol>" ++ nl ++ lit "</footer>".

(** A text with a reference [[^num]] in the flow of a line and, on the next
    line, the definition [[^num]: text]. *)
Definition paired_footnote (pre num post text : str) : str :=
  pre ++ (lit "[^" ++ num ++ lit "]") ++ post ++ nl
  ++ (lit "[^" ++ num ++ lit "]: " ++ text).

End PublishSimplePy.

(** * Properties *)

Import ExportPy.

(** ** The wire decoder *)

Section WireDecoder.

Local Open Scope res_scope.

Lemma read_varint_loop_app (u x : bytes) :
  forall (r s v : Z) (rest : bytes),
    read_varint_loop u r s = Ok (v, rest) ->
    read_varint_loop (u ++ x) r s = Ok (v, rest ++ x).
Proof.
  induction u as [|b u IH]; intros r s v rest; simpl.
  - discriminate.
  - destruct (Z.land (byte_val b) 128 =? 0)%Z.
    + intros E; inversion E; reflexivity.
    + apply IH.
Qed.

Lemma read_varint_loop_shorter (u : bytes) :
  forall (r s v : Z) (rest : bytes),
    read_varint_loop u r s = Ok (v, rest) ->
    (List.length rest < List.length u)%nat.
Proof.
  induction u as [|b u IH]; intros r s v rest; simpl.
  - discriminate.
  - destruct (Z.land (byte_val b) 128 =? 0)%Z.
    + intros E; inversion E; subst; lia.
    + intros E. apply IH in E. lia.
Qed.

Lemma read_varint_loop_raises (u : bytes) :
  forall (r s : Z) (e : exn),
    read_varint_loop u r s = Raise e -> e = ValueError.
Proof.
  induction u as [|b u IH]; intros r s e; simpl.
  - intros E; inversion E; reflexivity.
  - destruct (Z.land (byte_val b) 128 =? 0)%Z; [discriminate | apply IH].
Qed.

Lemma read_varint_loop_cut (t : bytes) :
  forall r s : Z,
    forallb continues t = true ->
    read_varint_loop t r s = Raise ValueError.
Proof.
  induction t as [|b t IH]; intros r s; simpl.
  - reflexivity.
  - unfold continues at 1. intros H. apply andb_prop in H as [Hb Ht].
    destruct (Z.land (byte_val b) 128 =? 0)%Z; [discriminate | now apply IH].
Qed.

Lemma read_bytes_app (n : Z) (u x b rest : bytes) :
  read_bytes n u = Ok (b, rest) ->
  read_bytes n (u ++ x) = Ok (b, rest ++ x).
Proof.
  unfold read_bytes, len.
  destruct (Z.ltb_spec (Z.of_nat (List.length u)) n) as [|Hle]; [discriminate|].
  intros E; inversion E; subst; clear E.
  rewrite length_app.
  destruct (Z.ltb_spec (Z.of_nat (List.length u + List.length x)) n); [lia|].
  assert (Hk : (Z.to_nat n <= List.length u)%nat) by lia.
  rewrite firstn_app, skipn_app.
  replace (Z.to_nat n - List.length u)%nat with 0%nat by lia.
  simpl. now rewrite app_nil_r.
Qed.

Lemma read_bytes_shorter (n : Z) (u b rest : bytes) :
  read_bytes n u = Ok (b, rest) -> (List.length rest <= List.length u)%nat.
Proof.
  unfold read_bytes. destruct (len u <? n)%Z; [discriminate|].
  intros E; inversion E; subst. rewrite length_skipn. lia.
Qed.

Lemma read_bytes_raises (n : Z) (u : bytes) (e : exn) :
  read_bytes n u = Raise e -> e = ValueError.
Proof.
  unfold read_bytes. destruct (len u <? n)%Z; [|discriminate].
  intros E; inversion E; reflexivity.
Qed.

Lemma read_varint_app (u x : bytes) (v : Z) (rest : bytes) :
  read_varint u = Ok (v, rest) -> read_varint (u ++ x) = Ok (v, rest ++ x).
Proof. apply read_varint_loop_app. Qed.

Lemma read_varint_shorter (u : bytes) (v : Z) (rest : bytes) :
  read_varint u = Ok (v, rest) -> (List.length rest < List.length u)%nat.
Proof. apply read_varint_loop_shorter. Qed.

Lemma read_varint_raises (u : bytes) (e : exn) :
  read_varint u = Raise e -> e = ValueError.
Proof. apply read_varint_loop_raises. Qed.

Lemma read_field_cons (b : byte) (u : bytes) :
  read_field (b :: u) =
  ('(tag_wire, unread) <- read_varint (b :: u) ;; read_field_body tag_wire unread).
Proof. reflexivity. Qed.

Ltac case_res E :=
  match goal with
  | |- context [bind ?m _] =>
      let e := fresh "e" in
      destruct m as [[? ?]|e] eqn:E; simpl
  end.

Lemma read_field_body_app (tag_wire : Z) (u x rest : bytes) (f : option field) :
  read_field_body tag_wire u = Ok (f, rest) ->
  read_field_body tag_wire (u ++ x) = Ok (f, rest ++ x).
Proof.
  unfold read_field_body.
  repeat match goal with
         | |- context [if ?c then _ else _] => destruct c
         end; try discriminate.
  - case_res E; [|discriminate]. intros H; inversion H; subst.
    now rewrite (read_varint_app _ x E).
  - case_res E; [|discriminate]. intros H; inversion H; subst.
    now rewrite (read_bytes_app _ _ x E).
  - case_res E; [|discriminate]. case_res E'; [|discriminate].
    intros H; inversion H; subst.
    rewrite (read_varint_app _ x E). simpl.
    now rewrite (read_bytes_app _ _ x E').
  - case_res E; [|discriminate]. intros H; inversion H; subst.
    now rewrite (read_bytes_app _ _ x E).
Qed.

Lemma read_field_body_shorter (tag_wire : Z) (u rest : bytes)
    (f : option field) :
  read_field_body tag_wire u = Ok (f, rest) ->
  (List.length rest <= List.length u)%nat /\ f <> None.
Proof.
  unfold read_field_body.
  repeat match goal with
         | |- context [if ?c then _ else _] => destruct c
         end; try discriminate.
  - case_res E; [|discriminate]. intros H; inversion H; subst.
    apply read_varint_shorter in E. split; [lia | discriminate].
  - case_res E; [|discriminate]. intros H; inversion H; subst.
    apply read_bytes_shorter in E. split; [lia | discriminate].
  - case_res E; [|discriminate]. case_res E'; [|discriminate].
    intros H; inversion H; subst.
    apply read_varint_shorter in E. apply read_bytes_shorter in E'.
    split; [lia | discriminate].
  - case_res E; [|discriminate]. intros H; inversion H; subst.
    apply read_bytes_shorter in E. split; [lia | discriminate].
Qed.

Lemma read_field_body_raises (tag_wire : Z) (u : bytes) (e : exn) :
  read_field_body tag_wire u = Raise e -> e = ValueError.
Proof.
  unfold read_field_body.
  repeat match goal with
         | |- context [if ?c then _ else _] => destruct c
         end;
    repeat match goal with
           | |- context [bind ?m _] =>
               let E := fresh "E" in destruct m as [[? ?]|?] eqn:E; simpl
           end;
    intros H; inversion H; subst;
    eauto using read_varint_raises, read_bytes_raises.
Qed.

Lemma read_field_app (u x rest : bytes) (f : field) :
  read_field u = Ok (Some f, rest) ->
  read_field (u ++ x) = Ok (Some f, rest ++ x).
Proof.
  destruct u as [|b u]; [discriminate|].
  rewrite <- app_comm_cons, !read_field_cons.
  case_res E; [|discriminate]. intros H.
  rewrite app_comm_cons, (read_varint_app _ x E). simpl.
  now apply read_field_body_app.
Qed.

Lemma read_field_shorter (u rest : bytes) (f : option field) :
  u <> [] ->
  read_field u = Ok (f, rest) ->
  (List.length rest < List.length u)%nat /\ f <> None.
Proof.
  destruct u as [|b u]; [congruence|]. intros _.
  rewrite read_field_cons. case_res E; [|discriminate]. intros H.
  apply read_varint_shorter in E.
  apply read_field_body_shorter in H. destruct H as [Hl Hf].
  simpl in *. split; [lia | exact Hf].
Qed.

Lemma read_field_raises (u : bytes) (e : exn) :
  read_field u = Raise e -> e = ValueError.
Proof.
  destruct u as [|b u]; [discriminate|].
  rewrite read_field_cons. case_res E.
  - apply read_field_body_raises.
  - intros H; inversion H; subst. eauto using read_varint_raises.
Qed.

Lemma parse_all_loop_fuel (fuel : nat) :
  forall (fuel' : nat) (u : bytes) (acc : list field),
    (List.length u <= fuel)%nat -> (List.length u <= fuel')%nat ->
    parse_all_loop fuel u acc = parse_all_loop fuel' u acc.
Proof.
  induction fuel as [|fuel IH]; intros fuel' u acc Hf Hf'.
  - destruct u; [|simpl in Hf; lia]. now destruct fuel'.
  - destruct fuel' as [|fuel'].
    + destruct u; [reflexivity | simpl in Hf'; lia].
    + destruct u as [|b u]; [reflexivity|].
      cbn [parse_all_loop].
      destruct (read_field (b :: u)) as [[[f|] rest]|e] eqn:E; try reflexivity.
      apply read_field_shorter in E as [Hlt _]; [|discriminate].
      simpl in *. apply IH; lia.
Qed.

Lemma parse_all_loop_returns (fuel : nat) :
  forall (u : bytes) (acc : list field),
    exists fields, parse_all_loop fuel u acc = Ok fields.
Proof.
  induction fuel as [|fuel IH]; intros u acc; [now exists acc|].
  destruct u as [|b u]; [now exists acc|].
  cbn [parse_all_loop].
  destruct (read_field (b :: u)) as [[[f|] rest]|e] eqn:E.
  - apply IH.
  - now exists acc.
  - apply read_field_raises in E. subst e. now exists acc.
Qed.

Lemma parse_all_loop_complete (pre : bytes) (fs : list field) :
  complete_fields pre fs ->
  forall (rest : bytes) (acc : list field) (fuel : nat),
    (List.length (pre ++ rest) <= fuel)%nat ->
    parse_all_loop fuel (pre ++ rest) acc =
    parse_all_loop (List.length rest) rest (acc ++ fs).
Proof.
  induction 1 as [|enc rest0 f fs Henc _ IH]; intros rest acc fuel Hfuel.
  - rewrite app_nil_r. simpl in *. now apply parse_all_loop_fuel.
  - destruct enc as [|b enc]; [discriminate|].
    rewrite <- app_assoc in *. simpl in Hfuel.
    destruct fuel as [|fuel]; [lia|].
    rewrite <- app_comm_cons. cbn [parse_all_loop].
    rewrite app_comm_cons, (read_field_app _ (rest0 ++ rest) Henc).
    simpl app at 1. rewrite IH.
    + now rewrite <- app_assoc.
    + rewrite !length_app in *. lia.
Qed.

Lemma read_field_cut (cut : bytes) :
  cut_mid_varint cut -> read_field cut = Raise ValueError.
Proof.
  intros [t Hne Hc | tag t tag_wire Htag Hwt Hne Hc].
  - destruct t as [|b t]; [congruence|].
    rewrite read_field_cons. unfold read_varint.
    now rewrite (read_varint_loop_cut _ 0 0 Hc).
  - destruct tag as [|b tag]; [discriminate|].
    rewrite <- app_comm_cons, read_field_cons.
    rewrite app_comm_cons, (read_varint_app _ t Htag). simpl.
    unfold read_field_body, read_varint.
    rewrite (read_varint_loop_cut _ 0 0 Hc).
    destruct Hwt as [-> | ->]; reflexivity.
Qed.

(** C5.  [parse_all] always returns a list of fields: the only exception
    that the read functions raise is [ValueError], which the loop catches.
    In particular, when the buffer is a sequence of complete fields [fs]
    followed by a field cut in the middle of a varint, the result is
    exactly [fs]. *)
Theorem parse_all_keeps_decoded_fields (data : bytes) :
  (exists fields, parse_all data = Ok fields) /\
  (forall (pre cut : bytes) (fs : list field),
      data = pre ++ cut ->
      complete_fields pre fs ->
      cut_mid_varint cut ->
      parse_all data = Ok fs).
Proof.
  split.
  - apply parse_all_loop_returns.
  - intros pre cut fs -> Hpre Hcut. unfold parse_all.
    rewrite (parse_all_loop_complete Hpre); [|lia].
    apply read_field_cut in Hcut.
    destruct cut as [|b cut']; [discriminate|].
    cbn [List.length parse_all_loop]. now rewrite Hcut.
Qed.

Lemma parse_all_keeps_decoded_fields_witness :
  parse_all [x08; x96; x01; x12; x02; x41; x42; x08; x96]
  = Ok [(1, 0, VInt 150); (2, 2, VBytes [x41; x42])]%Z.
Proof.
  apply (proj2 (parse_all_keeps_decoded_fields
                  [x08; x96; x01; x12; x02; x41; x42; x08; x96])
           [x08; x96; x01; x12; x02; x41; x42] [x08; x96]).
  - reflexivity.
  - refine (@complete_cons [x08; x96; x01] [x12; x02; x41; x42] _ _ _ _);
      [reflexivity|].
    refine (@complete_cons [x12; x02; x41; x42] [] _ _ _ _); [reflexivity|].
    exact complete_nil.
  - refine (@cut_in_value [x08] [x96] 8%Z _ _ _ _).
    + reflexivity.
    + left; reflexivity.
    + discriminate.
    + reflexivity.
Defined.

End WireDecoder.

(** ** Run extraction *)

Section RunExtractor.

Local Open Scope res_scope.
Local Open Scope Z_scope.

Lemma byte_val_nonneg (b : byte) : 0 <= byte_val b.
Proof. unfold byte_val. lia. Qed.

Lemma read_varint_loop_nonneg (u : bytes) :
  forall (r s v : Z) (rest : bytes),
    0 <= r ->
    read_varint_loop u r s = Ok (v, rest) -> 0 <= v.
Proof.
  induction u as [|b u IH]; intros r s v rest Hr; simpl; [discriminate|].
  assert (Hacc : 0 <= Z.lor r (Z.shiftl (Z.land (byte_val b) 127) s)).
  { apply Z.lor_nonneg. split; [exact Hr|].
    apply Z.shiftl_nonneg, Z.land_nonneg. right. lia. }
  destruct (Z.land (byte_val b) 128 =? 0).
  - intros E; inversion E; subst; exact Hacc.
  - now apply IH.
Qed.

Lemma read_varint_nonneg (u : bytes) (v : Z) (rest : bytes) :
  read_varint u = Ok (v, rest) -> 0 <= v.
Proof. apply read_varint_loop_nonneg. lia. Qed.

Lemma unpack_le_nonneg (b : bytes) : 0 <= unpack_le b.
Proof.
  induction b as [|x b IH]; cbn [unpack_le]; [lia|].
  pose proof (byte_val_nonneg x). lia.
Qed.

Lemma read_field_body_nonneg (tag_wire : Z) (u rest : bytes) (f : field) :
  read_field_body tag_wire u = Ok (Some f, rest) -> nonneg_field f.
Proof.
  unfold read_field_body.
  repeat match goal with
         | |- context [if ?c then _ else _] => destruct c
         end; try discriminate;
    repeat match goal with
           | |- context [bind ?m _] =>
               let E := fresh "E" in destruct m as [[? ?]|?] eqn:E; simpl
           end; try discriminate;
    intros H; inversion H; subst; unfold nonneg_field; simpl;
    eauto using read_varint_nonneg, unpack_le_nonneg.
Qed.

Lemma read_field_nonneg (u rest : bytes) (f : field) :
  read_field u = Ok (Some f, rest) -> nonneg_field f.
Proof.
  destruct u as [|b u]; [discriminate|].
  rewrite read_field_cons.
  destruct (read_varint (b :: u)) as [[? ?]|?]; simpl; [|discriminate].
  apply read_field_body_nonneg.
Qed.

Lemma parse_all_loop_nonneg (fuel : nat) :
  forall (u : bytes) (acc fs : list field),
    Forall nonneg_field acc ->
    parse_all_loop fuel u acc = Ok fs -> Forall nonneg_field fs.
Proof.
  induction fuel as [|fuel IH]; intros u acc fs Hacc; simpl.
  - intros E; inversion E; subst; exact Hacc.
  - destruct u as [|b u]; [intros E; inversion E; subst; exact Hacc|].
    destruct (read_field (b :: u)) as [[[f|] rest]|e] eqn:E.
    + apply IH. apply Forall_app. split; [exact Hacc|].
      constructor; [|constructor]. eapply read_field_nonneg; eauto.
    + intros E'; inversion E'; subst; exact Hacc.
    + destruct (is_value_error e); [|discriminate].
      intros E'; inversion E'; subst; exact Hacc.
Qed.

Lemma parse_all_fields_nonneg (v : value) (fs : list field) :
  parse_all_fields v = Ok fs -> Forall nonneg_field fs.
Proof.
  destruct v; [discriminate|]. apply parse_all_loop_nonneg. constructor.
Qed.

Lemma read_attrs_length (attrs : list field) :
  forall run, r_length (read_attrs attrs run) = r_length run.
Proof.
  induction attrs as [|[[afn awt] aval] attrs IH]; intros run; simpl;
    [reflexivity|].
  rewrite IH.
  repeat match goal with
         | |- context [if ?c then _ else _] => destruct c
         end; reflexivity.
Qed.

Lemma read_style_fields_nonneg (sfs : list field) :
  forall run run',
    Forall nonneg_field sfs ->
    nonneg_value (r_length run) ->
    read_style_fields sfs run = Ok run' ->
    nonneg_value (r_length run').
Proof.
  induction sfs as [|[[sfn swt] sval] sfs IH]; intros run run' Hs Hr; simpl.
  - intros E; inversion E; subst; exact Hr.
  - inversion Hs as [|? ? Hf Hs']; subst. unfold nonneg_field in Hf.
    simpl in Hf.
    destruct (sfn =? 1); [apply IH; assumption|].
    destruct (sfn =? 2).
    { destruct (parse_all_fields sval); simpl; [|discriminate].
      apply IH; [assumption|]. now rewrite read_attrs_length. }
    destruct (sfn =? 5); [apply IH; assumption|].
    destruct (sfn =? 8); [apply IH; assumption|].
    destruct (sfn =? 9); [|apply IH; assumption].
    destruct sval as [|b]; [apply IH; assumption|].
    destruct (utf8_decode b) as [|e]; [apply IH; assumption|].
    destruct e; try discriminate. apply IH; assumption.
Qed.

Lemma declared_length_nonneg (f : field) (n : Z) :
  declared_length f = Ok (VInt n) -> 0 <= n.
Proof.
  unfold declared_length.
  destruct (parse_all_fields (snd f)) as [sfs|] eqn:E; simpl; [|discriminate].
  destruct (read_style_fields sfs run_defaults) as [run|] eqn:E';
    simpl; [|discriminate].
  intros H; inversion H as [Hn].
  apply parse_all_fields_nonneg in E.
  apply (read_style_fields_nonneg _ E) in E'; [|simpl; lia].
  now rewrite Hn in E'.
Qed.

Lemma declared_lengths_nonneg (nf : list field) :
  forall lens, declared_lengths nf = Some lens -> Forall (fun n => 0 <= n) lens.
Proof.
  induction nf as [|f nf IH]; intros lens; simpl.
  - intros E; inversion E; constructor.
  - destruct (tagged 5 2 f); [|apply IH].
    destruct (declared_length f) as [[n|]|] eqn:E; try discriminate.
    destruct (declared_lengths nf) as [lens'|]; [|discriminate].
    intros H; inversion H; subst. constructor; [|now apply IH].
    eapply declared_length_nonneg; eauto.
Qed.

Lemma sum_Z_nonneg (l : list Z) : Forall (fun n => 0 <= n) l -> 0 <= sum_Z l.
Proof. induction 1; simpl; lia. Qed.

(** The cursor never reaches the end of the text before the last run of
    positive length, so the guard [pos < len(text)] rejects none of them. *)
Lemma slice_within {A : Type} (s : list A) (pos n : Z) :
  0 <= pos -> 0 <= n -> pos + n <= len s ->
  slice s pos (pos + n) = firstn (Z.to_nat n) (skipn (Z.to_nat pos) s).
Proof.
  intros Hpos Hn Hle. unfold slice, slice_index.
  destruct (Z.ltb_spec pos 0); [lia|].
  destruct (Z.ltb_spec (pos + n) 0); [lia|].
  rewrite !Z.min_l by lia. do 2 f_equal. lia.
Qed.

Lemma extract_loop_sum (nf : list field) (text : str) :
  forall (pos : Z) (lens : list Z),
    declared_lengths nf = Some lens ->
    0 <= pos ->
    pos + sum_Z lens = len text ->
    exists runs,
      extract_loop nf text pos = Ok runs
      /\ sum_lengths runs = sum_Z lens
      /\ List.concat (map ExportPy.text runs) = skipn (Z.to_nat pos) text.
Proof.
  induction nf as [|f nf IH]; intros pos lens Hd Hp Hsum.
  - inversion Hd; subst. exists []. repeat split.
    simpl in *. rewrite skipn_all2; [reflexivity | unfold len in Hsum; lia].
  - pose proof (declared_lengths_nonneg _ Hd) as Hnn.
    simpl in Hd |- *. destruct (tagged 5 2 f); [|now apply IH].
    destruct (declared_length f) as [[n|]|] eqn:E; try discriminate.
    destruct (declared_lengths nf) as [lens'|] eqn:E'; [|discriminate].
    inversion Hd; subst lens; clear Hd.
    inversion Hnn as [|? ? Hn Hnn']; subst.
    pose proof (sum_Z_nonneg Hnn') as Hs.
    unfold declared_length in E.
    destruct (parse_all_fields (snd f)) as [sfs|]; simpl in *; [|discriminate].
    destruct (read_style_fields sfs run_defaults) as [run|]; simpl in *;
      [|discriminate].
    inversion E as [El]. rewrite El.
    destruct (Z.ltb_spec 0 n) as [Hpos|Hz]; simpl.
    + destruct (Z.ltb_spec pos (len text)) as [_|Hge]; [|lia].
      destruct (IH (pos + n) lens' eq_refl) as (runs & -> & Hruns & Htexts);
        [lia | lia |].
      simpl. eexists; split; [reflexivity|]. split.
      * unfold sum_lengths in *. simpl. lia.
      * simpl. rewrite Htexts, slice_within by lia.
        replace (Z.to_nat (pos + n)) with (Z.to_nat n + Z.to_nat pos)%nat
          by lia.
        rewrite <- skipn_skipn. apply firstn_skipn.
    + assert (n = 0) by lia. subst n.
      destruct (IH pos lens' eq_refl) as (runs & -> & Hruns & Htexts);
        [lia | lia |].
      exists runs. repeat split; [lia | exact Htexts].
Qed.

Lemma split_go_exhausted (sep s : str) :
  forall cur, split_go sep s 0 cur (Some O) = [cur ++ s].
Proof.
  induction s as [|c s IH]; intros cur; simpl.
  - now rewrite app_nil_r.
  - rewrite IH, <- app_assoc. reflexivity.
Qed.

(** [text.split("\n", 1)]: the text itself when it has no newline, else the
    parts before and after the first one. *)
Lemma split_first_newline (s : str) :
  forall cur,
    split_go [newline] s 0 cur (Some 1%nat) = [cur ++ s]
    \/ exists t b,
        s = t ++ newline :: b
        /\ split_go [newline] s 0 cur (Some 1%nat) = [cur ++ t; b].
Proof.
  induction s as [|c s IH]; intros cur.
  - left. simpl. now rewrite app_nil_r.
  - cbn [split_go may_split startswith andb].
    destruct (Z.eqb_spec newline c) as [<-|Hc]; simpl.
    + right. exists [], s. rewrite split_go_exhausted, app_nil_r. now split.
    + destruct (IH (cur ++ [c])) as [E | (t & b & -> & E)]; rewrite E.
      * left. now rewrite <- app_assoc.
      * right. exists (c :: t), b. rewrite <- app_assoc. now split.
Qed.

(** C1, as the code has it.  For every well-formed record the extracted
    runs have lengths that add up to the length of the decoded main text,
    title line included: [len(title) + 1 + len(body)] when the text has a
    newline, [len(title)] (and an empty body) when it has none.  The runs
    partition that text: their texts, concatenated, are the main text. *)
Theorem style_run_lengths_cover_main_text (data : bytes) :
  well_formed data ->
  exists text note,
    extract_main_text data = Ok text
    /\ parse_decompressed data = Ok note
    /\ sum_lengths (style_runs note) = len text
    /\ List.concat (map ExportPy.text (style_runs note)) = text
    /\ (sum_lengths (style_runs note)
          = len (title note) + 1 + len (text_content note)
        \/ (sum_lengths (style_runs note) = len (title note)
            /\ text_content note = [])).
Proof.
  unfold well_formed, parse_decompressed, extract_main_text,
    extract_style_runs.
  destruct (get_note_content_fields data) as [nf|]; [|tauto]. simpl.
  destruct (first_text nf) as [text|]; [|tauto].
  destruct (declared_lengths nf) as [lens|] eqn:Hd; [|tauto].
  intros Hsum. simpl.
  destruct (@extract_loop_sum nf text 0 lens Hd) as (runs & -> & Hruns & Htexts);
    [lia | lia |].
  simpl. exists text. eexists. repeat split; simpl; [lia | exact Htexts |].
  unfold split_max.
  destruct (split_first_newline text []) as [E | (t & b & -> & E)];
    rewrite E; simpl.
  - right. split; [lia | reflexivity].
  - left. rewrite Hruns, Hsum. unfold len.
    rewrite length_app. simpl. lia.
Qed.

Lemma style_run_lengths_cover_main_text_witness :
  well_formed sample_record /\
  exists text note,
    extract_main_text sample_record = Ok text
    /\ parse_decompressed sample_record = Ok note
    /\ sum_lengths (style_runs note) = len text
    /\ List.concat (map ExportPy.text (style_runs note)) = text
    /\ (sum_lengths (style_runs note)
          = len (title note) + 1 + len (text_content note)
        \/ (sum_lengths (style_runs note) = len (title note)
            /\ text_content note = [])).
Proof.
  split.
  - vm_compute. reflexivity.
  - apply (style_run_lengths_cover_main_text sample_record).
    vm_compute. reflexivity.
Defined.

(** C1 as the specification words it fails on [sample_record]: its two
    runs, which partition the main text, have lengths 2 and 4, and the body
    [Body] has length 4. *)
Lemma body_length_counterexample :
  well_formed sample_record /\
  exists note,
    parse_decompressed sample_record = Ok note
    /\ List.concat (map ExportPy.text (style_runs note))
       = title note ++ [newline] ++ text_content note
    /\ sum_lengths (style_runs note) = 6
    /\ len (text_content note) = 4
    /\ sum_lengths (style_runs note) <> len (text_content note).
Proof.
  split; [vm_compute; reflexivity|].
  eexists. split; [vm_compute; reflexivity|].
  repeat split; vm_compute; congruence.
Qed.

End RunExtractor.

(** ** Blocks, merged runs and their rendering *)

Import PublishPy.

Section Rendering.

Context {rt : Runtime}.

Lemma merge_loop_text (full_text : str) (runs : list StyleRun) :
  forall (merged : list merged_run) (current : option merged_run),
    List.concat (map m_text (merge_loop runs full_text merged current))
    = List.concat (map m_text merged) ++ current_text current
      ++ List.concat (map (run_slice full_text) runs).
Proof.
  induction runs as [|run runs IH]; intros merged current.
  - simpl. destruct current as [c|]; simpl.
    + rewrite map_app, concat_app. simpl. now rewrite !app_nil_r.
    + now rewrite app_nil_r.
  - cbn [merge_loop]. destruct current as [c|].
    + match goal with
      | |- context [if ?b then _ else _] => destruct b
      end; rewrite IH; simpl.
      * now rewrite <- app_assoc.
      * rewrite map_app, concat_app. simpl.
        now rewrite app_nil_r, <- app_assoc.
    + rewrite IH. reflexivity.
Qed.

(** C7.  Merging the runs of a block loses and reorders nothing: the texts
    of the merged runs, concatenated in order, are the text slices of the
    input runs concatenated in their original order. *)
Theorem merge_runs_preserve_text (runs : list StyleRun) (full_text : str) :
  List.concat (map m_text (merge_runs_for_rendering runs full_text))
  = List.concat (map (run_slice full_text) runs).
Proof.
  unfold merge_runs_for_rendering. destruct runs as [|run runs];
    [reflexivity|].
  now rewrite merge_loop_text.
Qed.

Lemma close_block_runs (blocks : list block) (current_block : option block) :
  all_block_runs (close_block blocks current_block)
  = all_block_runs blocks ++ current_runs current_block.
Proof.
  unfold all_block_runs. destruct current_block as [b|]; simpl.
  - destruct (b_runs b) eqn:E; simpl.
    + now rewrite app_nil_r.
    + rewrite map_app, concat_app. simpl. now rewrite E, app_nil_r.
  - now rewrite app_nil_r.
Qed.

Lemma group_runs_concat (t : Z) (runs : list StyleRun) :
  forall (blocks : list block) (current_block : option block),
    all_block_runs (group_runs t runs blocks current_block)
    = all_block_runs blocks ++ current_runs current_block
      ++ filter (kept t) runs.
Proof.
  induction runs as [|run runs IH]; intros blocks current_block; simpl.
  - now rewrite close_block_runs, app_nil_r.
  - unfold kept at 1, past_title, is_title_style.
    destruct (start run + length run <=? t)%Z; simpl; [apply IH|].
    destruct (String.eqb (get_block_type run) "h1"); simpl; [apply IH|].
    destruct (starts_new_block _ _) eqn:E; rewrite IH; simpl.
    + now rewrite close_block_runs, <- app_assoc.
    + destruct current_block as [b|]; [|discriminate]. simpl.
      now rewrite <- app_assoc.
Qed.

Lemma note_blocks_runs (parsed_note : ParsedNote) :
  all_block_runs (note_blocks parsed_note)
  = filter (kept (title_end_pos parsed_note)) (style_runs parsed_note).
Proof. unfold note_blocks. now rewrite group_runs_concat. Qed.

(** C3, as the code has it.  The runs of the blocks, concatenated in block
    order, are the original runs, in their order, without those that end
    within the title span and without those whose block type is [h1]
    (paragraph style heading outside a blockquote), which the grouping loop
    skips as well. *)
Theorem blocks_cover_body_runs (parsed_note : ParsedNote) :
  all_block_runs (note_blocks parsed_note)
  = filter (fun run => past_title (len (title parsed_note) + 1) run
                       && negb (is_title_style run))
      (style_runs parsed_note).
Proof.
  unfold note_blocks. rewrite group_runs_concat. reflexivity.
Qed.

(** C3 as the specification words it fails on [sample_note]: the heading
    run lies past the title and is in no block. *)
Lemma blocks_drop_heading_counterexample :
  all_block_runs (note_blocks sample_note)
  <> filter (past_title (len (title sample_note) + 1))
       (style_runs sample_note).
Proof. vm_compute. discriminate. Qed.

Lemma close_block_typed (blocks : list block) (current_block : option block) :
  Forall well_typed_block blocks ->
  (forall b, current_block = Some b -> well_typed_block b) ->
  Forall well_typed_block (close_block blocks current_block).
Proof.
  intros Hb Hc. destruct current_block as [b|]; simpl; [|exact Hb].
  destruct (nonempty (b_runs b)); [|exact Hb].
  apply Forall_app. split; [exact Hb|]. constructor; [|constructor].
  now apply Hc.
Qed.

Lemma group_runs_typed (t : Z) (runs : list StyleRun) :
  forall (blocks : list block) (current_block : option block),
    Forall well_typed_block blocks ->
    (forall b, current_block = Some b -> well_typed_block b) ->
    Forall well_typed_block (group_runs t runs blocks current_block).
Proof.
  induction runs as [|run runs IH]; intros blocks current_block Hb Hc.
  - now apply close_block_typed.
  - cbn [group_runs].
    destruct (start run + length run <=? t)%Z; [now apply IH|].
    destruct (String.eqb_spec (get_block_type run) "h1") as [|Hh1];
      [now apply IH|].
    destruct (starts_new_block _ _) eqn:E; apply IH.
    + now apply close_block_typed.
    + intros b Eb. inversion Eb; subst; clear Eb.
      repeat split; simpl; [discriminate | | exact Hh1].
      constructor; [reflexivity | constructor].
    + exact Hb.
    + destruct current_block as [c|]; [|discriminate].
      intros b Eb. inversion Eb; subst; clear Eb.
      destruct (Hc c eq_refl) as (Hne & Hall & Hty).
      simpl in E. apply negb_false_iff, String.eqb_eq in E.
      repeat split; simpl.
      * destruct (b_runs c); discriminate.
      * apply Forall_app. split; [exact Hall|].
        constructor; [exact E | constructor].
      * exact Hty.
Qed.

Lemma note_blocks_typed (parsed_note : ParsedNote) :
  Forall well_typed_block (note_blocks parsed_note).
Proof.
  apply group_runs_typed; [constructor | discriminate].
Qed.

Lemma get_block_type_not_h3 (run : StyleRun) :
  get_block_type run <> "h3"%string.
Proof.
  unfold get_block_type.
  repeat match goal with
         | |- context [if ?c then _ else _] => destruct c
         end; discriminate.
Qed.

(** C2, as the code has it.  A run with paragraph style subheading, outside
    a blockquote and past the title span, lies in a block that is rendered
    as an [<h2>] element around the trimmed merged content, and that element
    is one of the parts of the output.  A run with paragraph style heading
    outside a blockquote has block type [h1], which the grouping loop skips:
    it is in no block and so is not rendered.  No block is rendered as
    [<h3>], because no run has that block type. *)
Theorem subheading_is_h2_heading_is_skipped (parsed_note : ParsedNote)
    (note_lookup : note_lookup_t) (slug : str) (run : StyleRun) :
  In run (style_runs parsed_note) ->
  is_blockquote run = false ->
  (paragraph_style run = VInt PARA_STYLE_SUBHEADING ->
   past_title (title_end_pos parsed_note) run = true ->
   exists b,
     In b (note_blocks parsed_note)
     /\ In run (b_runs b)
     /\ render_block b (full_text_of parsed_note) note_lookup slug
        = wrap (lit "h2")
            (strip (block_content (b_runs b) (full_text_of parsed_note)
                      note_lookup slug))
     /\ In (render_block b (full_text_of parsed_note) note_lookup slug)
          (html_parts parsed_note note_lookup slug)
     /\ convert_note_to_html parsed_note note_lookup slug
        = join (nl ++ nl) (html_parts parsed_note note_lookup slug))
  /\ (paragraph_style run = VInt PARA_STYLE_HEADING ->
      forall b, In b (note_blocks parsed_note) -> ~ In run (b_runs b))
  /\ (forall b, In b (note_blocks parsed_note) -> b_type b <> "h3"%string).
Proof.
  intros Hin Hbq.
  pose proof (note_blocks_typed parsed_note) as Hty.
  rewrite Forall_forall in Hty.
  repeat split.
  - intros Hps Hpast.
    assert (Hbt : get_block_type run = "h2"%string).
    { unfold get_block_type. now rewrite Hbq, Hps. }
    assert (Hk : In run (all_block_runs (note_blocks parsed_note))).
    { rewrite note_blocks_runs. apply filter_In. split; [exact Hin|].
      unfold kept. rewrite Hpast.
      unfold is_title_style. now rewrite Hbt. }
    unfold all_block_runs in Hk. apply in_concat in Hk as (rs & Hrs & Hrun).
    apply in_map_iff in Hrs as (b & <- & Hb).
    destruct (Hty b Hb) as (Hne & Hall & _).
    rewrite Forall_forall in Hall. specialize (Hall run Hrun).
    assert (Hr : render_block b (full_text_of parsed_note) note_lookup slug
                 = wrap (lit "h2")
                     (strip (block_content (b_runs b)
                               (full_text_of parsed_note) note_lookup slug))).
    { unfold render_block. rewrite <- Hall, Hbt.
      destruct (b_runs b); [congruence | reflexivity]. }
    exists b. repeat split; try assumption.
    + unfold html_parts. apply filter_In. split.
      * apply in_map_iff. now exists b.
      * rewrite Hr. reflexivity.
    + unfold convert_note_to_html.
      destruct (style_runs parsed_note); [contradiction | reflexivity].
  - intros Hps b Hb Hrun.
    destruct (Hty b Hb) as (_ & Hall & Hh1).
    rewrite Forall_forall in Hall. specialize (Hall run Hrun).
    apply Hh1. rewrite <- Hall. unfold get_block_type.
    now rewrite Hbq, Hps.
  - intros b Hb Hh3.
    destruct (Hty b Hb) as (Hne & Hall & _).
    destruct (b_runs b) as [|r rs]; [congruence|].
    inversion Hall as [|? ? Hr _]; subst.
    apply (get_block_type_not_h3 r). congruence.
Qed.

End Rendering.

(** The rendering examples of the specification, on the model. *)
Example escape_once :
  escape_html (lit "<b>&</b>") = lit "&lt;b&gt;&amp;&lt;/b&gt;".
Proof. vm_compute. reflexivity. Qed.

Example bold_world_paragraph :
  convert_note_to_html (H := ascii_runtime) bold_world_note [] []
  = lit "<p><strong>World</strong></p>".
Proof. vm_compute. reflexivity. Qed.

Example bullet_list_items :
  convert_note_to_html (H := ascii_runtime) bullet_note [] []
  = lit "<ul>" ++ nl ++ lit "<li>one</li>" ++ nl ++ lit "<li>two</li>" ++ nl
    ++ lit "<li>three</li>" ++ nl ++ lit "</ul>".
Proof. vm_compute. reflexivity. Qed.

Lemma subheading_is_h2_heading_is_skipped_witness :
  exists b,
    In b (note_blocks sample_note)
    /\ In subheading_run (b_runs b)
    /\ render_block (H := ascii_runtime) b (full_text_of sample_note) [] []
       = wrap (lit "h2")
           (strip (block_content (H := ascii_runtime) (b_runs b)
                     (full_text_of sample_note) [] []))
    /\ In (render_block (H := ascii_runtime) b (full_text_of sample_note) [] [])
         (html_parts (H := ascii_runtime) sample_note [] [])
    /\ convert_note_to_html (H := ascii_runtime) sample_note [] []
       = join (nl ++ nl) (html_parts (H := ascii_runtime) sample_note [] []).
Proof.
  apply (proj1 (@subheading_is_h2_heading_is_skipped ascii_runtime
                  sample_note [] [] subheading_run
                  (or_intror (or_intror (or_introl eq_refl))) eq_refl));
    reflexivity.
Defined.

(** C2 as the specification words it fails on [sample_note]: the output
    has no element for the heading line, and the subheading line is an
    [<h2>] element, not an [<h3>] one. *)
Lemma heading_not_rendered_counterexample :
  In heading_run (style_runs sample_note)
  /\ In subheading_run (style_runs sample_note)
  /\ html_parts (H := ascii_runtime) sample_note [] []
     = [lit "<h2>Sub</h2>"]
  /\ convert_note_to_html (H := ascii_runtime) sample_note [] []
     = lit "<h2>Sub</h2>".
Proof.
  repeat split; try (vm_compute; reflexivity); simpl; tauto.
Qed.

(** ** Decompression failures *)

Section Decompression.

Context {rt : Runtime}.

(** What [parse_note_content] recovers from: a record that [gzip] rejects
    with [BadGzipFile] gives the empty note. *)
Lemma parse_note_content_bad_gzip (compressed_data : bytes) :
  gzip_decompress compressed_data = Raise BadGzipFile ->
  parse_note_content compressed_data = Ok (empty_note compressed_data).
Proof. unfold parse_note_content. now intros ->. Qed.

Lemma parse_note_content_propagates (compressed_data : bytes) (e : exn) :
  gzip_decompress compressed_data = Raise e ->
  e <> BadGzipFile ->
  parse_note_content compressed_data = Raise e.
Proof.
  unfold parse_note_content. intros -> He. destruct e; congruence.
Qed.

(** C6 fails on the two magic bytes of gzip with nothing after them: the
    header is incomplete, [gzip.decompress] raises [EOFError], which the
    [except gzip.BadGzipFile] clause does not catch, and
    [parse_note_content] raises instead of returning the empty note. *)
Theorem truncated_gzip_header_raises :
  parse_note_content [x1f; x8b] = Raise EOFError
  /\ parse_note_content [x1f; x8b] <> Ok (empty_note [x1f; x8b]).
Proof. split; [reflexivity | discriminate]. Qed.

End Decompression.

(** ** Templates *)

Section Templates.

Lemma startswith_app (p s : str) : startswith p (p ++ s) = true.
Proof.
  induction p as [|c p IH]; simpl; [reflexivity|].
  now rewrite Z.eqb_refl, IH.
Qed.

Lemma replace_go_skip (old new : str) (k : nat) :
  forall s, replace_go old new s k = replace_go old new (skipn k s) 0.
Proof.
  induction k as [|k IH]; intros s; [reflexivity|].
  destruct s as [|c s]; [reflexivity|]. simpl. apply IH.
Qed.

(** An occurrence at the head is replaced and the scan resumes after it:
    the inserted text is not scanned. *)
Lemma replace_go_head (old new s : str) :
  old <> [] ->
  replace_go old new (old ++ s) 0 = new ++ replace_go old new s 0.
Proof.
  destruct old as [|c old]; [congruence|]. intros _.
  rewrite <- app_comm_cons. cbn [replace_go].
  rewrite app_comm_cons, startswith_app. f_equal.
  rewrite replace_go_skip. simpl. rewrite Nat.sub_0_r.
  rewrite skipn_app, skipn_all, Nat.sub_diag. reflexivity.
Qed.

(** No occurrence starts in a text that lacks the first character of
    [old]. *)
Lemma replace_go_before (c : Z) (old new pre s : str) :
  ~ In c pre ->
  replace_go (c :: old) new (pre ++ s) 0
  = pre ++ replace_go (c :: old) new s 0.
Proof.
  induction pre as [|x pre IH]; intros Hpre; [reflexivity|].
  rewrite <- !app_comm_cons. cbn [replace_go startswith].
  destruct (Z.eqb_spec c x) as [->|_]; [exfalso; apply Hpre; now left|].
  simpl. f_equal. apply IH. intros Hin. apply Hpre. now right.
Qed.

Lemma replace_go_absent (c : Z) (old new s : str) :
  ~ In c s -> replace_go (c :: old) new s 0 = s.
Proof.
  intros Hs. rewrite <- (app_nil_r s) at 1.
  rewrite replace_go_before by exact Hs. simpl. now rewrite app_nil_r.
Qed.

Lemma token_cons (key : str) :
  token key = lbrace :: lbrace :: key ++ lit "}}".
Proof. reflexivity. Qed.

Lemma replace_token (key value s : str) :
  replace (token key) value s = replace_go (token key) value s 0.
Proof. reflexivity. Qed.

Lemma replace_token_head (key value s : str) :
  replace (token key) value (token key ++ s)
  = value ++ replace (token key) value s.
Proof.
  rewrite !replace_token. apply replace_go_head. discriminate.
Qed.

Lemma render_template_app (variables variables' : dict str str) :
  forall template,
    render_template template (variables ++ variables')
    = render_template (render_template template variables) variables'.
Proof.
  induction variables as [|[key value] variables IH]; intros template;
    [reflexivity|].
  simpl. apply IH.
Qed.

(** C8, as the code has it.  [render_template] makes one replacement pass
    per variable, in the order of the mapping, each over the result of the
    passes before it.  A pass is a single scan that does not look into the
    text it inserts (third part: a lone token whose value has the shape of
    the token itself comes out as that value).  Token-shaped text that a
    value brings in is nevertheless substituted by the passes of the
    variables that come later (second part), and only the value of the last
    variable is never scanned (first part). *)
Theorem render_template_is_sequential :
  (forall (template : str) (variables : dict str str) (key value : str),
      render_template template (variables ++ [(key, value)])
      = replace (token key) value (render_template template variables))
  /\ (forall (key value : str) (variables : dict str str),
      render_template (token key) ((key, value) :: variables)
      = render_template value variables)
  /\ (forall key value pre post : str,
      ~ In lbrace pre -> ~ In lbrace post ->
      render_template (pre ++ token key ++ post) [(key, value)]
      = pre ++ value ++ post)
  /\ PublishSimplePy.render_template = PublishPy.render_template.
Proof.
  repeat split.
  - intros template variables key value.
    now rewrite render_template_app.
  - intros key value variables. cbn [render_template].
    rewrite <- (app_nil_r (token key)) at 2.
    rewrite replace_token_head, replace_token. cbn [replace_go].
    now rewrite app_nil_r.
  - intros key value pre post Hpre Hpost. cbn [render_template].
    rewrite replace_token, token_cons, replace_go_before by exact Hpre.
    rewrite <- token_cons, replace_go_head by discriminate.
    rewrite token_cons, replace_go_absent by exact Hpost. reflexivity.
Qed.

End Templates.

Lemma render_template_is_sequential_witness :
  render_template (lit "x" ++ token (lit "a") ++ lit "y")
    [(lit "a", token (lit "a"))]
  = lit "x" ++ token (lit "a") ++ lit "y".
Proof.
  apply (proj1 (proj2 (proj2 render_template_is_sequential))
           (lit "a") (token (lit "a")) (lit "x") (lit "y")).
  - vm_compute. intros [H | []]. discriminate H.
  - vm_compute. intros [H | []]. discriminate H.
Defined.

(** C8 as the specification words it fails when the value of [a] is the
    token of the later variable [b]: that token, which was not in the
    template, is substituted. *)
Lemma render_template_rescans_counterexample :
  render_template (lit "{{a}}") [(lit "a", lit "{{b}}"); (lit "b", lit "x")]
  = lit "x"
  /\ render_template (lit "{{a}}") [(lit "a", lit "{{b}}"); (lit "b", lit "x")]
     <> lit "{{b}}".
Proof. split; vm_compute; [reflexivity | discriminate]. Qed.

(** ** The index page and the feed *)

Section RecentPosts.

Context {rt : Runtime}.

Local Open Scope Z_scope.

Lemma insert_desc_perm (p : post) (l : list post) :
  Permutation (p :: l) (insert_desc p l).
Proof.
  induction l as [|q l IH]; simpl; [reflexivity|].
  destruct (p_creationDate q <=? p_creationDate p); [reflexivity|].
  rewrite perm_swap. now constructor.
Qed.

Lemma sorted_desc_perm (posts : list post) :
  Permutation posts (sorted_desc posts).
Proof.
  induction posts as [|p posts IH]; simpl; [reflexivity|].
  rewrite <- insert_desc_perm. now constructor.
Qed.

Lemma insert_desc_sorted (p : post) (l : list post) :
  StronglySorted newer_or_equal l ->
  StronglySorted newer_or_equal (insert_desc p l).
Proof.
  induction 1 as [|q l Hl IH Hq]; simpl.
  - constructor; constructor.
  - destruct (Z.leb_spec (p_creationDate q) (p_creationDate p)) as [Hle|Hlt].
    + constructor; [now constructor|].
      constructor; [exact Hle|].
      rewrite Forall_forall in Hq |- *. intros x Hx.
      specialize (Hq x Hx). unfold newer_or_equal in *. lia.
    + constructor; [exact IH|].
      rewrite Forall_forall in Hq |- *. intros x Hx.
      apply (Permutation_in _ (Permutation_sym (insert_desc_perm p l))) in Hx.
      destruct Hx as [<-|Hx]; [unfold newer_or_equal; lia | now apply Hq].
Qed.

Lemma sorted_desc_sorted (posts : list post) :
  StronglySorted newer_or_equal (sorted_desc posts).
Proof.
  induction posts as [|p posts IH]; simpl; [constructor|].
  now apply insert_desc_sorted.
Qed.

Lemma strongly_sorted_app (a b : list post) :
  StronglySorted newer_or_equal (a ++ b) ->
  StronglySorted newer_or_equal a
  /\ forall x y, In x a -> In y b -> newer_or_equal x y.
Proof.
  induction a as [|q a IH]; simpl; intros H.
  - split; [constructor | contradiction].
  - inversion H as [|? ? Hs Hq]; subst.
    destruct (IH Hs) as [Ha Hab].
    rewrite Forall_forall in Hq. split.
    + constructor; [exact Ha|]. rewrite Forall_forall.
      intros x Hx. apply Hq, in_or_app. now left.
    + intros x y [<-|Hx] Hy; [|now apply Hab].
      apply Hq, in_or_app. now right.
Qed.

(** C9.  The index page and the feed list the same posts: the 30 most
    recent ones, or all of them when there are fewer, in descending order of
    creation date; no post that is left out is more recent than a listed
    one. *)
Theorem index_and_feed_list_most_recent (posts : list post)
    (site_url index_template : str) :
  (List.length (listed_posts posts) <= 30)%nat
  /\ List.length (listed_posts posts) = Nat.min 30 (List.length posts)
  /\ StronglySorted newer_or_equal (listed_posts posts)
  /\ (exists left_out,
        Permutation posts (listed_posts posts ++ left_out)
        /\ forall a b,
             In a (listed_posts posts) -> In b left_out -> newer_or_equal a b)
  /\ generate_rss_items posts site_url
     = join nl (map (rss_item site_url) (listed_posts posts))
  /\ index_html posts index_template
     = render_template index_template
         [(lit "articles",
           join nl (map p_articleSnippet (listed_posts posts)))]
  /\ PublishSimplePy.generate_rss_items posts site_url
     = generate_rss_items posts site_url
  /\ PublishSimplePy.index_html posts index_template
     = index_html posts index_template.
Proof.
  unfold listed_posts.
  pose proof (sorted_desc_sorted posts) as Hs.
  rewrite <- (firstn_skipn 30 (sorted_desc posts)) in Hs.
  apply strongly_sorted_app in Hs as [Hfirst Hrest].
  repeat split; try reflexivity.
  - apply firstn_le_length.
  - rewrite length_firstn.
    now rewrite <- (Permutation_length (sorted_desc_perm posts)).
  - exact Hfirst.
  - exists (skipn 30 (sorted_desc posts)). split; [|exact Hrest].
    rewrite firstn_skipn. apply sorted_desc_perm.
Qed.

End RecentPosts.

(** ** The note lookup table *)

Lemma str_eqb_eq (a b : str) : str_eqb a b = true <-> a = b.
Proof.
  revert b. induction a as [|x a IH]; intros [|y b]; simpl;
    try (split; [discriminate | congruence]); [tauto|].
  rewrite andb_true_iff, Z.eqb_eq, IH.
  split; [intros [-> ->]; reflexivity | intros E; inversion E; tauto].
Qed.

Lemma str_eqb_refl (a : str) : str_eqb a a = true.
Proof. now apply str_eqb_eq. Qed.

Lemma str_eqb_neq (a b : str) : str_eqb a b = false <-> a <> b.
Proof.
  rewrite <- str_eqb_eq. destruct (str_eqb a b); split; congruence.
Qed.

Lemma find_over_app {A : Type} (f : A -> bool) (l l' : list A) :
  find f (l ++ l')
  = match find f l with
    | Some x => Some x
    | None => find f l'
    end.
Proof.
  induction l as [|x l IH]; simpl; [reflexivity|].
  now destruct (f x).
Qed.

Lemma find_nowhere {A : Type} (f : A -> bool) (l : list A) :
  (forall x, In x l -> f x = false) -> find f l = None.
Proof.
  induction l as [|x l IH]; simpl; intros H; [reflexivity|].
  rewrite (H x) by now left. apply IH. intros y Hy. apply H. now right.
Qed.

Section DictFacts.

Variables (K V N : Type) (eqb : K -> K -> bool).
Hypothesis eqb_eq : forall a b, eqb a b = true <-> a = b.

Lemma eqb_dec (a b : K) : {a = b} + {a <> b}.
Proof.
  destruct (eqb a b) eqn:E; [left; now apply eqb_eq|].
  right. intros H. apply eqb_eq in H. congruence.
Qed.

Lemma dict_set_keys (d : dict K V) (k : K) (v : V) :
  dict_keys (dict_set eqb d k v) = dict_keys d /\ In k (dict_keys d)
  \/ dict_keys (dict_set eqb d k v) = dict_keys d ++ [k]
     /\ ~ In k (dict_keys d).
Proof.
  induction d as [|[k' v'] d IH]; simpl.
  - right. split; [reflexivity | tauto].
  - destruct (eqb k k') eqn:E; simpl.
    + left. apply eqb_eq in E. subst. split; [reflexivity | now left].
    + assert (k' <> k) by (intros ->; rewrite (proj2 (eqb_eq k k)) in E;
                           congruence).
      destruct IH as [[-> Hin] | [-> Hin]]; [left | right];
        (split; [reflexivity | tauto]).
Qed.

Lemma dict_set_nodup (d : dict K V) (k : K) (v : V) :
  NoDup (dict_keys d) -> NoDup (dict_keys (dict_set eqb d k v)).
Proof.
  intros Hd. destruct (dict_set_keys d k v) as [[-> _] | [-> Hin]];
    [exact Hd|].
  apply NoDup_app; [exact Hd | repeat constructor; simpl; tauto|].
  intros x Hx [<- | []]. contradiction.
Qed.

Lemma dict_get_set (d : dict K V) (k k' : K) (v : V) :
  dict_get eqb (dict_set eqb d k v) k'
  = if eqb k' k then Some v else dict_get eqb d k'.
Proof.
  induction d as [|[k0 v0] d IH]; simpl; [reflexivity|].
  destruct (eqb k k0) eqn:E; simpl.
  - apply eqb_eq in E. subst k0. now destruct (eqb k' k).
  - rewrite IH. destruct (eqb k' k0) eqn:E'; [|reflexivity].
    apply eqb_eq in E'. subst k0.
    destruct (eqb k' k) eqn:E''; [|reflexivity].
    apply eqb_eq in E''. subst k'.
    rewrite (proj2 (eqb_eq k k)) in E by reflexivity. discriminate.
Qed.

Lemma dict_get_in (d : dict K V) (k : K) (v : V) :
  NoDup (dict_keys d) -> In (k, v) d -> dict_get eqb d k = Some v.
Proof.
  induction d as [|[k0 v0] d IH]; simpl; [contradiction|].
  intros Hd [E | Hin].
  - inversion E; subst. now rewrite (proj2 (eqb_eq k k)).
  - inversion Hd as [|? ? Hk0 Hd']; subst.
    destruct (eqb k k0) eqn:E; [|now apply IH].
    apply eqb_eq in E. subst k0. exfalso. apply Hk0.
    unfold dict_keys. now apply (in_map fst) in Hin.
Qed.

Variables (key : N -> K) (val : N -> V).

Let filled := dict_fill eqb key val.

Lemma filled_nodup (l : list N) :
  forall d, NoDup (dict_keys d) -> NoDup (dict_keys (filled l d)).
Proof.
  induction l as [|n l IH]; intros d Hd; [exact Hd|].
  simpl. apply IH. now apply dict_set_nodup.
Qed.

(** The last assignment to a key is the one that counts. *)
Lemma filled_get (l : list N) (k : K) :
  forall d,
    dict_get eqb (filled l d) k
    = match find (fun n => eqb k (key n)) (rev l) with
      | Some n => Some (val n)
      | None => dict_get eqb d k
      end.
Proof.
  induction l as [|n l IH]; intros d; [reflexivity|].
  simpl. rewrite IH, find_over_app.
  destruct (find _ (rev l)); [reflexivity|].
  simpl. rewrite dict_get_set. now destruct (eqb k (key n)).
Qed.

Lemma find_last (before after : list N) (n : N) (k : K) :
  eqb k (key n) = true ->
  (forall m, In m after -> key m <> k) ->
  find (fun n => eqb k (key n)) (rev (before ++ n :: after)) = Some n.
Proof.
  intros Hn Hafter.
  rewrite rev_app_distr. simpl. rewrite <- app_assoc, find_over_app.
  assert (Hnone : find (fun n => eqb k (key n)) (rev after) = None).
  { apply find_nowhere. intros m Hm. apply in_rev in Hm.
    destruct (eqb k (key m)) eqn:E; [|reflexivity].
    apply eqb_eq in E. exfalso. now apply (Hafter m). }
  rewrite Hnone. simpl. now rewrite Hn.
Qed.

End DictFacts.

Import PublishSimplePy.

Section NoteLookup.

Context {rt : Runtime}.

Lemma fill_note_lookup_filled (all_notes : list PublishPy.note) :
  forall d,
    PublishPy.fill_note_lookup all_notes d
    = dict_fill str_eqb n_title PublishPy.info_of_note all_notes d.
Proof.
  induction all_notes as [|n l IH]; intros d; [reflexivity | apply IH].
Qed.

Lemma simple_fill_note_lookup_filled (notes : list PublishSimplePy.note) :
  forall d,
    PublishSimplePy.fill_note_lookup notes d
    = dict_fill str_eqb name PublishSimplePy.info_of_note notes d.
Proof.
  induction notes as [|n l IH]; intros d; [reflexivity | apply IH].
Qed.

Lemma main_note_lookup_get (all_notes : list PublishPy.note) (t : str) :
  dict_get str_eqb (main_note_lookup all_notes) t
  = option_map PublishPy.info_of_note (last_titled all_notes t).
Proof.
  unfold main_note_lookup, last_titled.
  rewrite fill_note_lookup_filled, filled_get by apply str_eqb_eq.
  now destruct (find _ _).
Qed.

Lemma main_note_lookup_nodup (all_notes : list PublishPy.note) :
  NoDup (dict_keys (main_note_lookup all_notes)).
Proof.
  unfold main_note_lookup. rewrite fill_note_lookup_filled.
  apply filled_nodup; [apply str_eqb_eq | constructor].
Qed.

Lemma build_note_lookup_get (notes : list PublishSimplePy.note) (t : str) :
  dict_get str_eqb (build_note_lookup notes) t
  = option_map PublishSimplePy.info_of_note (last_named notes t).
Proof.
  unfold build_note_lookup, last_named.
  rewrite simple_fill_note_lookup_filled, filled_get by apply str_eqb_eq.
  now destruct (find _ _).
Qed.

Lemma build_note_lookup_nodup (notes : list PublishSimplePy.note) :
  NoDup (dict_keys (build_note_lookup notes)).
Proof.
  unfold build_note_lookup. rewrite simple_fill_note_lookup_filled.
  apply filled_nodup; [apply str_eqb_eq | constructor].
Qed.

(** The slug that an identifier resolves to is the slug of an entry of the
    table. *)
Lemma find_target_slug_in (items : PublishPy.note_lookup_t) (note_id s : str) :
  find_target_slug items note_id = Some s ->
  exists t info,
    In (t, info) items
    /\ lower (identifier info) = note_id
    /\ s = PublishPy.slug info.
Proof.
  induction items as [|[t info] items IH]; simpl; [discriminate|].
  destruct (str_eqb (lower (identifier info)) note_id) eqn:E.
  - intros H. inversion H; subst. apply str_eqb_eq in E.
    exists t, info. repeat split; [now left | exact E].
  - intros H. destruct (IH H) as (t' & info' & Hin & Hid & Hs).
    exists t', info'. repeat split; [now right | exact Hid | exact Hs].
Qed.

(** C10.  The lookup table is keyed by title.  When two notes of the batch
    have the same title and the second is the last note with that title,
    the table has one entry for the title and it is the entry of the second
    note.  In [publish.py] an identifier therefore resolves only to the slug
    of a note that is the last one of its title; in [publish-simple.py],
    where an entry has no identifier, a wiki link to the title resolves to
    the slug of the second note. *)
Theorem note_lookup_keeps_last_note_of_title :
  (forall (before between after : list PublishPy.note)
          (n1 n2 : PublishPy.note),
      n_title n1 = n_title n2 ->
      (forall n, In n after -> n_title n <> n_title n2) ->
      let all_notes := before ++ n1 :: between ++ n2 :: after in
      let table := main_note_lookup all_notes in
      NoDup (dict_keys table)
      /\ dict_get str_eqb table (n_title n1) = Some (PublishPy.info_of_note n2)
      /\ (forall info,
             In (n_title n1, info) table -> info = PublishPy.info_of_note n2)
      /\ (forall note_id s,
             find_target_slug table note_id = Some s ->
             exists n,
               last_titled all_notes (n_title n) = Some n
               /\ lower (n_identifier n) = note_id
               /\ s = PublishPy.generate_slug (n_title n)
                        (n_creation_date n)))
  /\ (forall (before between after : list PublishSimplePy.note)
             (n1 n2 : PublishSimplePy.note),
      name n1 = name n2 ->
      (forall n, In n after -> name n <> name n2) ->
      let notes := before ++ n1 :: between ++ n2 :: after in
      let table := build_note_lookup notes in
      NoDup (dict_keys table)
      /\ dict_get str_eqb table (name n1)
         = Some (PublishSimplePy.info_of_note n2)
      /\ (forall info,
             In (name n1, info) table
             -> info = PublishSimplePy.info_of_note n2)
      /\ replace_link table (name n1)
         = anchor
             (lit "/"
              ++ PublishSimplePy.generate_slug (name n2) (creationDate n2)
              ++ lit ".html")
             (name n1)).
Proof.
  split.
  - intros before between after n1 n2 Ht Hafter all_notes table.
    assert (Hlast : last_titled all_notes (n_title n1) = Some n2).
    { unfold last_titled, all_notes.
      replace (before ++ n1 :: between ++ n2 :: after)
        with ((before ++ n1 :: between) ++ n2 :: after)
        by (now rewrite <- app_assoc).
      rewrite Ht.
      apply find_last; [apply str_eqb_eq | apply str_eqb_refl | exact Hafter]. }
    assert (Hget : dict_get str_eqb table (n_title n1)
                   = Some (PublishPy.info_of_note n2)).
    { unfold table. now rewrite main_note_lookup_get, Hlast. }
    pose proof (main_note_lookup_nodup all_notes) as Hnd.
    repeat split; try assumption.
    + intros info Hin.
      apply (@dict_get_in _ _ _ str_eqb_eq _ _ _ Hnd) in Hin.
      fold table in Hin. congruence.
    + intros note_id s Hs.
      apply find_target_slug_in in Hs as (t & info & Hin & Hid & ->).
      apply (@dict_get_in _ _ _ str_eqb_eq _ _ _ Hnd) in Hin.
      rewrite main_note_lookup_get in Hin.
      destruct (last_titled all_notes t) as [n|] eqn:En; [|discriminate].
      simpl in Hin. inversion Hin; subst info; clear Hin.
      assert (Hn : n_title n = t).
      { unfold last_titled in En. apply find_some in En as [_ E].
        apply str_eqb_eq in E. congruence. }
      exists n. split; [now rewrite Hn|].
      split; [exact Hid | reflexivity].
  - intros before between after n1 n2 Ht Hafter notes table.
    assert (Hlast : last_named notes (name n1) = Some n2).
    { unfold last_named, notes.
      replace (before ++ n1 :: between ++ n2 :: after)
        with ((before ++ n1 :: between) ++ n2 :: after)
        by (now rewrite <- app_assoc).
      rewrite Ht.
      apply find_last; [apply str_eqb_eq | apply str_eqb_refl | exact Hafter]. }
    assert (Hget : dict_get str_eqb table (name n1)
                   = Some (PublishSimplePy.info_of_note n2)).
    { unfold table. now rewrite build_note_lookup_get, Hlast. }
    pose proof (build_note_lookup_nodup notes) as Hnd.
    repeat split; try assumption.
    + intros info Hin.
      apply (@dict_get_in _ _ _ str_eqb_eq _ _ _ Hnd) in Hin.
      fold table in Hin. congruence.
    + unfold replace_link. now rewrite Hget.
Qed.

End NoteLookup.

Lemma note_lookup_keeps_last_note_of_title_witness :
  dict_get str_eqb
    (main_note_lookup (H := ascii_runtime)
       [first_sample_note; second_sample_note])
    (lit "T")
  = Some (PublishPy.info_of_note (H := ascii_runtime) second_sample_note).
Proof.
  apply (proj1 (proj2 (proj1 (@note_lookup_keeps_last_note_of_title
                                ascii_runtime)
                         [] [] [] first_sample_note second_sample_note
                         eq_refl
                         (fun n (H : In n []) => match H with end)))).
Defined.

(** ** Footnotes *)

Section Footnotes.

Context {rt : Runtime}.

Lemma insert_asc_perm (item : Z * str) (l : list (Z * str)) :
  Permutation (item :: l) (insert_asc item l).
Proof.
  induction l as [|m l IH]; simpl; [reflexivity|].
  destruct (fst item <=? fst m)%Z; [reflexivity|].
  rewrite perm_swap. now constructor.
Qed.

Lemma insertion_sort_perm (keyed : list (Z * str)) :
  Permutation keyed (fold_right insert_asc [] keyed).
Proof.
  induction keyed as [|item keyed IH]; simpl; [reflexivity|].
  rewrite <- insert_asc_perm. now constructor.
Qed.

Lemma insert_asc_sorted (item : Z * str) (l : list (Z * str)) :
  StronglySorted (fun a b => fst a <= fst b)%Z l ->
  StronglySorted (fun a b => fst a <= fst b)%Z (insert_asc item l).
Proof.
  induction 1 as [|m l Hl IH Hm]; simpl.
  - constructor; constructor.
  - destruct (Z.leb_spec (fst item) (fst m)) as [Hle|Hlt].
    + constructor; [now constructor|].
      constructor; [exact Hle|].
      rewrite Forall_forall in Hm |- *. intros x Hx.
      specialize (Hm x Hx). simpl in *. lia.
    + constructor; [exact IH|].
      rewrite Forall_forall in Hm |- *. intros x Hx.
      apply (Permutation_in _ (Permutation_sym (insert_asc_perm item l)))
        in Hx.
      destruct Hx as [<-|Hx]; [simpl; lia | now apply Hm].
Qed.

Lemma insertion_sort_sorted (keyed : list (Z * str)) :
  StronglySorted (fun a b => fst a <= fst b)%Z
    (fold_right insert_asc [] keyed).
Proof.
  induction keyed as [|item keyed IH]; simpl; [constructor|].
  now apply insert_asc_sorted.
Qed.

(** The keys are computed when every string is within the limit, and the
    call raises [ValueError] otherwise. *)
Lemma int_keys_within (nums : list str) :
  forallb within_digit_limit nums = true ->
  int_keys nums = Ok (map (fun num => (int_value num, num)) nums).
Proof.
  induction nums as [|num nums IH]; intros H; [reflexivity|].
  simpl in H. apply andb_prop in H as [Hnum Hnums].
  cbn [int_keys map]. unfold py_int. now rewrite Hnum, IH.
Qed.

Lemma int_keys_over (nums : list str) :
  forallb within_digit_limit nums = false ->
  int_keys nums = Raise ValueError.
Proof.
  induction nums as [|num nums IH]; intros H; [discriminate|].
  simpl in H. cbn [int_keys]. unfold py_int.
  destruct (within_digit_limit num); [|reflexivity].
  simpl in H. now rewrite IH.
Qed.

Lemma sorted_by_key (l : list (Z * str)) :
  Forall (fun item => fst item = int_value (snd item)) l ->
  StronglySorted (fun a b => fst a <= fst b)%Z l ->
  StronglySorted id_le (map snd l).
Proof.
  intros Hkeys. induction 1 as [|m l Hl IH Hm]; simpl; [constructor|].
  inversion Hkeys as [|? ? Hk Hkeys']; subst.
  constructor; [now apply IH|].
  rewrite Forall_forall in *. intros x Hx.
  apply in_map_iff in Hx as (item & <- & Hitem).
  unfold id_le. rewrite <- Hk, <- (Hkeys' item Hitem). now apply Hm.
Qed.

Lemma sorted_keys_within (nums : list str) :
  forallb within_digit_limit nums = true ->
  exists sorted,
    sorted_keys nums = Ok sorted
    /\ Permutation nums sorted
    /\ StronglySorted id_le sorted.
Proof.
  intros H. unfold sorted_keys. rewrite (int_keys_within _ H).
  eexists. split; [reflexivity|].
  pose proof (insertion_sort_perm (map (fun num => (int_value num, num)) nums))
    as Hperm.
  split.
  - apply (Permutation_map snd) in Hperm.
    rewrite map_map in Hperm. simpl in Hperm. now rewrite map_id in Hperm.
  - apply sorted_by_key; [|apply insertion_sort_sorted].
    apply (Permutation_Forall Hperm), Forall_forall.
    intros item Hitem. apply in_map_iff in Hitem as (num & <- & _).
    reflexivity.
Qed.

Lemma sorted_keys_over (nums : list str) :
  forallb within_digit_limit nums = false ->
  sorted_keys nums = Raise ValueError.
Proof.
  intros H. unfold sorted_keys. now rewrite (int_keys_over _ H).
Qed.

(** A string of at most 640 digits is within every limit. *)
Lemma within_digit_limit_short (num : str) :
  (len num <= 640)%Z -> within_digit_limit num = true.
Proof.
  intros Hlen. unfold within_digit_limit.
  destruct int_max_str_digits_threshold as [-> | Hlimit]; [reflexivity|].
  apply orb_true_iff. right. apply Z.leb_le. lia.
Qed.

Lemma sub_definitions_nodup (s : str) :
  forall (at_bol : bool) (skip : nat) (definitions : dict str str),
    NoDup (dict_keys definitions) ->
    NoDup (dict_keys (snd (sub_definitions s at_bol skip definitions))).
Proof.
  induction s as [|c s IH]; intros at_bol skip definitions Hd; [exact Hd|].
  cbn [sub_definitions]. destruct skip as [|k]; [|now apply IH].
  destruct (if at_bol then match_definition (c :: s) else None)
    as [[[num text] n]|].
  - apply IH. apply dict_set_nodup; [apply str_eqb_eq | exact Hd].
  - specialize (IH (c =? newline)%Z 0%nat definitions Hd).
    now destruct (sub_definitions s (c =? newline)%Z 0 definitions).
Qed.

Lemma found_definitions_nodup (html : str) :
  NoDup (dict_keys (found_definitions html)).
Proof. apply sub_definitions_nodup. constructor. Qed.

Lemma process_footnotes_footer (html slug : str) :
  exists content,
    PublishSimplePy.process_footnotes html slug
    = match build_footer slug (found_definitions html) with
      | Ok footer => Ok (content, footer)
      | Raise e => Raise e
      end.
Proof.
  unfold PublishSimplePy.process_footnotes, found_definitions.
  destruct (sub_definitions html true 0 []) as [content definitions].
  now eexists.
Qed.

Lemma span_all {A : Type} (p : A -> bool) (a b : list A) :
  forallb p a = true ->
  match b with
  | [] => True
  | x :: _ => p x = false
  end ->
  span p (a ++ b) = (a, b).
Proof.
  induction a as [|x a IH]; simpl; intros Ha Hb.
  - destruct b as [|y b]; simpl; [reflexivity | now rewrite Hb].
  - apply andb_prop in Ha as [-> Ha]. now rewrite IH.
Qed.

Lemma is_digit_ascii (c : Z) :
  (0 <= c < 128)%Z -> is_digit c = true -> (48 <= c <= 57)%Z.
Proof.
  intros Hc. unfold is_digit. rewrite decimal_ascii by exact Hc.
  unfold ascii_decimal.
  destruct (Z.leb_spec 48 c), (Z.leb_spec c 57); simpl;
    try discriminate. lia.
Qed.

Lemma digits_exclude (c : Z) (num : str) :
  (0 <= c < 48)%Z \/ (57 < c < 128)%Z ->
  forallb is_digit num = true -> ~ In c num.
Proof.
  intros Hc Hnum Hin.
  rewrite forallb_forall in Hnum. specialize (Hnum c Hin).
  apply is_digit_ascii in Hnum; lia.
Qed.

Lemma is_digit_rbracket : is_digit rbracket = false.
Proof.
  destruct (is_digit rbracket) eqn:E; [|reflexivity].
  apply is_digit_ascii in E; unfold rbracket in *; lia.
Qed.

Lemma reference_then_length (num rest : str) :
  List.length (reference_then num rest)
  = (3 + List.length num + List.length rest)%nat.
Proof.
  unfold reference_then. simpl. rewrite length_app. simpl. lia.
Qed.

Lemma skipn_past {A : Type} (a b : list A) (k : nat) :
  skipn (List.length a + k) (a ++ b) = skipn k b.
Proof. induction a as [|x a IH]; simpl; [reflexivity | exact IH]. Qed.

Lemma skipn_reference (num rest : str) :
  skipn (3 + List.length num) (reference_then num rest) = rest.
Proof.
  unfold reference_then.
  replace (3 + List.length num)%nat
    with (List.length [lbracket; 94%Z] + (List.length num + 1))%nat
    by (simpl; lia).
  change (lbracket :: 94%Z :: num ++ rbracket :: rest)
    with ([lbracket; 94%Z] ++ num ++ rbracket :: rest).
  now rewrite !skipn_past.
Qed.

Lemma match_reference_found (num rest : str) :
  num <> [] ->
  forallb is_digit num = true ->
  match_reference (reference_then num rest)
  = Some (num, (3 + List.length num)%nat).
Proof.
  intros Hne Hnum. unfold match_reference, reference_then.
  change (startswith (lit "[^") (lbracket :: 94%Z :: num ++ rbracket :: rest))
    with true.
  cbn [skipn].
  rewrite (span_all is_digit num (rbracket :: rest) Hnum is_digit_rbracket).
  destruct num; [congruence | reflexivity].
Qed.

Lemma match_reference_other (c : Z) (s : str) :
  c <> lbracket -> match_reference (c :: s) = None.
Proof.
  intros Hc. unfold match_reference.
  change (startswith (lit "[^") (c :: s))
    with ((lbracket =? c)%Z && startswith [94%Z] s).
  destruct (Z.eqb_spec lbracket c); [congruence | reflexivity].
Qed.

Lemma reference_then_app (num a b : str) :
  reference_then num (a ++ b) = reference_then num a ++ b.
Proof.
  unfold reference_then. simpl. now rewrite <- app_assoc.
Qed.

Lemma paired_footnote_shape (pre num post text : str) :
  paired_footnote pre num post text
  = pre ++ reference_then num post
    ++ nl ++ reference_then num (colon_space text).
Proof.
  unfold paired_footnote, reference_then, colon_space, nl. simpl.
  rewrite <- !app_assoc. simpl. reflexivity.
Qed.

Lemma forallb_not_char (c : Z) (s : str) :
  ~ In c s -> forallb (not_char c) s = true.
Proof.
  intros Hs. apply forallb_forall. intros x Hx. unfold not_char.
  destruct (Z.eqb_spec x c); [subst; contradiction | reflexivity].
Qed.

(** The definition line is matched whole. *)
Lemma match_definition_found (num text : str) :
  num <> [] ->
  forallb is_digit num = true ->
  starts_plain text = true ->
  ~ In newline text ->
  match_definition (reference_then num (colon_space text))
  = Some (num, text,
          List.length (reference_then num (colon_space text))).
Proof.
  intros Hne Hnum Hplain Hnl. unfold match_definition.
  rewrite (match_reference_found _ Hne Hnum), skipn_reference.
  unfold colon_space.
  change (startswith (lit ":") (58%Z :: 32%Z :: text)) with true.
  cbn [skipn].
  assert (Hws : whitespace_split (32%Z :: text) = Some 1%nat).
  { destruct text as [|c t]; [discriminate|]. simpl in Hplain.
    apply negb_true_iff in Hplain.
    cbn [whitespace_split]. rewrite Hplain.
    change (isspace 32) with true. reflexivity. }
  rewrite Hws. cbn [skipn].
  assert (Hspan : span (not_char newline) text = (text, [])).
  { rewrite <- (app_nil_r text) at 1.
    exact (span_all _ text [] (forallb_not_char _ _ Hnl) I). }
  rewrite Hspan. cbn [fst].
  rewrite reference_then_length. simpl List.length.
  do 2 f_equal. lia.
Qed.

Lemma sub_definitions_skip_all (s : str) :
  forall (at_bol : bool) (skip : nat) (definitions : dict str str),
    (List.length s <= skip)%nat ->
    sub_definitions s at_bol skip definitions = ([], definitions).
Proof.
  induction s as [|c s IH]; intros at_bol skip definitions Hk;
    [reflexivity|].
  simpl in Hk. destruct skip as [|k]; [lia|].
  cbn [sub_definitions]. apply IH. lia.
Qed.

Lemma match_definition_other (c : Z) (s : str) :
  c <> lbracket -> match_definition (c :: s) = None.
Proof.
  intros Hc. unfold match_definition.
  now rewrite match_reference_other.
Qed.

(** A character that starts no definition is copied. *)
Lemma sub_definitions_copy (c : Z) (s : str) (at_bol : bool)
    (definitions : dict str str) :
  at_bol = false \/ c <> lbracket ->
  sub_definitions (c :: s) at_bol 0 definitions
  = (c :: fst (sub_definitions s (c =? newline)%Z 0 definitions),
     snd (sub_definitions s (c =? newline)%Z 0 definitions)).
Proof.
  intros Hc. cbn [sub_definitions].
  assert (E : (if at_bol then match_definition (c :: s) else None) = None).
  { destruct at_bol; [|reflexivity].
    destruct Hc as [Hc | Hc]; [discriminate|].
    now apply match_definition_other. }
  rewrite E. now destruct (sub_definitions s (c =? newline)%Z 0 definitions).
Qed.

Lemma sub_definitions_taken (c : Z) (s num text : str) (n : nat)
    (definitions : dict str str) :
  match_definition (c :: s) = Some (num, text, n) ->
  sub_definitions (c :: s) true 0 definitions
  = sub_definitions s (c =? newline)%Z (Nat.pred n)
      (dict_set str_eqb definitions num (strip text)).
Proof. intros E. cbn [sub_definitions]. now rewrite E. Qed.

(** Inside a line no definition starts. *)
Lemma sub_definitions_line (p : str) :
  ~ In newline p ->
  forall (s : str) (definitions : dict str str),
    sub_definitions (p ++ s) false 0 definitions
    = (p ++ fst (sub_definitions s false 0 definitions),
       snd (sub_definitions s false 0 definitions)).
Proof.
  induction p as [|c p IH]; intros Hp s definitions.
  - simpl. now destruct (sub_definitions s false 0 definitions).
  - rewrite <- app_comm_cons, sub_definitions_copy by now left.
    destruct (Z.eqb_spec c newline) as [->|_];
      [exfalso; apply Hp; now left|].
    rewrite IH by (intros Hin; apply Hp; now right). reflexivity.
Qed.

Lemma reference_then_no_newline (num rest : str) :
  forallb is_digit num = true ->
  ~ In newline rest ->
  ~ In newline (reference_then num rest).
Proof.
  intros Hnum Hrest. unfold reference_then, lbracket, rbracket, newline.
  intros [H | [H | H]]; try discriminate.
  apply in_app_or in H as [H | [H | H]].
  - revert H. apply digits_exclude; [lia | exact Hnum].
  - discriminate.
  - now apply Hrest.
Qed.

(** The first pass over the paired text: the definition line is taken out
    and recorded, the line with the reference is left as it is. *)
Lemma sub_definitions_paired (pre num post text : str) :
  pre <> [] -> ~ In lbracket pre -> ~ In newline pre ->
  num <> [] -> forallb is_digit num = true ->
  ~ In newline post ->
  starts_plain text = true -> ~ In newline text ->
  sub_definitions (paired_footnote pre num post text) true 0 []
  = (pre ++ reference_then num post ++ nl, [(num, strip text)]).
Proof.
  intros Hpre Hpre_b Hpre_n Hne Hnum Hpost Hplain Htext.
  rewrite paired_footnote_shape.
  destruct pre as [|c pre]; [congruence|].
  rewrite <- app_comm_cons, sub_definitions_copy
    by (right; intros ->; apply Hpre_b; now left).
  destruct (Z.eqb_spec c newline) as [->|_];
    [exfalso; apply Hpre_n; now left|].
  rewrite app_assoc, sub_definitions_line.
  2:{ intros Hin. apply in_app_or in Hin as [Hin | Hin].
      - apply Hpre_n. now right.
      - revert Hin. now apply reference_then_no_newline. }
  assert (Hdef : sub_definitions (reference_then num (colon_space text))
                   true 0 []
                 = ([], [(num, strip text)])).
  { pose proof (@match_definition_found num text Hne Hnum Hplain Htext)
      as Hm.
    unfold reference_then at 1 in Hm.
    unfold reference_then at 1.
    rewrite (@sub_definitions_taken _ _ _ _ _ [] Hm).
    rewrite sub_definitions_skip_all; [reflexivity|].
    rewrite reference_then_length. simpl. rewrite length_app. simpl. lia. }
  assert (Hrest : sub_definitions
                    (nl ++ reference_then num (colon_space text)) false 0 []
                  = (nl, [(num, strip text)])).
  { change (nl ++ reference_then num (colon_space text))
      with (newline :: reference_then num (colon_space text)).
    rewrite sub_definitions_copy by now left.
    change (newline =? newline)%Z with true.
    now rewrite Hdef. }
  rewrite Hrest. cbn [fst snd].
  now rewrite <- app_assoc.
Qed.

Lemma sub_references_skip (slug : str) (k : nat) :
  forall s, sub_references slug s k = sub_references slug (skipn k s) 0.
Proof.
  induction k as [|k IH]; intros s; [reflexivity|].
  destruct s as [|c s]; [reflexivity|]. simpl. apply IH.
Qed.

Lemma sub_references_plain (slug p s : str) :
  ~ In lbracket p ->
  sub_references slug (p ++ s) 0 = p ++ sub_references slug s 0.
Proof.
  induction p as [|c p IH]; intros Hp; [reflexivity|].
  rewrite <- !app_comm_cons. cbn [sub_references].
  rewrite match_reference_other by (intros ->; apply Hp; now left).
  f_equal. apply IH. intros Hin. apply Hp. now right.
Qed.

Lemma sub_references_taken (slug : str) (c : Z) (s num : str) (n : nat) :
  match_reference (c :: s) = Some (num, n) ->
  sub_references slug (c :: s) 0
  = replace_reference slug num ++ sub_references slug s (Nat.pred n).
Proof. intros E. cbn [sub_references]. now rewrite E. Qed.

(** A reference is replaced by its anchor and the scan resumes after it. *)
Lemma sub_references_found (slug num rest : str) :
  num <> [] ->
  forallb is_digit num = true ->
  sub_references slug (reference_then num rest) 0
  = replace_reference slug num ++ sub_references slug rest 0.
Proof.
  intros Hne Hnum.
  pose proof (match_reference_found rest Hne Hnum) as Hm.
  unfold reference_then in Hm |- *.
  rewrite (@sub_references_taken slug _ _ _ _ Hm). f_equal.
  rewrite sub_references_skip. f_equal.
  replace (Nat.pred (3 + List.length num))
    with (List.length [94%Z] + (List.length num + 1))%nat
    by (simpl; lia).
  change (94%Z :: num ++ rbracket :: rest)
    with ([94%Z] ++ num ++ rbracket :: rest).
  now rewrite !skipn_past.
Qed.

Lemma build_footer_single (slug num definition : str) :
  build_footer slug [(num, definition)]
  = if within_digit_limit num
    then Ok (footer_of [footer_line slug num definition])
    else Raise ValueError.
Proof.
  unfold build_footer, footer_item, dict_keys, sorted_keys, footer_of.
  cbn [map fst int_keys]. unfold py_int.
  destruct (within_digit_limit num); [|reflexivity].
  cbn [map fst snd fold_right insert_asc dict_get List.concat].
  now rewrite str_eqb_refl.
Qed.

(** A definition line is matched whole, also when more lines follow. *)
Lemma match_definition_line (num text tail : str) :
  num <> [] ->
  forallb is_digit num = true ->
  starts_plain text = true ->
  ~ In newline text ->
  match tail with
  | [] => True
  | c :: _ => c = newline
  end ->
  match_definition (reference_then num (colon_space text) ++ tail)
  = Some (num, text,
          List.length (reference_then num (colon_space text))).
Proof.
  intros Hne Hnum Hplain Hnl Htail.
  rewrite <- reference_then_app. unfold match_definition.
  rewrite (match_reference_found _ Hne Hnum), skipn_reference.
  unfold colon_space.
  change (startswith (lit ":") ((58%Z :: 32%Z :: text) ++ tail)) with true.
  cbn [skipn app].
  assert (Hws : whitespace_split (32%Z :: text ++ tail) = Some 1%nat).
  { destruct text as [|c t]; [discriminate|]. simpl in Hplain.
    apply negb_true_iff in Hplain.
    cbn [whitespace_split app]. rewrite Hplain.
    change (isspace 32) with true. reflexivity. }
  rewrite Hws. cbn [skipn].
  assert (Hspan : span (not_char newline) (text ++ tail) = (text, tail)).
  { apply span_all; [now apply forallb_not_char|].
    destruct tail as [|c tail]; [exact I|]. subst c. reflexivity. }
  rewrite Hspan. cbn [fst].
  rewrite reference_then_length. simpl List.length.
  do 2 f_equal. lia.
Qed.

(** The characters of a match are passed over; when they hold no newline,
    the position after them starts no line. *)
Lemma sub_definitions_passed (a : str) :
  a <> [] -> ~ In newline a ->
  forall (b : str) (at_bol : bool) (definitions : dict str str),
    sub_definitions (a ++ b) at_bol (List.length a) definitions
    = sub_definitions b false 0 definitions.
Proof.
  induction a as [|c a IH]; intros Hne Hnl b at_bol definitions;
    [congruence|].
  cbn [app List.length sub_definitions].
  destruct (Z.eqb_spec c newline) as [->|_];
    [exfalso; apply Hnl; now left|].
  destruct a as [|c' a]; [reflexivity|].
  apply IH; [discriminate | intros Hin; apply Hnl; now right].
Qed.

(** A definition line is taken out and recorded. *)
Lemma sub_definitions_of_line (definition : str * str) (tail : str)
    (definitions : dict str str) :
  is_definition definition ->
  match tail with
  | [] => True
  | c :: _ => c = newline
  end ->
  sub_definitions (definition_line definition ++ tail) true 0 definitions
  = sub_definitions tail false 0
      (dict_set str_eqb definitions (fst definition)
         (strip (snd definition))).
Proof.
  destruct definition as [num text]. intros (Hne & Hnum & Hplain & Hnl) Htail.
  cbn [fst snd] in *. unfold definition_line. cbn [fst snd].
  pose proof (@match_definition_line num text tail Hne Hnum Hplain Hnl Htail)
    as Hm.
  assert (Hline : ~ In newline (reference_then num (colon_space text))).
  { apply reference_then_no_newline; [exact Hnum|].
    unfold colon_space. intros [H | [H | H]]; try discriminate.
    now apply Hnl. }
  revert Hm Hline. rewrite reference_then_length.
  unfold reference_then at 1 2 3. cbn [app]. intros Hm Hline.
  rewrite (@sub_definitions_taken _ _ _ _ _ definitions Hm).
  change (lbracket =? newline)%Z with false.
  replace (Nat.pred
             (3 + List.length num + List.length (colon_space text)))
    with (List.length (94%Z :: num ++ rbracket :: colon_space text))
    by (simpl; rewrite length_app; simpl; lia).
  change (94%Z :: (num ++ rbracket :: colon_space text) ++ tail)
    with ((94%Z :: num ++ rbracket :: colon_space text) ++ tail).
  apply (@sub_definitions_passed (94%Z :: num ++ rbracket :: colon_space text));
    [discriminate|].
  intros Hin. apply Hline. now right.
Qed.

(** A text of definition lines: every line is recorded, in order, and the
    newlines between the lines are what is left. *)
Lemma sub_definitions_of_lines (defs : list (str * str)) :
  Forall is_definition defs ->
  forall definitions,
    sub_definitions (definition_lines defs) true 0 definitions
    = (repeat newline (Nat.pred (List.length defs)),
       dict_fill str_eqb fst (fun d => strip (snd d)) defs definitions).
Proof.
  induction 1 as [|d defs Hd _ IH]; intros definitions; [reflexivity|].
  unfold definition_lines. cbn [map join].
  destruct defs as [|d' defs].
  - cbn [map]. rewrite <- (app_nil_r (definition_line d)).
    now rewrite sub_definitions_of_line.
  - change (map definition_line (d' :: defs))
      with (definition_line d' :: map definition_line defs).
    cbv iota.
    change (join nl (definition_line d' :: map definition_line defs))
      with (definition_lines (d' :: defs)).
    change (nl ++ definition_lines (d' :: defs))
      with (newline :: definition_lines (d' :: defs)).
    rewrite sub_definitions_of_line; [|exact Hd | reflexivity].
    rewrite sub_definitions_copy by now left.
    change (newline =? newline)%Z with true.
    rewrite IH. reflexivity.
Qed.

Lemma dropwhile_all {A : Type} (p : A -> bool) (l : list A) :
  forallb p l = true -> dropwhile p l = [].
Proof.
  induction l as [|x l IH]; simpl; [reflexivity|].
  intros H. apply andb_prop in H as [-> H]. now apply IH.
Qed.

Lemma strip_newlines (k : nat) : strip (repeat newline k) = [].
Proof.
  unfold strip, lstrip_by, rstrip_by.
  rewrite (dropwhile_all isspace (repeat newline k)); [reflexivity|].
  induction k as [|k IH]; [reflexivity | exact IH].
Qed.

Lemma sub_references_newlines (slug : str) (k : nat) :
  sub_references slug (repeat newline k) 0 = repeat newline k.
Proof.
  rewrite <- (app_nil_r (repeat newline k)) at 1.
  rewrite sub_references_plain; [simpl; now rewrite app_nil_r|].
  intros Hin. apply repeat_spec in Hin. discriminate Hin.
Qed.

Lemma process_footnotes_of_lines (defs : list (str * str)) (slug : str) :
  Forall is_definition defs ->
  found_definitions (definition_lines defs)
  = dict_fill str_eqb fst (fun d => strip (snd d)) defs []
  /\ PublishSimplePy.process_footnotes (definition_lines defs) slug
     = match build_footer slug
               (dict_fill str_eqb fst (fun d => strip (snd d)) defs [])
       with
       | Ok footer => Ok ([], footer)
       | Raise e => Raise e
       end.
Proof.
  intros Hdefs.
  unfold found_definitions, PublishSimplePy.process_footnotes.
  rewrite (sub_definitions_of_lines Hdefs).
  split; [reflexivity|].
  now rewrite sub_references_newlines, strip_newlines.
Qed.

(** A greater number is not the same string. *)
Lemma int_value_differs (a b : str) :
  (int_value a < int_value b)%Z -> str_eqb a b = false.
Proof.
  intros H. destruct (str_eqb a b) eqn:E; [|reflexivity].
  apply str_eqb_eq in E. subst. lia.
Qed.

(** C4, as the code has it.  In [publish.py], [process_footnotes] passes
    the content through and its footer is always empty.  In
    [publish-simple.py], the footer is empty when no definition is found;
    when the ids found are within the limit on the digits of an integer
    string, the footer lists the definitions found, one item per id, in
    ascending numeric order of the ids whatever their order in the text,
    and when an id is beyond the limit [process_footnotes] raises
    [ValueError].  A reference [[^num]] in the flow of a line, paired with
    a definition line [[^num]: text], becomes a superscript anchor in the
    content and exactly one footer item, which holds the text and the
    back-link.  Every line of a text of definition lines is recorded, under
    its id and in the order of the lines, and nothing of the lines is left
    in the content; of two definitions of which the second has the smaller
    id, the second comes first in the footer. *)
Theorem footnotes_in_both_pipelines :
  (forall html slug : str,
      PublishPy.process_footnotes html slug = (html, []))
  /\ (forall html slug : str,
      let definitions := found_definitions html in
      NoDup (dict_keys definitions)
      /\ (definitions = [] ->
          exists content,
            PublishSimplePy.process_footnotes html slug = Ok (content, []))
      /\ (definitions <> [] ->
          forallb within_digit_limit (dict_keys definitions) = true ->
          exists content nums,
            PublishSimplePy.process_footnotes html slug
            = Ok (content,
                  footer_of (map (footer_item slug definitions) nums))
            /\ Permutation (dict_keys definitions) nums
            /\ NoDup nums
            /\ StronglySorted id_le nums)
      /\ (forallb within_digit_limit (dict_keys definitions) = false ->
          PublishSimplePy.process_footnotes html slug = Raise ValueError))
  /\ (forall pre num post text slug : str,
      pre <> [] -> ~ In lbracket pre -> ~ In newline pre ->
      num <> [] -> forallb is_digit num = true ->
      ~ In lbracket post -> ~ In newline post ->
      starts_plain text = true -> ~ In newline text ->
      PublishSimplePy.process_footnotes
        (paired_footnote pre num post text) slug
      = if within_digit_limit num
        then Ok (strip (pre ++ replace_reference slug num ++ post ++ nl),
                 footer_of [footer_line slug num (strip text)])
        else Raise ValueError)
  /\ (forall (defs : list (str * str)) (slug : str),
      Forall is_definition defs ->
      found_definitions (definition_lines defs)
      = dict_fill str_eqb fst (fun d => strip (snd d)) defs []
      /\ PublishSimplePy.process_footnotes (definition_lines defs) slug
         = match build_footer slug (found_definitions (definition_lines defs))
           with
           | Ok footer => Ok ([], footer)
           | Raise e => Raise e
           end)
  /\ (forall num1 text1 num2 text2 slug : str,
      is_definition (num1, text1) -> is_definition (num2, text2) ->
      (int_value num1 < int_value num2)%Z ->
      within_digit_limit num1 = true -> within_digit_limit num2 = true ->
      PublishSimplePy.process_footnotes
        (definition_lines [(num2, text2); (num1, text1)]) slug
      = Ok ([],
            footer_of [footer_line slug num1 (strip text1);
                       footer_line slug num2 (strip text2)])).
Proof.
  split; [reflexivity|]. split; [|split; [|split]].
  - intros html slug definitions.
    destruct (process_footnotes_footer html slug) as [content Hf].
    fold definitions in Hf.
    pose proof (found_definitions_nodup html) as Hnd. fold definitions in Hnd.
    split; [exact Hnd|]. split; [|split].
    + intros E. exists content. now rewrite Hf, E.
    + intros Hne Hlimit.
      destruct (sorted_keys_within _ Hlimit) as (nums & Hs & Hperm & Hsorted).
      exists content, nums. split; [|split; [|split]].
      * rewrite Hf. unfold build_footer, footer_of. rewrite Hs.
        destruct definitions; [congruence | reflexivity].
      * exact Hperm.
      * now apply (Permutation_NoDup Hperm).
      * exact Hsorted.
    + intros Hlimit. rewrite Hf. unfold build_footer.
      rewrite (sorted_keys_over _ Hlimit).
      destruct definitions; [discriminate Hlimit | reflexivity].
  - intros pre num post text slug Hpre Hpre_b Hpre_n Hne Hnum
      Hpost_b Hpost_n Hplain Htext.
    unfold PublishSimplePy.process_footnotes.
    rewrite sub_definitions_paired by assumption.
    rewrite build_footer_single.
    destruct (within_digit_limit num); [|reflexivity].
    do 2 f_equal.
    rewrite sub_references_plain by exact Hpre_b. do 2 f_equal.
    rewrite <- reference_then_app.
    rewrite sub_references_found by assumption. f_equal.
    rewrite <- (app_nil_r (post ++ nl)) at 1.
    rewrite sub_references_plain; [now rewrite app_nil_r|].
    intros Hin. apply in_app_or in Hin as [Hin | [Hin | []]];
      [now apply Hpost_b | discriminate Hin].
  - intros defs slug Hdefs.
    destruct (process_footnotes_of_lines slug Hdefs) as [Hfound Hrun].
    split; [exact Hfound | now rewrite Hfound].
  - intros num1 text1 num2 text2 slug H1 H2 Hlt Hl1 Hl2.
    assert (Hdefs : Forall is_definition [(num2, text2); (num1, text1)])
      by (constructor; [exact H2 | constructor; [exact H1 | constructor]]).
    destruct (process_footnotes_of_lines slug Hdefs) as [_ ->].
    pose proof (int_value_differs _ _ Hlt) as Hne.
    assert (Hne' : str_eqb num2 num1 = false).
    { destruct (str_eqb num2 num1) eqn:E; [|reflexivity].
      apply str_eqb_eq in E. subst.
      now rewrite str_eqb_refl in Hne. }
    cbn [dict_fill fold_left dict_set fst snd]. rewrite Hne.
    unfold build_footer, sorted_keys, dict_keys, footer_of.
    cbn [map fst int_keys]. unfold py_int. rewrite Hl1, Hl2.
    cbn [map fst snd fold_right insert_asc].
    destruct (Z.leb_spec (int_value num2) (int_value num1)); [lia|].
    cbn [map snd footer_item dict_get].
    unfold footer_item. cbn [dict_get].
    now rewrite Hne, !str_eqb_refl.
Qed.

End Footnotes.

Ltac absent :=
  let H := fresh in
  intros H; vm_compute in H;
  repeat (destruct H as [H | H]; [discriminate H|]); exact H.

Lemma footnotes_in_both_pipelines_witness :
  PublishSimplePy.process_footnotes (H := ascii_runtime)
    (paired_footnote (lit "See") (lit "1") (lit " here") (lit "Note text"))
    (lit "s")
  = Ok (strip (lit "See" ++ replace_reference (lit "s") (lit "1")
               ++ lit " here" ++ nl),
        footer_of [footer_line (lit "s") (lit "1") (strip (lit "Note text"))]).
Proof.
  apply (proj1 (proj2 (proj2 (@footnotes_in_both_pipelines ascii_runtime)))
           (lit "See") (lit "1") (lit " here") (lit "Note text") (lit "s")).
  - discriminate.
  - absent.
  - absent.
  - discriminate.
  - reflexivity.
  - absent.
  - absent.
  - reflexivity.
  - absent.
Defined.

(** C4 as the specification words it fails in [publish.py]: the text with
    the reference [[^1]] and the definition [[^1]: Note text] comes back
    unchanged, without anchor, and the footer is empty. *)
Lemma footnotes_untouched_counterexample :
  PublishPy.process_footnotes
    (paired_footnote (lit "See") (lit "1") (lit " here") (lit "Note text"))
    (lit "s")
  = (lit "See[^1] here" ++ nl ++ lit "[^1]: Note text", [])
  /\ Ok (PublishPy.process_footnotes
           (paired_footnote (lit "See") (lit "1") (lit " here")
              (lit "Note text"))
           (lit "s"))
     <> PublishSimplePy.process_footnotes (H := ascii_runtime)
          (paired_footnote (lit "See") (lit "1") (lit " here")
             (lit "Note text"))
          (lit "s").
Proof. split; vm_compute; [reflexivity | discriminate]. Qed.

(** * Further properties of the code *)

(** ** The wire decoder: values, composition, failures *)

Section WireValues.

Local Open Scope Z_scope.

Lemma low_group_disjoint (x v : Z) :
  Z.land (Z.land x 127) (Z.shiftl v 7) = 0.
Proof.
  apply Z.bits_inj'. intros n Hn.
  rewrite !Z.land_spec, Z.bits_0.
  destruct (Z.lt_ge_cases n 7).
  - rewrite Z.shiftl_spec_low by lia. now rewrite andb_false_r.
  - change 127 with (Z.ones 7). rewrite Z.ones_spec_high by lia.
    now rewrite andb_false_r.
Qed.

Lemma group_add_lor (x v : Z) :
  Z.land x 127 + 128 * v = Z.lor (Z.land x 127) (Z.shiftl v 7).
Proof.
  rewrite <- Z.lxor_lor by apply low_group_disjoint.
  rewrite <- Z.add_nocarry_lxor by apply low_group_disjoint.
  rewrite Z.shiftl_mul_pow2 by lia. change (2 ^ 7) with 128. lia.
Qed.

Lemma read_varint_loop_value (init : bytes) (last : byte) (rest : bytes) :
  forallb continues init = true ->
  continues last = false ->
  forall r s,
    0 <= s ->
    read_varint_loop (init ++ last :: rest) r s
    = Ok (Z.lor r (Z.shiftl (varint_value (init ++ [last])) s), rest).
Proof.
  intros Hinit Hlast. unfold continues in Hlast.
  apply negb_false_iff in Hlast.
  induction init as [|b init IH]; intros r s Hs.
  - cbn [app read_varint_loop varint_value]. rewrite Hlast.
    now rewrite Z.mul_0_r, Z.add_0_r.
  - cbn [forallb] in Hinit. apply andb_prop in Hinit as [Hb Hinit].
    unfold continues in Hb. apply negb_true_iff in Hb.
    cbn [app read_varint_loop varint_value]. rewrite Hb.
    rewrite (IH Hinit) by lia. do 2 f_equal.
    rewrite group_add_lor, Z.shiftl_lor, Z.shiftl_shiftl by lia.
    rewrite Z.lor_assoc. do 2 f_equal. lia.
Qed.

(** X1.  [read_varint] reads the bytes up to and including the first one
    without continuation bit, returns the number whose base-128 digits, least
    significant first, are the low seven bits of those bytes, and leaves the
    rest of the buffer unread. *)
Theorem read_varint_value (init : bytes) (last : byte) (rest : bytes) :
  forallb continues init = true ->
  continues last = false ->
  read_varint (init ++ last :: rest)
  = Ok (varint_value (init ++ [last]), rest).
Proof.
  intros Hinit Hlast. unfold read_varint.
  rewrite (@read_varint_loop_value init last rest Hinit Hlast) by lia.
  now rewrite Z.shiftl_0_r.
Qed.

Lemma read_varint_value_witness :
  read_varint ([xac] ++ x02 :: [xff]) = Ok (300, [xff]).
Proof.
  apply (read_varint_value [xac] x02 [xff]); reflexivity.
Defined.

End WireValues.

Section WireComposition.

Local Open Scope res_scope.

Lemma parse_all_loop_acc (fuel : nat) :
  forall (u : bytes) (acc : list field),
    parse_all_loop fuel u acc
    = match parse_all_loop fuel u [] with
      | Ok fields => Ok (acc ++ fields)
      | Raise e => Raise e
      end.
Proof.
  induction fuel as [|fuel IH]; intros u acc; simpl.
  - now rewrite app_nil_r.
  - destruct u as [|b u]; [now rewrite app_nil_r|].
    destruct (read_field (b :: u)) as [[[f|] rest]|e].
    + rewrite (IH rest (acc ++ [f])), (IH rest [f]).
      destruct (parse_all_loop fuel rest []); [|reflexivity].
      now rewrite <- app_assoc.
    + now rewrite app_nil_r.
    + destruct (is_value_error e); [now rewrite app_nil_r | reflexivity].
Qed.

(** X2.  Decoding composes: when a buffer starts with the encodings of
    complete fields, [parse_all] returns those fields followed by what it
    returns on the rest of the buffer. *)
Theorem parse_all_after_complete_fields (pre rest : bytes)
    (fs gs : list field) :
  complete_fields pre fs ->
  parse_all rest = Ok gs ->
  parse_all (pre ++ rest) = Ok (fs ++ gs).
Proof.
  intros Hpre Hrest. unfold parse_all in *.
  rewrite (parse_all_loop_complete Hpre) by lia.
  rewrite parse_all_loop_acc, Hrest. reflexivity.
Qed.

Lemma parse_all_after_complete_fields_witness :
  parse_all ([x08; x96; x01] ++ [x12; x02; x41; x42])
  = Ok ([(1, 0, VInt 150)] ++ [(2, 2, VBytes [x41; x42])])%Z.
Proof.
  apply (@parse_all_after_complete_fields [x08; x96; x01]
           [x12; x02; x41; x42]).
  - refine (@complete_cons [x08; x96; x01] [] _ _ _ _); [reflexivity|].
    exact complete_nil.
  - reflexivity.
Defined.

Lemma read_field_at_tag (tag rest : bytes) (tag_wire : Z) :
  read_varint tag = Ok (tag_wire, []) ->
  read_field (tag ++ rest) = read_field_body tag_wire rest.
Proof.
  intros Htag. destruct tag as [|b tag]; [discriminate|].
  rewrite <- app_comm_cons, read_field_cons.
  rewrite app_comm_cons, (read_varint_app _ rest Htag). reflexivity.
Qed.

Lemma read_field_unreadable (rest : bytes) :
  unreadable rest -> read_field rest = Raise ValueError.
Proof.
  intros [tag r tw Htag H0 H1 H2 H5 | tag r tw Htag Hwt Hlen
         | tag r tw Htag Hwt Hlen | tag size r tw n Htag Hwt Hsize Hlen];
    rewrite (read_field_at_tag _ _ Htag); unfold read_field_body.
  - apply Z.eqb_neq in H0, H1, H2, H5. now rewrite H0, H1, H2, H5.
  - rewrite Hwt. simpl. unfold read_bytes, len.
    destruct (Z.ltb_spec (Z.of_nat (List.length r)) 8); [reflexivity | lia].
  - rewrite Hwt. simpl. unfold read_bytes, len.
    destruct (Z.ltb_spec (Z.of_nat (List.length r)) 4); [reflexivity | lia].
  - rewrite Hwt. simpl. rewrite (read_varint_app _ r Hsize). simpl.
    unfold read_bytes.
    destruct (Z.ltb_spec (len r) n); [reflexivity | lia].
Qed.

(** X3.  A field that cannot be read ends the decoding without losing what
    was decoded: after complete fields, an unknown wire type, a fixed-width
    value cut short or a length-delimited value longer than what is left
    makes [parse_all] return exactly the complete fields. *)
Theorem parse_all_stops_at_unreadable_field (pre rest : bytes)
    (fs : list field) :
  complete_fields pre fs ->
  unreadable rest ->
  parse_all (pre ++ rest) = Ok fs.
Proof.
  intros Hpre Hrest. unfold parse_all.
  rewrite (parse_all_loop_complete Hpre) by lia.
  apply read_field_unreadable in Hrest.
  destruct rest as [|b rest]; [discriminate|].
  cbn [List.length parse_all_loop]. rewrite Hrest. reflexivity.
Qed.

Lemma parse_all_stops_at_unreadable_field_witness :
  parse_all ([x08; x96; x01] ++ [x12] ++ [x05] ++ [x41; x42])
  = Ok [(1, 0, VInt 150)]%Z.
Proof.
  apply (@parse_all_stops_at_unreadable_field [x08; x96; x01]
           ([x12] ++ [x05] ++ [x41; x42])).
  - refine (@complete_cons [x08; x96; x01] [] _ _ _ _); [reflexivity|].
    exact complete_nil.
  - refine (@short_payload [x12] [x05] [x41; x42] 18%Z 5%Z _ _ _ _);
      reflexivity.
Defined.

End WireComposition.

Section WireTyping.

Local Open Scope res_scope.
Local Open Scope Z_scope.

Lemma byte_val_bound (b : byte) : 0 <= byte_val b < 256.
Proof.
  unfold byte_val. pose proof (Byte.to_N_bounded b). lia.
Qed.

Lemma unpack_le_bound (b : bytes) :
  0 <= unpack_le b < 256 ^ Z.of_nat (List.length b).
Proof.
  induction b as [|x b IH]; cbn [unpack_le List.length].
  - simpl. lia.
  - rewrite Nat2Z.inj_succ, Z.pow_succ_r by lia.
    pose proof (byte_val_bound x). lia.
Qed.

Lemma read_bytes_length (n : Z) (u b rest : bytes) :
  0 <= n ->
  read_bytes n u = Ok (b, rest) -> List.length b = Z.to_nat n.
Proof.
  intros Hn. unfold read_bytes, len.
  destruct (Z.ltb_spec (Z.of_nat (List.length u)) n); [discriminate|].
  intros E; inversion E; subst. apply firstn_length_le. lia.
Qed.

Lemma read_field_body_typed (tag_wire : Z) (u rest : bytes) (f : field) :
  0 <= tag_wire ->
  read_field_body tag_wire u = Ok (Some f, rest) -> wire_typed f.
Proof.
  intros Htw. unfold read_field_body.
  assert (Hfn : 0 <= Z.shiftr tag_wire 3) by now apply Z.shiftr_nonneg.
  destruct (Z.eqb_spec (Z.land tag_wire 7) 0) as [E0|_].
  { destruct (read_varint u) as [[v r]|] eqn:E; simpl; [|discriminate].
    intros H; inversion H; subst. split; [exact Hfn|]. left.
    split; [exact E0 | eapply read_varint_nonneg; eauto]. }
  destruct (Z.eqb_spec (Z.land tag_wire 7) 1) as [E1|_].
  { destruct (read_bytes 8 u) as [[b r]|] eqn:E; simpl; [|discriminate].
    intros H; inversion H; subst. split; [exact Hfn|]. right. left.
    split; [exact E1|].
    apply read_bytes_length in E; [|lia].
    pose proof (unpack_le_bound b) as Hb. rewrite E in Hb.
    change (Z.of_nat (Z.to_nat 8)) with 8 in Hb.
    change (256 ^ 8) with (2 ^ 64) in Hb. exact Hb. }
  destruct (Z.eqb_spec (Z.land tag_wire 7) 2) as [E2|_].
  { destruct (read_varint u) as [[n r]|] eqn:E; simpl; [|discriminate].
    destruct (read_bytes n r) as [[b r']|] eqn:E'; simpl; [|discriminate].
    intros H; inversion H; subst. split; [exact Hfn | exact E2]. }
  destruct (Z.eqb_spec (Z.land tag_wire 7) 5) as [E5|_]; [|discriminate].
  destruct (read_bytes 4 u) as [[b r]|] eqn:E; simpl; [|discriminate].
  intros H; inversion H; subst. split; [exact Hfn|]. right. right.
  split; [exact E5|].
  apply read_bytes_length in E; [|lia].
  pose proof (unpack_le_bound b) as Hb. rewrite E in Hb.
  change (Z.of_nat (Z.to_nat 4)) with 4 in Hb.
  change (256 ^ 4) with (2 ^ 32) in Hb. exact Hb.
Qed.

Lemma read_field_typed (u rest : bytes) (f : field) :
  read_field u = Ok (Some f, rest) -> wire_typed f.
Proof.
  destruct u as [|b u]; [discriminate|].
  rewrite read_field_cons.
  destruct (read_varint (b :: u)) as [[tw r]|] eqn:E; simpl; [|discriminate].
  apply read_field_body_typed. eapply read_varint_nonneg; eauto.
Qed.

Lemma parse_all_loop_typed (fuel : nat) :
  forall (u : bytes) (acc fs : list field),
    Forall wire_typed acc ->
    parse_all_loop fuel u acc = Ok fs -> Forall wire_typed fs.
Proof.
  induction fuel as [|fuel IH]; intros u acc fs Hacc; simpl.
  - intros E; inversion E; subst; exact Hacc.
  - destruct u as [|b u]; [intros E; inversion E; subst; exact Hacc|].
    destruct (read_field (b :: u)) as [[[f|] rest]|e] eqn:E.
    + apply IH. apply Forall_app. split; [exact Hacc|].
      constructor; [|constructor]. eapply read_field_typed; eauto.
    + intros E'; inversion E'; subst; exact Hacc.
    + destruct (is_value_error e); [|discriminate].
      intros E'; inversion E'; subst; exact Hacc.
Qed.

Lemma parse_all_typed (data : bytes) :
  exists fields, parse_all data = Ok fields /\ Forall wire_typed fields.
Proof.
  destruct (parse_all_loop_returns (List.length data) data [])
    as [fields Hf].
  exists fields. split; [exact Hf|].
  eapply parse_all_loop_typed; [constructor | exact Hf].
Qed.

(** X4.  Whatever the buffer, [parse_all] returns, and every field it
    returns has a field number that is not negative and one of the wire
    types 0, 1, 2 and 5, with a value of that type: a [bytes] object exactly
    for wire type 2, an integer that is not negative for the others, below
    2^64 for the 64-bit type and below 2^32 for the 32-bit type. *)
Theorem parse_all_fields_are_typed (data : bytes) :
  exists fields, parse_all data = Ok fields /\ Forall wire_typed fields.
Proof.
  destruct (parse_all_loop_returns (List.length data) data [])
    as [fields Hf].
  exists fields. split; [exact Hf|].
  eapply parse_all_loop_typed; [constructor | exact Hf].
Qed.

Lemma tagged_bytes (fn : Z) (f : field) :
  wire_typed f -> tagged fn 2 f = true -> exists b, snd f = VBytes b.
Proof.
  destruct f as [[field_num wire_type] v]. simpl.
  intros [_ Hv] Ht. apply andb_prop in Ht as [_ Hwt].
  apply Z.eqb_eq in Hwt. subst wire_type.
  destruct v as [n|b]; [|now exists b].
  destruct Hv as [[H _] | [[H _] | [H _]]]; discriminate.
Qed.

Lemma parse_all_fields_typed (f : field) (fn : Z) :
  wire_typed f -> tagged fn 2 f = true ->
  exists fields,
    parse_all_fields (snd f) = Ok fields /\ Forall wire_typed fields.
Proof.
  intros Hf Ht. destruct (tagged_bytes _ _ Hf Ht) as [b ->].
  apply parse_all_typed.
Qed.

Lemma find_document_typed (root_fields : list field) :
  Forall wire_typed root_fields ->
  exists note_fields,
    find_document root_fields = Ok note_fields
    /\ Forall wire_typed note_fields.
Proof.
  induction 1 as [|f root_fields Hf _ IH]; simpl.
  - exists []. split; [reflexivity | constructor].
  - destruct (tagged 2 2 f) eqn:Et; [|exact IH].
    destruct (parse_all_fields_typed _ _ Hf Et) as (doc & -> & Hdoc).
    simpl. clear Et Hf.
    induction Hdoc as [|d doc Hd _ IHdoc]; simpl; [exact IH|].
    destruct (tagged 3 2 d) eqn:Ed; [|exact IHdoc].
    now apply (parse_all_fields_typed _ 3).
Qed.

Lemma push_raises (c : Z) (r : res str) (e : exn) :
  push c r = Raise e -> r = Raise e.
Proof. destruct r; simpl; congruence. Qed.

Lemma utf8_decode_raises_bounded (n : nat) :
  forall (b : bytes) (e : exn),
    (List.length b <= n)%nat ->
    utf8_decode b = Raise e -> e = UnicodeDecodeError.
Proof.
  induction n as [|n IH]; intros b e Hn.
  - destruct b; [discriminate | simpl in Hn; lia].
  - destruct b as [|x0 r0]; [discriminate|].
    cbn [utf8_decode].
    repeat match goal with
           | |- context [if ?c then _ else _] => destruct c
           | |- context [match ?l with [] => _ | _ :: _ => _ end] =>
               destruct l
           | |- Raise _ = Raise _ -> _ =>
               let H := fresh in intros H; inversion H; reflexivity
           | |- push _ _ = Raise _ -> _ =>
               let H := fresh in
               intros H; apply push_raises in H; revert H; apply IH;
               simpl in *; lia
           end.
Qed.

Lemma utf8_decode_raises (b : bytes) (e : exn) :
  utf8_decode b = Raise e -> e = UnicodeDecodeError.
Proof. apply (utf8_decode_raises_bounded (n := List.length b)). lia. Qed.

Lemma first_text_returns (note_fields : list field) :
  Forall wire_typed note_fields ->
  exists text, first_text note_fields = Ok text.
Proof.
  induction 1 as [|f note_fields Hf _ IH]; simpl; [now exists []|].
  destruct (tagged 2 2 f) eqn:Et; [|exact IH].
  destruct (tagged_bytes _ _ Hf Et) as [b ->]. simpl.
  destruct (utf8_decode b) as [s|e] eqn:E; [now exists s|].
  apply utf8_decode_raises in E. subst e. exact IH.
Qed.

Lemma get_note_content_fields_returns (data : bytes) :
  exists note_fields,
    get_note_content_fields data = Ok note_fields
    /\ Forall wire_typed note_fields.
Proof.
  unfold get_note_content_fields. simpl.
  destruct (parse_all_typed data) as (root & -> & Hroot). simpl.
  now apply find_document_typed.
Qed.

(** X5.  The navigation never raises: for every buffer
    [get_note_content_fields] returns a list of fields and
    [extract_main_text] returns a text.  When the root message has no
    length-delimited field 2, the list and the text are empty. *)
Theorem navigation_never_raises (data : bytes) :
  (exists note_fields text,
      get_note_content_fields data = Ok note_fields
      /\ Forall wire_typed note_fields
      /\ extract_main_text data = Ok text)
  /\ (forall root_fields,
         parse_all data = Ok root_fields ->
         forallb (fun f => negb (tagged 2 2 f)) root_fields = true ->
         get_note_content_fields data = Ok []
         /\ extract_main_text data = Ok []).
Proof.
  split.
  - destruct (get_note_content_fields_returns data) as (nf & Hget & Hnf).
    unfold extract_main_text. rewrite Hget. simpl.
    destruct (first_text_returns Hnf) as [text ->].
    exists nf, text. repeat split. exact Hnf.
  - intros root Hroot Hnone.
    unfold extract_main_text, get_note_content_fields. simpl.
    rewrite Hroot. simpl.
    assert (E : find_document root = Ok []).
    { clear Hroot. induction root as [|f root IH]; [reflexivity|].
      simpl in Hnone |- *. apply andb_prop in Hnone as [Hf Hnone].
      apply negb_true_iff in Hf. rewrite Hf. now apply IH. }
    now rewrite E.
Qed.

Lemma navigation_never_raises_witness :
  get_note_content_fields [x08; x01] = Ok []
  /\ extract_main_text [x08; x01] = Ok [].
Proof.
  apply (proj2 (navigation_never_raises [x08; x01]) [(1, 0, VInt 1)]%Z);
    reflexivity.
Defined.

End WireTyping.

(** ** Run extraction: shape of the runs, failures, note links *)

Section RunShape.

Local Open Scope res_scope.
Local Open Scope Z_scope.

Lemma slice_not_empty {A : Type} (s : list A) (pos n : Z) :
  0 <= pos < len s -> 0 < n -> slice s pos (pos + n) <> [].
Proof.
  intros Hpos Hn. unfold slice, slice_index, len in *.
  destruct (Z.ltb_spec pos 0); [lia|].
  destruct (Z.ltb_spec (pos + n) 0); [lia|].
  intros E. apply (f_equal (@List.length A)) in E.
  rewrite length_firstn, length_skipn in E. simpl in E. lia.
Qed.

Lemma extract_loop_shape (nf : list field) (txt : str) :
  forall (pos : Z) (runs : list StyleRun),
    0 <= pos ->
    extract_loop nf txt pos = Ok runs ->
    contiguous_from pos runs /\ Forall (run_in_text txt) runs.
Proof.
  induction nf as [|f nf IH]; intros pos runs Hpos; simpl.
  - intros E; inversion E; subst. split; [exact I | constructor].
  - destruct (tagged 5 2 f); [|now apply IH].
    destruct (parse_all_fields (snd f)) as [sfs|]; simpl; [|discriminate].
    destruct (read_style_fields sfs run_defaults) as [run|]; simpl;
      [|discriminate].
    destruct (r_length run) as [n|]; [|discriminate].
    destruct (Z.ltb_spec 0 n) as [Hn|_]; simpl; [|now apply IH].
    destruct (Z.ltb_spec pos (len txt)) as [Hlt|_]; [|now apply IH].
    destruct (extract_loop nf txt (pos + n)) as [rest|] eqn:E; simpl;
      [|discriminate].
    intros H; inversion H; subst; clear H.
    destruct (IH (pos + n) rest) as [Hc Hr]; [lia | exact E |].
    split.
    + simpl. split; [reflexivity | exact Hc].
    + constructor; [|exact Hr].
      unfold run_in_text. simpl. repeat split; try lia.
      apply slice_not_empty; lia.
Qed.

(** X6.  The runs that [extract_style_runs] returns follow one another from
    position 0 without gap or overlap, each has a positive length and starts
    inside the text, and the text of each is the part of the text that it
    spans, cut at the end of the text and never empty. *)
Theorem extracted_runs_are_contiguous (data : bytes) (txt : str)
    (runs : list StyleRun) :
  extract_style_runs data txt = Ok runs ->
  contiguous_from 0 runs /\ Forall (run_in_text txt) runs.
Proof.
  unfold extract_style_runs.
  destruct (get_note_content_fields data) as [nf|]; simpl; [|discriminate].
  apply extract_loop_shape. lia.
Qed.

Lemma extracted_runs_are_contiguous_witness :
  exists runs,
    extract_style_runs sample_record (lit "T" ++ [newline] ++ lit "Body")
    = Ok runs
    /\ contiguous_from 0 runs
    /\ Forall (run_in_text (lit "T" ++ [newline] ++ lit "Body")) runs.
Proof.
  eexists. split; [vm_compute; reflexivity|].
  apply (@extracted_runs_are_contiguous sample_record).
  vm_compute. reflexivity.
Defined.





End RunShape.

Section NoteLinks.

Lemma split_go_single (c : Z) (s : str) :
  forall cur,
    ~ In c cur ->
    split_go [c] s 0 cur None <> []
    /\ Forall (fun p => ~ In c p /\ incl p (cur ++ s))
         (split_go [c] s 0 cur None).
Proof.
  induction s as [|x s IH]; intros cur Hcur.
  - simpl. split; [discriminate|].
    constructor; [|constructor]. split; [exact Hcur|].
    rewrite app_nil_r. apply incl_refl.
  - cbn [split_go may_split startswith andb List.length Nat.sub].
    destruct (Z.eqb_spec c x) as [<-|Hx]; simpl.
    + split; [discriminate|]. constructor.
      * split; [exact Hcur | apply incl_appl, incl_refl].
      * destruct (IH [] (fun H => H)) as [_ Hall].
        eapply Forall_impl; [|exact Hall]. simpl.
        intros p [Hp Hincl]. split; [exact Hp|].
        intros y Hy. apply in_or_app. right. right. now apply Hincl.
    + destruct (IH (cur ++ [x])) as [Hne Hall].
      { intros Hin. apply in_app_or in Hin as [Hin | [Hin | []]];
          [now apply Hcur | congruence]. }
      split; [exact Hne|].
      eapply Forall_impl; [|exact Hall]. simpl.
      intros p [Hp Hincl]. split; [exact Hp|].
      now rewrite <- app_assoc in Hincl.
Qed.

Lemma split_single (c : Z) (s : str) :
  split [c] s <> []
  /\ Forall (fun p => ~ In c p /\ incl p s) (split [c] s).
Proof. apply (split_go_single c s []). intros []. Qed.

Lemma last_in {A : Type} (l : list A) (d : A) : l <> [] -> In (last l d) l.
Proof.
  induction l as [|x l IH]; [congruence|]. intros _.
  destruct l as [|y l]; [now left|].
  right. apply IH. discriminate.
Qed.

Lemma hd_in {A : Type} (l : list A) (d : A) : l <> [] -> In (hd d l) l.
Proof. destruct l; [congruence | now left]. Qed.

(** The identifier that is cut out of a link has neither slash nor
    question mark. *)
Lemma link_note_id_clean (u : str) :
  let id := last_part (split (lit "/") (first_part (split (lit "?") u))) in
  ~ In slash id /\ ~ In question_mark id.
Proof.
  change (lit "/") with [slash]. change (lit "?") with [question_mark].
  destruct (split_single question_mark u) as [Hne Hall].
  pose proof (hd_in [] Hne) as Hhd.
  rewrite Forall_forall in Hall. destruct (Hall _ Hhd) as [Hq _].
  fold (first_part (split [question_mark] u)) in Hq.
  destruct (split_single slash (first_part (split [question_mark] u)))
    as [Hne' Hall'].
  pose proof (last_in [] Hne') as Hlast.
  rewrite Forall_forall in Hall'. destruct (Hall' _ Hlast) as [Hs Hincl].
  simpl. split; [exact Hs|].
  intros Hin. apply Hq. now apply Hincl.
Qed.

(** X8.  Every note link that [parse_note_content] collects comes from a
    run whose URL starts with [applenotes:note/]: it carries that URL and
    the text of the run, and its note identifier, the last path segment
    before the query, contains neither a slash nor a question mark. *)
Theorem note_links_come_from_internal_urls (runs : list StyleRun)
    (l : NoteLink) :
  In l (collect_note_links runs) ->
  (exists run,
      In run runs
      /\ link_url run = Some (url l)
      /\ link_text l = text run)
  /\ startswith applenotes_prefix (url l) = true
  /\ ~ In slash (note_id l)
  /\ ~ In question_mark (note_id l).
Proof.
  induction runs as [|run runs IH]; [contradiction|].
  cbn [collect_note_links In].
  assert (Hstep :
    In l (collect_note_links runs) ->
    (exists run0,
        (run = run0 \/ In run0 runs)
        /\ link_url run0 = Some (url l) /\ link_text l = text run0)
    /\ startswith applenotes_prefix (url l) = true
    /\ ~ In slash (note_id l) /\ ~ In question_mark (note_id l)).
  { intros H. destruct (IH H) as [(r & Hr & Hu & Ht) Hrest].
    split; [|exact Hrest]. exists r. repeat split; auto. }
  destruct (link_url run) as [u|] eqn:Eu; [|exact Hstep].
  destruct (link_has_url (Some u) && startswith applenotes_prefix u) eqn:E;
    [|exact Hstep].
  destruct (2 <=? len (split (lit "/") (first_part (split (lit "?") u))))%Z;
    [|exact Hstep].
  intros [<- | H]; [|now apply Hstep].
  apply andb_prop in E as [_ Hprefix]. simpl.
  destruct (link_note_id_clean u) as [Hs Hq].
  repeat split; try assumption.
  exists run. repeat split; [now left | exact Eu].
Qed.

Lemma note_links_come_from_internal_urls_witness :
  (exists run,
      In run [linking_run]
      /\ link_url run = Some (lit "applenotes:note/NOTE-1?ownerIdentifier=x")
      /\ lit "here" = text run)
  /\ startswith applenotes_prefix
       (lit "applenotes:note/NOTE-1?ownerIdentifier=x") = true
  /\ ~ In slash (lit "NOTE-1")
  /\ ~ In question_mark (lit "NOTE-1").
Proof.
  apply (@note_links_come_from_internal_urls [linking_run]
           {| url := lit "applenotes:note/NOTE-1?ownerIdentifier=x";
              note_id := lit "NOTE-1";
              link_text := lit "here" |}).
  left. reflexivity.
Defined.

End NoteLinks.

(** ** Escaping *)

Section Escaping.

Lemma replace_single (c : Z) (new s : str) :
  replace [c] new s
  = flat_map (fun x => if (c =? x)%Z then new else [x]) s.
Proof.
  unfold replace.
  induction s as [|x s IH]; [reflexivity|].
  cbn [replace_go startswith List.length Nat.sub flat_map andb].
  destruct (c =? x)%Z; simpl; now rewrite IH.
Qed.

Lemma replace_single_app (c : Z) (new a b : str) :
  replace [c] new (a ++ b) = replace [c] new a ++ replace [c] new b.
Proof. rewrite !replace_single. apply flat_map_app. Qed.

Lemma replace_single_in (c y : Z) (new s : str) :
  In y (replace [c] new s) -> In y new \/ (In y s /\ y <> c).
Proof.
  rewrite replace_single, in_flat_map. intros (x & Hx & Hy).
  destruct (Z.eqb_spec c x) as [->|Hc]; [now left|].
  destruct Hy as [<-|[]]. right. split; [exact Hx | congruence].
Qed.

(** X9.  [escape_html] leaves no [<] and no [>] in its result, leaves a
    text without [&], [<] and [>] as it is, and distributes over
    concatenation, so that escaping the parts of a text is escaping the
    text. *)
Theorem escape_html_removes_markup :
  (forall text, ~ In less_than (escape_html text)
                /\ ~ In greater_than (escape_html text))
  /\ (forall text,
         ~ In ampersand text -> ~ In less_than text ->
         ~ In greater_than text -> escape_html text = text)
  /\ (forall a b, escape_html (a ++ b) = escape_html a ++ escape_html b).
Proof.
  change (forall text, ~ In less_than (escape_html text)
                       /\ ~ In greater_than (escape_html text))
    with (forall text,
             ~ In less_than
                 (replace [greater_than] (lit "&gt;")
                    (replace [less_than] (lit "&lt;")
                       (replace [ampersand] (lit "&amp;") text)))
             /\ ~ In greater_than
                   (replace [greater_than] (lit "&gt;")
                      (replace [less_than] (lit "&lt;")
                         (replace [ampersand] (lit "&amp;") text)))).
  repeat split.
  - intros H. apply replace_single_in in H as [H | [H _]].
    + vm_compute in H. repeat (destruct H as [H | H]; [discriminate H|]).
      exact H.
    + apply replace_single_in in H as [H | [_ H]]; [|congruence].
      vm_compute in H. repeat (destruct H as [H | H]; [discriminate H|]).
      exact H.
  - intros H. apply replace_single_in in H as [H | [_ H]]; [|congruence].
    vm_compute in H. repeat (destruct H as [H | H]; [discriminate H|]).
    exact H.
  - intros text Ha Hl Hg. unfold escape_html.
    change (lit "&") with [ampersand]. change (lit "<") with [less_than].
    change (lit ">") with [greater_than].
    assert (Hid : forall c new s, ~ In c s -> replace [c] new s = s)
      by (intros; unfold replace; now apply replace_go_absent).
    rewrite (Hid ampersand) by exact Ha.
    rewrite (Hid less_than) by exact Hl.
    now rewrite (Hid greater_than) by exact Hg.
  - intros a b. unfold escape_html.
    change (lit "&") with [ampersand]. change (lit "<") with [less_than].
    change (lit ">") with [greater_than].
    now rewrite !replace_single_app.
Qed.

Lemma escape_html_removes_markup_witness :
  escape_html (lit "plain text") = lit "plain text".
Proof.
  apply (proj1 (proj2 escape_html_removes_markup) (lit "plain text"));
    absent.
Defined.

End Escaping.

(** ** Blocks and merged runs are maximal *)

Section Maximality.

Lemma adjacent_snoc {A : Type} (R : A -> A -> Prop) (l : list A) (a b : A) :
  adjacent R (l ++ [a]) -> R a b -> adjacent R ((l ++ [a]) ++ [b]).
Proof.
  induction l as [|x l IH]; simpl; intros Hl Hab; [tauto|].
  destruct l as [|y l]; simpl in *; [tauto|].
  destruct Hl as [Hxy Hl]. split; [exact Hxy | now apply IH].
Qed.

Lemma adjacent_last {A : Type} (R : A -> A -> Prop) (l : list A) (a a' : A) :
  (forall x, R x a -> R x a') ->
  adjacent R (l ++ [a]) -> adjacent R (l ++ [a']).
Proof.
  intros Ha. induction l as [|x l IH]; simpl; intros Hl; [exact I|].
  destruct l as [|y l]; simpl in *.
  - split; [apply Ha; tauto | exact I].
  - destruct Hl as [Hxy Hl]. split; [exact Hxy | now apply IH].
Qed.

Lemma group_runs_alternate (t : Z) (runs : list StyleRun) :
  forall (blocks : list block) (current_block : option block),
    adjacent other_type (blocks ++ open_block current_block) ->
    (forall b, current_block = Some b -> b_runs b <> []) ->
    (current_block = None -> blocks = []) ->
    adjacent other_type (group_runs t runs blocks current_block).
Proof.
  induction runs as [|run runs IH]; intros blocks cur Hadj Hne Hnone.
  - cbn [group_runs]. unfold close_block.
    destruct cur as [c|]; simpl in Hadj.
    + destruct (b_runs c) eqn:E; [now elim (Hne c eq_refl) | exact Hadj].
    + now rewrite app_nil_r in Hadj.
  - cbn [group_runs].
    destruct (start run + length run <=? t)%Z; [now apply IH|].
    destruct (String.eqb (get_block_type run) "h1"); [now apply IH|].
    destruct (starts_new_block _ _) eqn:E; apply IH.
    + unfold close_block. destruct cur as [c|]; simpl.
      * simpl in E. apply negb_true_iff, String.eqb_neq in E.
        destruct (b_runs c) eqn:Ec; [now elim (Hne c eq_refl)|].
        simpl. apply adjacent_snoc; [exact Hadj|].
        unfold other_type. simpl. congruence.
      * rewrite (Hnone eq_refl). exact I.
    + intros b Eb. inversion Eb; subst. discriminate.
    + discriminate.
    + destruct cur as [c|]; [|discriminate]. simpl in *.
      apply (adjacent_last _ blocks c); [|exact Hadj].
      intros x Hx. exact Hx.
    + destruct cur as [c|]; [|discriminate]. simpl.
      intros b Eb. inversion Eb; subst. simpl.
      destruct (b_runs c); discriminate.
    + destruct cur as [c|]; [discriminate | exact Hnone].
Qed.

(** X10.  The blocks of a note are maximal: two consecutive blocks never
    have the same type, every block has at least one run, and all the runs
    of a block have the type of the block. *)
Theorem consecutive_blocks_differ (parsed_note : ParsedNote) :
  adjacent other_type (note_blocks parsed_note)
  /\ Forall (fun b =>
               b_runs b <> []
               /\ Forall (fun run => get_block_type run = b_type b)
                    (b_runs b))
       (note_blocks parsed_note).
Proof.
  split.
  - apply group_runs_alternate; [exact I | discriminate | reflexivity].
  - pose proof (note_blocks_typed parsed_note) as H.
    eapply Forall_impl; [|exact H].
    intros b (Hne & Hall & _). now split.
Qed.

Lemma merge_loop_alternate (full_text : str) (all : list StyleRun)
    (runs : list StyleRun) :
  forall (merged : list merged_run) (current : option merged_run),
    incl runs all ->
    adjacent other_format (merged ++ open_merged current) ->
    Forall (keeps_key all) (merged ++ open_merged current) ->
    (current = None -> merged = []) ->
    let result := merge_loop runs full_text merged current in
    adjacent other_format result
    /\ Forall (keeps_key all) result
    /\ (List.length result
        <= List.length (merged ++ open_merged current) + List.length runs)%nat
    /\ (runs <> [] -> result <> []).
Proof.
  induction runs as [|run runs IH]; intros merged cur Hincl Hadj Hkeys Hnone.
  - cbn [merge_loop]. destruct cur as [c|]; simpl in *.
    + repeat split; [exact Hadj | exact Hkeys | lia | congruence].
    + rewrite app_nil_r in *.
      repeat split; [exact Hadj | exact Hkeys | lia | congruence].
  - assert (Hrun : In run all) by (apply Hincl; now left).
    assert (Hincl' : incl runs all)
      by (intros x Hx; apply Hincl; now right).
    cbn [merge_loop]. destruct cur as [c|].
    + destruct (format_key_eqb (get_run_format_key run) (m_format_key c))
        eqn:E.
      * destruct (IH merged (Some (add_text (run_slice full_text run) c)))
          as (H1 & H2 & H3 & H4); try assumption.
        { simpl in *. apply (adjacent_last _ merged c); [|exact Hadj].
          intros x Hx. exact Hx. }
        { simpl in *. apply Forall_app in Hkeys as [Hm Hc].
          apply Forall_app. split; [exact Hm|].
          inversion Hc; subst. constructor; [assumption | constructor]. }
        { discriminate. }
        split; [exact H1 | split; [exact H2 | split]].
        -- simpl in *. rewrite !length_app in *. simpl in *. lia.
        -- intros _. destruct runs as [|r rs]; [|apply H4; discriminate].
           simpl. destruct merged; discriminate.
      * destruct (IH (merged ++ [c])
                    (Some {| m_text := run_slice full_text run;
                             m_format_key := get_run_format_key run;
                             m_run := run |}))
          as (H1 & H2 & H3 & H4); try assumption.
        { simpl in *. apply adjacent_snoc; [exact Hadj | exact E]. }
        { simpl in *. apply Forall_app. split; [exact Hkeys|].
          constructor; [|constructor]. split; [reflexivity | exact Hrun]. }
        { discriminate. }
        split; [exact H1 | split; [exact H2 | split]].
        -- simpl in *. rewrite !length_app in *. simpl in *. lia.
        -- intros _. destruct runs as [|r rs]; [|apply H4; discriminate].
           simpl. destruct (merged ++ [c]) eqn:Em; [|discriminate].
           destruct merged; discriminate.
    + rewrite (Hnone eq_refl) in *. simpl in *.
      destruct (IH [] (Some {| m_text := run_slice full_text run;
                               m_format_key := get_run_format_key run;
                               m_run := run |}))
        as (H1 & H2 & H3 & H4); try assumption.
      { simpl. constructor; [|constructor].
        split; [reflexivity | exact Hrun]. }
      { discriminate. }
      split; [exact H1 | split; [exact H2 | split]].
      * simpl in *. lia.
      * intros _. destruct runs as [|r rs]; [|apply H4; discriminate].
        discriminate.
Qed.

(** X11.  Merging is maximal and adds nothing: two consecutive merged runs
    never have the same format signature, every merged run carries the
    signature of its representative run, which is one of the input runs,
    there are at most as many merged runs as runs, and at least one when
    there is a run. *)
Theorem merged_runs_differ (runs : list StyleRun) (full_text : str) :
  let merged := merge_runs_for_rendering runs full_text in
  adjacent other_format merged
  /\ Forall (keeps_key runs) merged
  /\ (List.length merged <= List.length runs)%nat
  /\ (runs <> [] -> merged <> []).
Proof.
  unfold merge_runs_for_rendering. destruct runs as [|run runs].
  - simpl. repeat split; [constructor | lia | congruence].
  - apply (@merge_loop_alternate full_text (run :: runs) (run :: runs)
             [] None);
      [apply incl_refl | exact I | constructor | reflexivity].
Qed.

End Maximality.

(** ** Templates without tokens, and the characters of a slug *)

Section TemplatesAndSlugs.

Context {rt : Runtime}.

(** X12.  A template that contains no opening brace has no token: it is
    rendered as itself, whatever the variables are. *)
Theorem render_template_without_braces (template : str)
    (variables : dict str str) :
  ~ In lbrace template ->
  PublishPy.render_template template variables = template.
Proof.
  revert template.
  induction variables as [|[key value] variables IH]; intros template Ht;
    [reflexivity|].
  cbn [PublishPy.render_template].
  rewrite replace_token, token_cons, replace_go_absent by exact Ht.
  now apply IH.
Qed.

Lemma isspace_hyphen : isspace hyphen = false.
Proof. reflexivity. Qed.

Lemma slug_char_url_safe (c : Z) :
  slug_char c = true -> isspace c = false ->
  ((97 <= c <= 122) \/ (48 <= c <= 57))%Z.
Proof.
  unfold slug_char. intros H Hs. rewrite Hs, orb_false_r in H.
  apply orb_true_iff in H as [H|H]; apply andb_true_iff in H as [H1 H2];
    apply Z.leb_le in H1, H2; [left | right]; lia.
Qed.

Lemma hyphenate_shape (s : str) :
  Forall (fun c => slug_char c = true) s ->
  forall in_space : bool,
    Forall url_safe (hyphenate s in_space)
    /\ adjacent not_both_hyphens (hyphenate s in_space)
    /\ (in_space = true -> starts_without_hyphen (hyphenate s in_space)).
Proof.
  induction 1 as [|c s Hc Hs IH]; intros in_space.
  - simpl. repeat split; constructor.
  - cbn [hyphenate]. destruct (isspace c) eqn:Ec.
    + destruct (IH true) as (H1 & H2 & H3). destruct in_space.
      * repeat split; [exact H1 | exact H2 | intros _; now apply H3].
      * repeat split.
        -- constructor; [right; right; reflexivity | exact H1].
        -- specialize (H3 eq_refl). simpl.
           destruct (hyphenate s true) as [|x u]; [exact I|].
           split; [|exact H2]. intros [_ Hx]. now apply H3.
        -- discriminate.
    + destruct (IH false) as (H1 & H2 & _).
      pose proof (slug_char_url_safe c Hc Ec) as Hsafe.
      assert (Hne : c <> hyphen) by (unfold hyphen; lia).
      repeat split.
      * constructor; [|exact H1]. unfold url_safe. tauto.
      * simpl. destruct (hyphenate s false) as [|x u]; [exact I|].
        split; [|exact H2]. intros [Hx _]. now apply Hne.
      * intros _. exact Hne.
Qed.

(** X13.  A slug is the year, a slash, the month, a slash and the title
    part; the title part holds only lower-case ASCII letters, ASCII digits
    and hyphens, and never two hyphens in a row, whatever the title is and
    whatever the lower-casing of the runtime does. *)
Theorem slug_title_part_is_url_safe (title : str) (creation_date : datetime) :
  PublishPy.generate_slug title creation_date
  = strftime "%Y" creation_date ++ lit "/" ++ strftime "%m" creation_date
    ++ lit "/" ++ title_slug title
  /\ Forall url_safe (title_slug title)
  /\ adjacent not_both_hyphens (title_slug title).
Proof.
  split; [reflexivity|].
  assert (Hf : Forall (fun c => slug_char c = true)
                 (filter slug_char (lower title))).
  { apply Forall_forall. intros c Hc. now apply filter_In in Hc. }
  destruct (hyphenate_shape Hf false) as (H1 & H2 & _). now split.
Qed.

End TemplatesAndSlugs.

(** A page without braces, rendered with a variable. *)
Lemma render_template_without_braces_witness :
  ~ In PublishPy.lbrace (lit "<p>plain</p>")
  /\ PublishPy.render_template (lit "<p>plain</p>")
       [(lit "articles", lit "<li>a</li>")]
     = lit "<p>plain</p>".
Proof.
  split; [absent|].
  apply (render_template_without_braces (lit "<p>plain</p>")
           [(lit "articles", lit "<li>a</li>")]).
  absent.
Defined.

(** ** The order of the listed posts *)

Section StableOrder.

Local Open Scope Z_scope.

Lemma insert_desc_same_date (d : datetime) (p : post) (l : list post) :
  filter (same_date d) (insert_desc p l) = filter (same_date d) (p :: l).
Proof.
  induction l as [|q l IH]; [reflexivity|].
  cbn [insert_desc].
  destruct (Z.leb_spec (p_creationDate q) (p_creationDate p)) as [Hle|Hlt];
    [reflexivity|].
  cbn [filter] in *. rewrite IH. unfold same_date.
  destruct (Z.eqb_spec (p_creationDate p) d) as [Hp|Hp]; [|reflexivity].
  destruct (Z.eqb_spec (p_creationDate q) d) as [Hq|Hq]; [lia | reflexivity].
Qed.

(** X14.  The sort is stable: the posts of one creation date are listed in
    the order in which they were appended to [posts]. *)
Theorem posts_of_one_date_keep_their_order (posts : list post)
    (d : datetime) :
  filter (same_date d) (sorted_desc posts) = filter (same_date d) posts.
Proof.
  induction posts as [|p posts IH]; [reflexivity|].
  cbn [sorted_desc fold_right]. fold (sorted_desc posts).
  rewrite insert_desc_same_date. cbn [filter]. now rewrite IH.
Qed.

(** X15.  Nothing is left out of a small site: a site
    of at most 30 posts has all of them listed, each once. *)
Theorem few_posts_are_all_listed (posts : list post) :
  (List.length posts <= 30)%nat ->
  Permutation posts (listed_posts posts)
  /\ List.length (listed_posts posts) = List.length posts.
Proof.
  intros Hlen. unfold listed_posts.
  pose proof (sorted_desc_perm posts) as Hperm.
  rewrite firstn_all2
    by (rewrite <- (Permutation_length Hperm); exact Hlen).
  split; [exact Hperm | symmetry; now apply Permutation_length].
Qed.

End StableOrder.

(** Two posts, the older one first. *)
Lemma few_posts_are_all_listed_witness :
  (List.length [dated_post (lit "a") 1%Z; dated_post (lit "b") 2%Z] <= 30)%nat
  /\ Permutation [dated_post (lit "a") 1%Z; dated_post (lit "b") 2%Z]
       (listed_posts [dated_post (lit "a") 1%Z; dated_post (lit "b") 2%Z])
  /\ List.length
       (listed_posts [dated_post (lit "a") 1%Z; dated_post (lit "b") 2%Z])
     = List.length [dated_post (lit "a") 1%Z; dated_post (lit "b") 2%Z].
Proof.
  split; [simpl; lia|].
  apply (few_posts_are_all_listed
           [dated_post (lit "a") 1%Z; dated_post (lit "b") 2%Z]).
  simpl; lia.
Defined.

(** ** The keys of the lookup table and the resolution of wiki links *)

Section TableKeys.

Variables (K V N : Type) (eqb : K -> K -> bool).
Hypothesis eqb_eq : forall a b, eqb a b = true <-> a = b.

Lemma dict_set_in_keys (d : dict K V) (k : K) (v : V) (x : K) :
  In x (dict_keys (dict_set eqb d k v)) <-> x = k \/ In x (dict_keys d).
Proof.
  destruct (@dict_set_keys _ _ _ eqb_eq d k v) as [[-> Hin] | [-> Hin]].
  - split; [tauto|]. intros [-> | H]; assumption.
  - rewrite in_app_iff. simpl. split; [intros [H | [H | []]] | intros [H | H]];
      auto.
Qed.

Lemma dict_fill_in_keys (key : N -> K) (val : N -> V) (l : list N) (x : K) :
  forall d,
    In x (dict_keys (dict_fill eqb key val l d))
    <-> In x (dict_keys d) \/ In x (map key l).
Proof.
  induction l as [|n l IH]; intros d; [simpl; tauto|].
  change (dict_fill eqb key val (n :: l) d)
    with (dict_fill eqb key val l (dict_set eqb d (key n) (val n))).
  rewrite IH, dict_set_in_keys. simpl.
  split; [intros [[H | H] | H] | intros [H | [H | H]]]; auto.
Qed.

Lemma dict_get_absent (d : dict K V) (k : K) :
  ~ In k (dict_keys d) -> dict_get eqb d k = None.
Proof.
  induction d as [|[k' v] d IH]; simpl; intros Hk; [reflexivity|].
  destruct (eqb k k') eqn:E; [|apply IH; tauto].
  apply eqb_eq in E. subst. tauto.
Qed.

End TableKeys.

Section WikiLinks.

Context {rt : Runtime}.

Lemma keys_bounded (A B : Type) (f : A -> str) (table : dict str B)
    (l : list A) :
  NoDup (dict_keys table) ->
  (forall t, In t (dict_keys table) -> In t (map f l)) ->
  (List.length table <= List.length l)%nat.
Proof.
  intros Hnd Hincl.
  rewrite <- (length_map fst table), <- (length_map f l).
  now apply NoDup_incl_length.
Qed.

(** X16.  In both pipelines the lookup table has exactly the titles of the
    batch as its keys, each once: a table never has more entries than the
    batch has notes. *)
Theorem note_lookup_keys_are_titles (all_notes : list PublishPy.note)
    (notes : list PublishSimplePy.note) (t : str) :
  (In t (dict_keys (main_note_lookup all_notes))
   <-> In t (map n_title all_notes))
  /\ (In t (dict_keys (build_note_lookup notes)) <-> In t (map name notes))
  /\ NoDup (dict_keys (main_note_lookup all_notes))
  /\ NoDup (dict_keys (build_note_lookup notes))
  /\ (List.length (main_note_lookup all_notes) <= List.length all_notes)%nat
  /\ (List.length (build_note_lookup notes) <= List.length notes)%nat.
Proof.
  assert (H1 : forall t,
             In t (dict_keys (main_note_lookup all_notes))
             <-> In t (map n_title all_notes)).
  { intros u. unfold main_note_lookup.
    rewrite fill_note_lookup_filled,
      (@dict_fill_in_keys _ _ _ _ str_eqb_eq). simpl. tauto. }
  assert (H2 : forall t,
             In t (dict_keys (build_note_lookup notes))
             <-> In t (map name notes)).
  { intros u. unfold build_note_lookup.
    rewrite simple_fill_note_lookup_filled,
      (@dict_fill_in_keys _ _ _ _ str_eqb_eq). simpl. tauto. }
  split; [apply H1|]. split; [apply H2|].
  split; [apply main_note_lookup_nodup|].
  split; [apply build_note_lookup_nodup|]. split.
  - apply (@keys_bounded _ _ n_title);
      [apply main_note_lookup_nodup | intros u; apply H1].
  - apply (@keys_bounded _ _ name);
      [apply build_note_lookup_nodup | intros u; apply H2].
Qed.

Lemma last_named_none (notes : list PublishSimplePy.note) (t : str) :
  last_named notes t = None <-> ~ In t (map name notes).
Proof.
  unfold last_named. split.
  - intros Hnone Hin. apply in_map_iff in Hin as (n & Hn & Hin).
    apply in_rev in Hin.
    apply (find_none _ _ Hnone) in Hin. simpl in Hin.
    rewrite <- Hn, str_eqb_refl in Hin. discriminate.
  - intros Hnot. apply find_nowhere. intros n Hn.
    destruct (str_eqb t (name n)) eqn:E; [|reflexivity].
    apply str_eqb_eq in E. exfalso. apply Hnot. subst t.
    apply in_map, in_rev. exact Hn.
Qed.

(** X17.  What a wiki title becomes: the anchor to the page of the last
    note of that name, with the title as its text, and the bare title when
    no note of the batch has that name. *)
Theorem wiki_title_resolution (notes : list PublishSimplePy.note)
    (t : str) :
  replace_link (build_note_lookup notes) t
  = match last_named notes t with
    | Some n =>
        anchor
          (lit "/"
           ++ PublishSimplePy.generate_slug (name n) (creationDate n)
           ++ lit ".html")
          t
    | None => t
    end
  /\ (last_named notes t = None <-> ~ In t (map name notes)).
Proof.
  split; [|apply last_named_none].
  unfold replace_link. rewrite build_note_lookup_get.
  now destruct (last_named notes t).
Qed.

Lemma match_wiki_link_other (c : Z) (s : str) :
  c <> lbracket -> match_wiki_link (c :: s) = None.
Proof.
  intros Hc. unfold match_wiki_link.
  change (startswith (lit "[[") (c :: s))
    with ((lbracket =? c)%Z && startswith [lbracket] s).
  destruct (Z.eqb_spec lbracket c); [congruence | reflexivity].
Qed.

Lemma sub_wiki_links_skip (lookup : note_lookup_t) (k : nat) :
  forall s, sub_wiki_links lookup s k = sub_wiki_links lookup (skipn k s) 0.
Proof.
  induction k as [|k IH]; intros s; [reflexivity|].
  destruct s as [|c s]; [reflexivity|]. simpl. apply IH.
Qed.

Lemma sub_wiki_links_plain (lookup : note_lookup_t) (p s : str) :
  ~ In lbracket p ->
  sub_wiki_links lookup (p ++ s) 0 = p ++ sub_wiki_links lookup s 0.
Proof.
  induction p as [|c p IH]; intros Hp; [reflexivity|].
  rewrite <- !app_comm_cons. cbn [sub_wiki_links].
  rewrite match_wiki_link_other by (intros ->; apply Hp; now left).
  f_equal. apply IH. intros Hin. apply Hp. now right.
Qed.

Lemma sub_wiki_links_taken (lookup : note_lookup_t) (c : Z) (s title : str)
    (n : nat) :
  match_wiki_link (c :: s) = Some (title, n) ->
  sub_wiki_links lookup (c :: s) 0
  = replace_link lookup title ++ sub_wiki_links lookup s (Nat.pred n).
Proof. intros E. cbn [sub_wiki_links]. now rewrite E. Qed.

(** The wiki link [[[title]]] followed by [rest], character by character. *)
Lemma wiki_link_then_shape (title rest : str) :
  wiki_link_then title rest
  = lbracket :: lbracket :: title ++ rbracket :: rbracket :: rest.
Proof.
  reflexivity.
Qed.

Lemma match_wiki_link_found (title rest : str) :
  title <> [] -> ~ In rbracket title ->
  match_wiki_link (wiki_link_then title rest)
  = Some (title, (4 + List.length title)%nat).
Proof.
  intros Hne Ht. rewrite wiki_link_then_shape. unfold match_wiki_link.
  change (startswith (lit "[[")
            (lbracket :: lbracket :: title ++ rbracket :: rbracket :: rest))
    with true.
  cbn [skipn].
  rewrite (span_all (not_char rbracket) title (rbracket :: rbracket :: rest)
             (forallb_not_char _ _ Ht) eq_refl).
  destruct title; [congruence | reflexivity].
Qed.

(** X18.  The text before the first opening bracket is copied; a wiki link
    with a non-empty title is replaced by what its title resolves to, and
    the scan resumes after the link: the inserted text is not scanned. *)
Theorem resolve_links_rewrites_link (lookup : note_lookup_t)
    (pre title post : str) :
  ~ In lbracket pre -> title <> [] -> ~ In rbracket title ->
  resolve_links pre lookup = pre
  /\ resolve_links (pre ++ wiki_link_then title post) lookup
     = pre ++ replace_link lookup title ++ resolve_links post lookup.
Proof.
  intros Hpre Hne Ht. unfold resolve_links. split.
  - rewrite <- (app_nil_r pre) at 1.
    rewrite sub_wiki_links_plain by exact Hpre. simpl.
    now rewrite app_nil_r.
  - rewrite sub_wiki_links_plain by exact Hpre. f_equal.
    pose proof (match_wiki_link_found post Hne Ht) as Hm.
    rewrite wiki_link_then_shape in Hm |- *.
    rewrite (@sub_wiki_links_taken lookup _ _ _ _ Hm). f_equal.
    rewrite sub_wiki_links_skip. f_equal.
    replace (Nat.pred (4 + List.length title))
      with (List.length [lbracket] + (List.length title + 2))%nat
      by (simpl; lia).
    change (lbracket :: title ++ rbracket :: rbracket :: post)
      with ([lbracket] ++ title ++ rbracket :: rbracket :: post).
    rewrite skipn_past.
    change (rbracket :: rbracket :: post)
      with ([rbracket; rbracket] ++ post).
    rewrite app_assoc.
    replace (List.length title + 2)%nat
      with (List.length (title ++ [rbracket; rbracket]) + 0)%nat
      by (rewrite length_app; simpl; lia).
    now rewrite skipn_past.
Qed.

End WikiLinks.

(** A link to a note that no table knows. *)
Lemma resolve_links_rewrites_link_witness :
  ~ In lbracket (lit "see ") /\ lit "Ideas" <> []
  /\ ~ In rbracket (lit "Ideas")
  /\ resolve_links (lit "see [[Ideas]] now") [] = lit "see Ideas now".
Proof.
  split; [absent|]. split; [discriminate|]. split; [absent|].
  apply (proj2 (@resolve_links_rewrites_link [] (lit "see ") (lit "Ideas")
                  (lit " now") ltac:(absent) ltac:(discriminate)
                  ltac:(absent))).
Defined.

(** ** Footnotes without a pair *)

Section LoneFootnotes.

Context {rt : Runtime}.

(** A text without an opening bracket has no definition line. *)
Lemma sub_definitions_plain (p : str) :
  ~ In lbracket p ->
  forall (at_bol : bool) (definitions : dict str str),
    sub_definitions p at_bol 0 definitions = (p, definitions).
Proof.
  induction p as [|c p IH]; intros Hp at_bol definitions; [reflexivity|].
  rewrite sub_definitions_copy by (right; intros ->; apply Hp; now left).
  now rewrite IH by (intros Hin; apply Hp; now right).
Qed.

Lemma sub_references_all_plain (slug p : str) :
  ~ In lbracket p -> sub_references slug p 0 = p.
Proof.
  intros Hp. rewrite <- (app_nil_r p) at 1.
  rewrite sub_references_plain by exact Hp. simpl. now rewrite app_nil_r.
Qed.

Lemma process_footnotes_plain (html slug : str) :
  ~ In lbracket html ->
  PublishSimplePy.process_footnotes html slug = Ok (strip html, []).
Proof.
  intros Hb. unfold PublishSimplePy.process_footnotes.
  rewrite sub_definitions_plain by exact Hb.
  now rewrite sub_references_all_plain by exact Hb.
Qed.

(** X19.  A page without an opening bracket has no footnotes: its content
    is only stripped of the whitespace around it and its footer is
    empty. *)
Theorem page_without_brackets_has_no_footnotes (html slug : str) :
  ~ In lbracket html ->
  PublishSimplePy.process_footnotes html slug = Ok (strip html, []).
Proof. apply process_footnotes_plain. Qed.

(** X20.  A reference in the flow of a line that has no definition line
    still becomes a superscript anchor, and the footer is empty: the anchor
    points to a footer item that does not exist. *)
Theorem reference_without_definition (pre num post slug : str) :
  pre <> [] -> ~ In lbracket pre -> ~ In newline pre ->
  num <> [] -> forallb is_digit num = true ->
  ~ In lbracket post ->
  PublishSimplePy.process_footnotes (pre ++ reference_then num post) slug
  = Ok (strip (pre ++ replace_reference slug num ++ post), []).
Proof.
  intros Hpre Hpre_b Hpre_n Hne Hnum Hpost.
  unfold PublishSimplePy.process_footnotes.
  assert (Hdefs : sub_definitions (pre ++ reference_then num post) true 0 []
                  = (pre ++ reference_then num post, [])).
  { destruct pre as [|c pre]; [congruence|].
    rewrite <- app_comm_cons, sub_definitions_copy
      by (right; intros ->; apply Hpre_b; now left).
    destruct (Z.eqb_spec c newline) as [->|_];
      [exfalso; apply Hpre_n; now left|].
    change (reference_then num post) with (reference_then num ([] ++ post)).
    rewrite reference_then_app, app_assoc.
    rewrite sub_definitions_line.
    2:{ intros Hin. apply in_app_or in Hin as [Hin | Hin].
        - apply Hpre_n. now right.
        - revert Hin. apply reference_then_no_newline; [exact Hnum | tauto]. }
    rewrite sub_definitions_plain by exact Hpost.
    cbn [fst snd]. now rewrite <- app_assoc. }
  rewrite Hdefs. cbn [build_footer]. do 2 f_equal.
  rewrite sub_references_plain by exact Hpre_b.
  rewrite sub_references_found by assumption.
  now rewrite sub_references_all_plain by exact Hpost.
Qed.

(** Without the colon the line is matched as well. *)
Lemma match_definition_without_colon (num text : str) :
  num <> [] ->
  forallb is_digit num = true ->
  starts_plain text = true ->
  ~ In newline text ->
  match_definition (reference_then num (space :: text))
  = Some (num, text,
          List.length (reference_then num (space :: text))).
Proof.
  intros Hne Hnum Hplain Hnl. unfold match_definition.
  rewrite (match_reference_found _ Hne Hnum), skipn_reference.
  assert (Hcolon : startswith (lit ":") (space :: text) = false)
    by reflexivity.
  rewrite Hcolon. cbn [skipn].
  assert (Hws : whitespace_split (space :: text) = Some 1%nat).
  { destruct text as [|c t]; [discriminate|]. simpl in Hplain.
    apply negb_true_iff in Hplain.
    cbn [whitespace_split]. rewrite Hplain.
    change (isspace space) with true. reflexivity. }
  rewrite Hws. cbn [skipn].
  assert (Hspan : span (not_char newline) text = (text, [])).
  { rewrite <- (app_nil_r text) at 1.
    exact (span_all _ text [] (forallb_not_char _ _ Hnl) I). }
  rewrite Hspan. cbn [fst].
  rewrite reference_then_length. simpl List.length.
  do 2 f_equal. lia.
Qed.

(** X21.  The colon of a definition line is optional: a line that starts
    with a reference followed by a space and a text is taken as a
    definition.  When the id is within the limit on the digits of an
    integer string, the whole line leaves the content, no anchor is made
    for the reference, and the text becomes a footer item; when the id is
    beyond the limit, [process_footnotes] raises [ValueError]. *)
Theorem line_starting_with_reference_is_definition (num text slug : str) :
  num <> [] -> forallb is_digit num = true ->
  starts_plain text = true -> ~ In newline text ->
  PublishSimplePy.process_footnotes (reference_then num (space :: text)) slug
  = if within_digit_limit num
    then Ok ([],
             lit "<footer>" ++ nl ++ lit "<ol>" ++ nl
             ++ footer_line slug num (strip text)
             ++ lit "</ol>" ++ nl ++ lit "</footer>")
    else Raise ValueError.
Proof.
  intros Hne Hnum Hplain Htext.
  unfold PublishSimplePy.process_footnotes.
  pose proof (@match_definition_without_colon num text Hne Hnum Hplain Htext)
    as Hm.
  unfold reference_then at 1 in Hm. unfold reference_then at 1.
  rewrite (@sub_definitions_taken _ _ _ _ _ _ [] Hm).
  rewrite sub_definitions_skip_all
    by (rewrite reference_then_length; simpl; rewrite length_app; simpl; lia).
  cbn [dict_set sub_references]. rewrite build_footer_single.
  destruct (within_digit_limit num); [|reflexivity].
  unfold footer_of. cbn [List.concat]. now rewrite app_nil_r.
Qed.

End LoneFootnotes.

(** A page of plain text. *)
Lemma page_without_brackets_has_no_footnotes_witness :
  ~ In lbracket (lit " plain text ")
  /\ @PublishSimplePy.process_footnotes ascii_runtime (lit " plain text ")
       (lit "s")
     = Ok (lit "plain text", []).
Proof.
  split; [absent|].
  apply (@page_without_brackets_has_no_footnotes ascii_runtime
           (lit " plain text ") (lit "s")).
  absent.
Defined.

(** The text [see [^1] there]. *)
Lemma reference_without_definition_witness :
  @PublishSimplePy.process_footnotes ascii_runtime
    (lit "see " ++ reference_then (lit "1") (lit " there")) (lit "s")
  = Ok (strip (lit "see " ++ replace_reference (lit "s") (lit "1")
               ++ lit " there"), []).
Proof.
  apply (@reference_without_definition ascii_runtime
           (lit "see ") (lit "1") (lit " there") (lit "s"));
    [discriminate | absent | absent | discriminate | reflexivity | absent].
Defined.

(** The line [[^1] a note]. *)
Lemma line_starting_with_reference_is_definition_witness :
  @PublishSimplePy.process_footnotes ascii_runtime
    (reference_then (lit "1") (space :: lit "a note")) (lit "s")
  = Ok ([],
        lit "<footer>" ++ nl ++ lit "<ol>" ++ nl
        ++ footer_line (lit "s") (lit "1") (strip (lit "a note"))
        ++ lit "</ol>" ++ nl ++ lit "</footer>").
Proof.
  apply (@line_starting_with_reference_is_definition ascii_runtime
           (lit "1") (lit "a note") (lit "s"));
    [discriminate | reflexivity | reflexivity | absent].
Defined.

(** ** A run of [main] *)

Section Runs.

Context {rt : Runtime}.
Variable isoformat : datetime -> str.











(** X23.  A run with nothing to publish writes no file: it exits with
    code 1 when the folder has no note, and with code 0 when there is a
    manifest and no note was modified since the last run. *)
Theorem run_without_notes_exits (cfg : site) (fs : files)
    (all_notes : list stored_note) (last_published : option datetime) :
  selected_notes all_notes last_published = [] ->
  main isoformat cfg fs all_notes last_published
  = Exit match all_notes with
         | [] => 1
         | _ => 0
         end.
Proof.
  intros Hsel. unfold main. destruct all_notes as [|n all_notes];
    [reflexivity|].
  rewrite Hsel. destruct last_published; [reflexivity | discriminate Hsel].
Qed.






End Runs.


(** An incremental run after the last modification. *)
Lemma run_without_notes_exits_witness :
  selected_notes sample_rows (Some 7%Z) = []
  /\ @main ascii_runtime (fun _ => []) sample_site [] sample_rows (Some 7%Z)
     = Exit 0.
Proof.
  split; [reflexivity|].
  apply (@run_without_notes_exits ascii_runtime (fun _ => []) sample_site []
           sample_rows (Some 7%Z)).
  reflexivity.
Defined.


(** ** Stripping, and the two renderers of a run *)

Section Stripping.

Lemma dropwhile_suffix {A : Type} (p : A -> bool) (l : list A) :
  exists pre,
    l = pre ++ dropwhile p l /\ Forall (fun c => p c = true) pre.
Proof.
  induction l as [|x l (pre & Hl & Hpre)]; simpl.
  - exists []. now split.
  - destruct (p x) eqn:E.
    + exists (x :: pre). split; [simpl; now f_equal | now constructor].
    + exists []. now split.
Qed.

Lemma rstrip_by_prefix (p : Z -> bool) (s : str) :
  exists suf,
    s = rstrip_by p s ++ suf /\ Forall (fun c => p c = true) suf.
Proof.
  unfold rstrip_by.
  destruct (dropwhile_suffix p (rev s)) as (pre & Hs & Hpre).
  exists (rev pre). split.
  - rewrite <- rev_app_distr, <- Hs. now rewrite rev_involutive.
  - now apply Forall_rev.
Qed.

Lemma lstrip_by_suffix (p : Z -> bool) (s : str) :
  exists pre,
    s = pre ++ lstrip_by p s /\ Forall (fun c => p c = true) pre.
Proof. apply dropwhile_suffix. Qed.

Lemma skipn_prefix {A : Type} (a b : list A) :
  skipn (List.length a) (a ++ b) = b.
Proof. induction a as [|x a IH]; simpl; [reflexivity | exact IH]. Qed.

End Stripping.

Section Renderers.

Context {rt : Runtime}.

Lemma plain_run_is_not_decorated (run : StyleRun)
    (note_lookup : PublishPy.note_lookup_t) (html : str) :
  has_inline_formatting run = false ->
  apply_link run note_lookup (apply_inline run html) = html.
Proof.
  unfold has_inline_formatting, apply_link, apply_inline. intros H.
  repeat (apply orb_false_iff in H; destruct H as [H ?]).
  destruct (link_url run) as [[|c u]|]; [| discriminate |];
    repeat match goal with
           | E : _ = false |- _ => rewrite E; clear E
           end; reflexivity.
Qed.

(** X25.  The renderer of merged runs and the legacy renderer of a run
    differ only in where the trailing newlines go: a run without inline
    formatting is rendered as its escaped text, and a run with inline
    formatting is rendered as the legacy renderer does its text without the
    trailing newlines, which follow after the closing tags; the text is the
    part that is formatted followed by these newlines. *)
Theorem merged_run_is_formatted_before_its_newlines (merged : merged_run)
    (note_lookup : PublishPy.note_lookup_t) (slug : str) :
  let run := m_run merged in
  let text := m_text merged in
  let trailing_newlines :=
    skipn (List.length (rstrip_newlines text)) text in
  format_merged_run_as_html merged note_lookup slug
  = (if has_inline_formatting run
     then format_run_as_html run (rstrip_newlines text) note_lookup slug
          ++ trailing_newlines
     else escape_html text)
  /\ text = rstrip_newlines text ++ trailing_newlines
  /\ Forall (fun c => c = newline) trailing_newlines.
Proof.
  intros run text trailing_newlines.
  destruct (rstrip_by_prefix (fun c => c =? newline)%Z text)
    as (suf & Htext & Hsuf).
  fold (rstrip_newlines text) in Htext.
  assert (Htrail : trailing_newlines = suf).
  { unfold trailing_newlines. rewrite Htext at 2. apply skipn_prefix. }
  split; [|split].
  - unfold format_merged_run_as_html, format_run_as_html.
    fold run text. destruct (has_inline_formatting run) eqn:E;
      [reflexivity|].
    rewrite app_nil_r. now apply plain_run_is_not_decorated.
  - now rewrite Htrail.
  - rewrite Htrail. eapply Forall_impl; [|exact Hsuf].
    intros c Hc. now apply Z.eqb_eq.
Qed.

End Renderers.

(** ** Cleaning the HTML of Notes.app *)

Section Cleaning.

Lemma span_app {A : Type} (p : A -> bool) (l : list A) :
  forall a b, span p l = (a, b) -> l = a ++ b.
Proof.
  induction l as [|x l IH]; simpl; intros a b E.
  - now inversion E.
  - destruct (p x); [|now inversion E].
    destruct (span p l) as [a' b']. inversion E; subst.
    simpl. f_equal. now apply IH.
Qed.

Lemma span_stops {A : Type} (p : A -> bool) (l : list A) :
  forall a b, span p l = (a, b) ->
    match b with
    | [] => True
    | x :: _ => p x = false
    end.
Proof.
  induction l as [|x l IH]; simpl; intros a b E.
  - now inversion E.
  - destruct (p x) eqn:Ex; [|now inversion E; subst].
    destruct (span p l) as [a' b']. inversion E; subst. now apply (IH a').
Qed.

Lemma sub_go_skip (m : str -> option nat) (repl : str) (k : nat) :
  forall s, sub_go m repl s k = sub_go m repl (skipn k s) 0.
Proof.
  induction k as [|k IH]; intros s; [reflexivity|].
  destruct s as [|c s]; [reflexivity|]. simpl. apply IH.
Qed.

Lemma sub_go_taken (m : str -> option nat) (repl : str) (c : Z) (s : str)
    (n : nat) :
  m (c :: s) = Some n ->
  sub_go m repl (c :: s) 0 = repl ++ sub_go m repl s (Nat.pred n).
Proof. intros E. cbn [sub_go]. now rewrite E. Qed.

Lemma sub_go_copied (m : str -> option nat) (repl : str) (c : Z) (s : str) :
  m (c :: s) = None ->
  sub_go m repl (c :: s) 0 = c :: sub_go m repl s 0.
Proof. intros E. cbn [sub_go]. now rewrite E. Qed.

(** A pattern that needs a character which the text lacks matches
    nowhere. *)
Lemma re_sub_absent (m : str -> option nat) (repl : str) (c : Z) :
  (forall t, ~ In c t -> m t = None) ->
  forall s, ~ In c s -> re_sub m repl s = s.
Proof.
  intros Hm. unfold re_sub. induction s as [|x s IH]; intros Hs;
    [reflexivity|].
  rewrite sub_go_copied by (apply Hm; exact Hs).
  f_equal. apply IH. intros Hin. apply Hs. now right.
Qed.

Lemma startswith_head (c : Z) (p t : str) :
  startswith (c :: p) t = true -> In c t.
Proof.
  destruct t as [|x t]; simpl; [discriminate|].
  destruct (Z.eqb_spec c x); [now left | discriminate].
Qed.

Lemma match_tag_with_attributes_needs (name t : str) :
  ~ In less_than t -> match_tag_with_attributes name t = None.
Proof.
  intros Ht. unfold match_tag_with_attributes.
  destruct (startswith (lit "<" ++ name) t) eqn:E; [|reflexivity].
  apply startswith_head in E. contradiction.
Qed.

Lemma match_td_newlines_needs (t : str) :
  ~ In less_than t -> match_td_newlines t = None.
Proof.
  intros Ht. unfold match_td_newlines.
  destruct (startswith (lit "<td>") t) eqn:E; [|reflexivity].
  apply startswith_head in E. contradiction.
Qed.

Lemma match_newlines_td_needs (t : str) :
  ~ In less_than t -> match_newlines_td t = None.
Proof.
  intros Ht. unfold match_newlines_td.
  destruct (span is_newline t) as [newlines rest] eqn:Es.
  destruct (startswith (lit "</td>") rest) eqn:E; [|reflexivity].
  apply startswith_head in E. apply span_app in Es. subst t.
  exfalso. apply Ht, in_or_app. now right.
Qed.

Lemma replace_absent (c : Z) (old new s : str) :
  hd_error old = Some c -> ~ In c s -> replace old new s = s.
Proof.
  destruct old as [|x old]; [discriminate|]. intros E Hs.
  inversion E; subst. unfold replace. now apply replace_go_absent.
Qed.

(** The length of the first run of newlines. *)
Lemma newline_runs_first (s : str) :
  forall k, newline_runs k s ->
    (List.length (fst (span is_newline s)) <= k)%nat.
Proof.
  induction s as [|c s IH]; intros k Hk; simpl; [lia|].
  simpl in Hk. destruct (is_newline c); [|simpl; lia].
  destruct k as [|k]; [contradiction|].
  specialize (IH k Hk). destruct (span is_newline s). simpl in *. lia.
Qed.

Lemma newline_runs_more (s : str) :
  forall k k', (k <= k')%nat -> newline_runs k s -> newline_runs k' s.
Proof.
  induction s as [|c s IH]; intros k k' Hle Hk; [exact I|].
  simpl in *. destruct (is_newline c); [|exact Hk].
  destruct k as [|k]; [contradiction|].
  destruct k' as [|k']; [lia|]. apply (IH k); [lia | exact Hk].
Qed.

Lemma match_newlines3_short (s : str) (k : nat) :
  (k <= 2)%nat -> newline_runs k s -> match_newlines3 s = None.
Proof.
  intros Hk Hs. unfold match_newlines3.
  pose proof (newline_runs_first s k Hs) as Hlen.
  destruct (Nat.leb_spec 3 (List.length (fst (span is_newline s))));
    [lia | reflexivity].
Qed.

(** Runs of at most two newlines are kept. *)
Lemma re_sub_newlines3_short (s : str) :
  forall k, (k <= 2)%nat -> newline_runs k s ->
    re_sub match_newlines3 (nl ++ nl) s = s.
Proof.
  unfold re_sub. induction s as [|c s IH]; intros k Hk Hs; [reflexivity|].
  rewrite sub_go_copied by exact (@match_newlines3_short _ k Hk Hs).
  f_equal. simpl in Hs. destruct (is_newline c).
  - destruct k as [|k]; [contradiction|]. apply (IH k); [lia | exact Hs].
  - now apply (IH 2%nat).
Qed.

(** After the last substitution no run has more than two newlines. *)
Lemma re_sub_newlines3_runs (n : nat) :
  forall s, (List.length s <= n)%nat ->
    newline_runs (Nat.min (List.length (fst (span is_newline s))) 2)
      (re_sub match_newlines3 (nl ++ nl) s).
Proof.
  unfold re_sub.
  induction n as [|n IH]; intros s Hn.
  - destruct s; [exact I | simpl in Hn; lia].
  - destruct s as [|c s]; [exact I|].
    simpl in Hn.
    destruct (span is_newline (c :: s)) as [a b] eqn:Es.
    pose proof (span_app _ _ Es) as Happ.
    pose proof (span_stops _ _ Es) as Hstop.
    cbn [fst].
    assert (Hmatch : match_newlines3 (c :: s)
                     = if (3 <=? List.length a)%nat
                       then Some (List.length a) else None).
    { unfold match_newlines3. now rewrite Es. }
    simpl in Es. destruct (is_newline c) eqn:Ec.
    + destruct (span is_newline s) as [a' b'] eqn:Es'.
      inversion Es; subst a b'. clear Es.
      pose proof (span_app _ _ Es') as Happ'.
      revert Hmatch.
      destruct (Nat.leb_spec 3 (List.length (c :: a'))) as [Hlong | Hshort];
        intros Hmatch; simpl List.length in *.
      * rewrite (@sub_go_taken _ _ _ _ _ Hmatch), sub_go_skip.
        cbn [Nat.pred]. rewrite Happ', skipn_prefix.
        replace (Nat.min (S (List.length a')) 2) with 2%nat by lia.
        apply Z.eqb_eq in Ec. subst c.
        change (newline_runs 0 (sub_go match_newlines3 (nl ++ nl) b 0)).
        assert (Hb : (List.length b <= n)%nat)
          by (rewrite Happ', length_app in Hn; lia).
        specialize (IH b Hb).
        assert (Hfirst : fst (span is_newline b) = []).
        { destruct b as [|x b]; [reflexivity|]. simpl. now rewrite Hstop. }
        now rewrite Hfirst in IH.
      * rewrite (@sub_go_copied _ _ _ _ Hmatch).
        replace (Nat.min (S (List.length a')) 2)
          with (S (List.length a')) by lia.
        cbn [newline_runs]. rewrite Ec.
        assert (Hs : (List.length s <= n)%nat) by lia.
        specialize (IH s Hs). rewrite Es' in IH. cbn [fst] in IH.
        now replace (Nat.min (List.length a') 2) with (List.length a')
          in IH by lia.
    + inversion Es; subst a b. clear Es.
      change (if (3 <=? List.length (@nil Z))%nat
              then Some (List.length (@nil Z)) else None)
        with (@None nat) in Hmatch.
      rewrite (@sub_go_copied _ _ _ _ Hmatch).
      cbn [newline_runs List.length Nat.min]. rewrite Ec.
      apply (@newline_runs_more _
               (Nat.min (List.length (fst (span is_newline s))) 2));
        [lia | apply IH; lia].
Qed.

Lemma newline_runs_no_three (a b : str) :
  forall k, (k <= 2)%nat -> ~ newline_runs k (a ++ three_newlines ++ b).
Proof.
  induction a as [|c a IH]; intros k Hk H.
  - simpl in H. change (is_newline newline) with true in H.
    destruct k as [|[|[|k]]]; try contradiction; lia.
  - simpl in H. destruct (is_newline c).
    + destruct k as [|k]; [contradiction|]. apply (IH k); [lia | exact H].
    + now apply (IH 2%nat).
Qed.

Lemma newline_runs_after (pre t : str) :
  forall k, (k <= 2)%nat -> newline_runs k (pre ++ t) -> newline_runs 2 t.
Proof.
  induction pre as [|c pre IH]; intros k Hk H.
  - exact (@newline_runs_more t k 2 Hk H).
  - simpl in H. destruct (is_newline c); [|now apply (IH 2%nat)].
    destruct k as [|k]; [contradiction|]. apply (IH k); [lia | exact H].
Qed.

Lemma newline_runs_before (t suf : str) :
  forall k, newline_runs k (t ++ suf) -> newline_runs k t.
Proof.
  induction t as [|c t IH]; intros k H; [exact I|].
  simpl in *. destruct (is_newline c); [|now apply IH].
  destruct k as [|k]; [contradiction | now apply IH].
Qed.

Lemma dropwhile_head {A : Type} (p : A -> bool) (l : list A) :
  match dropwhile p l with
  | [] => True
  | x :: _ => p x = false
  end.
Proof.
  induction l as [|x l IH]; simpl; [exact I|].
  destruct (p x) eqn:E; [exact IH | exact E].
Qed.

(** [s.strip()] is a part of [s] that has no whitespace at its ends. *)
Lemma strip_is_stripped (s : str) :
  stripped (strip s) /\ exists pre suf, s = pre ++ strip s ++ suf.
Proof.
  unfold strip, lstrip_by.
  destruct (dropwhile_suffix isspace s) as (pre & Hs & _).
  destruct (rstrip_by_prefix isspace (dropwhile isspace s))
    as (suf & Hd & _).
  split; [split|].
  - pose proof (dropwhile_head isspace s) as Hhead.
    rewrite Hd in Hhead.
    destruct (rstrip_by isspace (dropwhile isspace s)); [exact I|].
    exact Hhead.
  - unfold rstrip_by. rewrite rev_involutive. apply dropwhile_head.
  - exists pre, suf. now rewrite <- Hd.
Qed.

(** X26.  A text without markup, and without three newlines in a row, is
    only stripped of the whitespace around it. *)
Theorem clean_html_of_plain_text (html : str) :
  ~ In less_than html -> newline_runs 2 html ->
  clean_html html = strip html.
Proof.
  intros Hlt Hruns. unfold clean_html. cbv zeta.
  assert (Hreplace : forall old new,
             hd_error old = Some less_than -> replace old new html = html)
    by (intros old new E; now apply (@replace_absent less_than)).
  assert (Htag : forall name repl,
             re_sub (match_tag_with_attributes name) repl html = html)
    by (intros name repl;
        now apply (@re_sub_absent _ _ less_than
                     (match_tag_with_attributes_needs name))).
  rewrite !Hreplace by reflexivity.
  rewrite !Htag.
  rewrite !Hreplace by reflexivity.
  rewrite (@re_sub_absent _ _ less_than match_td_newlines_needs _ Hlt).
  rewrite (@re_sub_absent _ _ less_than match_newlines_td_needs _ Hlt).
  rewrite Hreplace by reflexivity.
  now rewrite (@re_sub_newlines3_short html 2).
Qed.

(** X27.  Whatever the HTML of a note is, the cleaned HTML has no
    whitespace at its ends and nowhere three newlines in a row. *)
Theorem clean_html_is_stripped_and_spaced (html : str) :
  stripped (clean_html html)
  /\ newline_runs 2 (clean_html html)
  /\ forall a b, clean_html html <> a ++ three_newlines ++ b.
Proof.
  unfold clean_html.
  set (c := replace (lit "<br>") nl _).
  pose proof (@re_sub_newlines3_runs (List.length c) c (Nat.le_refl _))
    as Hruns.
  apply (@newline_runs_more _ _ 2%nat) in Hruns; [|lia].
  destruct (strip_is_stripped (re_sub match_newlines3 (nl ++ nl) c))
    as (Hstripped & pre & suf & Hpart).
  assert (Hno : forall a b,
             strip (re_sub match_newlines3 (nl ++ nl) c)
             <> a ++ three_newlines ++ b).
  { intros a b E. rewrite E in Hpart. rewrite Hpart in Hruns.
    apply (@newline_runs_no_three (pre ++ a) (b ++ suf) 2%nat);
      [lia|].
    now rewrite <- !app_assoc in Hruns |- *. }
  split; [exact Hstripped|]. split; [|exact Hno].
  rewrite Hpart in Hruns.
  apply (@newline_runs_after pre _ 2%nat) in Hruns; [|lia].
  now apply newline_runs_before in Hruns.
Qed.

End Cleaning.

(** A line of text with spaces around it. *)
Lemma clean_html_of_plain_text_witness :
  ~ In less_than (lit " a line ")
  /\ newline_runs 2 (lit " a line ")
  /\ clean_html (lit " a line ") = lit "a line".
Proof.
  split; [absent|]. split; [exact I|].
  apply (@clean_html_of_plain_text (lit " a line "));
    [absent | exact I].
Defined.

(** ** Notes of which no run is kept *)

Section TitleRuns.

Context {rt : Runtime}.

Lemma concat_of_nonempty {A : Type} (ls : list (list A)) :
  Forall (fun l => l <> []) ls -> List.concat ls = [] -> ls = [].
Proof.
  destruct ls as [|l ls]; [reflexivity|]. intros H E.
  inversion H as [|? ? Hl _]; subst. simpl in E.
  destruct l; [congruence | discriminate].
Qed.

Lemma filter_none {A : Type} (f : A -> bool) (l : list A) :
  Forall (fun x => f x = false) l -> filter f l = [].
Proof.
  induction 1 as [|x l Hx _ IH]; [reflexivity|].
  simpl. now rewrite Hx.
Qed.

(** X28.  The text that no kept run covers is not rendered.  When a note
    has style runs and every one of them ends within the title span or has
    the title style, it has no block and its HTML is empty, whatever its
    body is. *)
Theorem note_without_kept_runs_renders_empty (parsed_note : ParsedNote)
    (note_lookup : PublishPy.note_lookup_t) (slug : str) :
  style_runs parsed_note <> [] ->
  Forall (fun run => kept (title_end_pos parsed_note) run = false)
    (style_runs parsed_note) ->
  note_blocks parsed_note = []
  /\ convert_note_to_html parsed_note note_lookup slug = [].
Proof.
  intros Hruns Hkept.
  assert (Hblocks : note_blocks parsed_note = []).
  { pose proof (note_blocks_runs parsed_note) as Hcat.
    rewrite (filter_none _ Hkept) in Hcat. unfold all_block_runs in Hcat.
    apply concat_of_nonempty in Hcat.
    - now apply map_eq_nil in Hcat.
    - apply Forall_map.
      eapply Forall_impl; [|apply note_blocks_typed].
      intros b Hb. apply Hb. }
  split; [exact Hblocks|].
  unfold convert_note_to_html, html_parts. rewrite Hblocks.
  destruct (style_runs parsed_note); [congruence | reflexivity].
Qed.

End TitleRuns.

(** The body of [title_run_note] is not rendered. *)
Lemma note_without_kept_runs_renders_empty_witness :
  @note_blocks title_run_note = []
  /\ @convert_note_to_html ascii_runtime title_run_note [] (lit "s") = [].
Proof.
  apply (@note_without_kept_runs_renders_empty ascii_runtime title_run_note
           [] (lit "s"));
    [discriminate | repeat constructor].
Defined.

(** ** The legacy conversion *)

Section LegacyConversion.

Context {rt : Runtime}.

Local Open Scope Z_scope.

Lemma escape_html_app (a b : str) :
  escape_html (a ++ b) = escape_html a ++ escape_html b.
Proof.
  unfold escape_html.
  change (lit "&") with [ampersand]. change (lit "<") with [less_than].
  change (lit ">") with [greater_than].
  now rewrite !replace_single_app.
Qed.

Lemma nth_error_skipn {A : Type} (l : list A) :
  forall (n : nat) (c : A),
    nth_error l n = Some c -> skipn n l = c :: skipn (S n) l.
Proof.
  induction l as [|x l IH]; intros [|n] c E; simpl in E; try discriminate.
  - now inversion E.
  - now apply IH.
Qed.

Lemma nth_error_inside {A : Type} (l : list A) (n : nat) :
  (n < List.length l)%nat -> exists c, nth_error l n = Some c.
Proof.
  intros Hn. destruct (nth_error l n) eqn:E; [now eexists|].
  apply nth_error_None in E. lia.
Qed.

Lemma Z_eqb_eq (a b : Z) : (a =? b) = true <-> a = b.
Proof. apply Z.eqb_eq. Qed.

Lemma range_covers (a b i : Z) : In i (range a b) <-> a <= i < b.
Proof.
  unfold range. rewrite in_map_iff. split.
  - intros (k & <- & Hk). apply in_seq in Hk. lia.
  - intros Hi. exists (Z.to_nat (i - a)). split; [lia|].
    apply in_seq. lia.
Qed.

Lemma range_nodup (a b : Z) : NoDup (range a b).
Proof.
  unfold range. apply Finite.Injective_map_NoDup; [|apply seq_NoDup].
  intros x y E. lia.
Qed.

Lemma runs_at_add (run : StyleRun) (pos_to_runs : pos_to_runs_t) (x i : Z) :
  runs_at (add_run_at run pos_to_runs x) i
  = if i =? x then runs_at pos_to_runs x ++ [run] else runs_at pos_to_runs i.
Proof.
  unfold add_run_at, runs_at at 1.
  rewrite dict_get_set by apply Z_eqb_eq.
  now destruct (i =? x).
Qed.

(** The inner loop appends the run at the positions of the range. *)
Lemma runs_at_range (run : StyleRun) (l : list Z) (i : Z) :
  NoDup l ->
  forall pos_to_runs,
    runs_at (fold_left (add_run_at run) l pos_to_runs) i
    = runs_at pos_to_runs i
      ++ (if existsb (Z.eqb i) l then [run] else []).
Proof.
  induction 1 as [|x l Hx _ IH]; intros pos_to_runs;
    [simpl; now rewrite app_nil_r|].
  cbn [fold_left existsb]. rewrite IH, runs_at_add.
  destruct (Z.eqb_spec i x) as [->|Hne]; simpl; [|reflexivity].
  assert (Hnot : existsb (Z.eqb x) l = false).
  { destruct (existsb (Z.eqb x) l) eqn:E; [|reflexivity].
    apply existsb_exists in E as (y & Hy & E).
    apply Z.eqb_eq in E. subst. contradiction. }
  rewrite Hnot. now rewrite app_nil_r.
Qed.

Lemma existsb_range (a b i : Z) :
  existsb (Z.eqb i) (range a b) = (a <=? i) && (i <? b).
Proof.
  destruct (existsb (Z.eqb i) (range a b)) eqn:E.
  - apply existsb_exists in E as (y & Hy & E).
    apply Z.eqb_eq in E. subst y. apply range_covers in Hy.
    symmetry. apply andb_true_iff. split; [apply Z.leb_le | apply Z.ltb_lt];
      lia.
  - destruct (Z.leb_spec a i), (Z.ltb_spec i b); try reflexivity.
    assert (Hin : In i (range a b)) by (apply range_covers; lia).
    assert (Hex : existsb (Z.eqb i) (range a b) = true)
      by (apply existsb_exists; exists i; split;
          [exact Hin | apply Z.eqb_refl]).
    congruence.
Qed.

(** The table lists, at every position, the runs that cover it, in the
    order of the runs. *)
Lemma runs_at_fold (style_runs : list StyleRun) (i : Z) :
  forall pos_to_runs,
    runs_at
      (fold_left
         (fun pos_to_runs run =>
            fold_left (add_run_at run)
              (range (start run) (start run + length run)) pos_to_runs)
         style_runs pos_to_runs) i
    = runs_at pos_to_runs i ++ filter (covers i) style_runs.
Proof.
  induction style_runs as [|run runs IH]; intros pos_to_runs;
    [simpl; now rewrite app_nil_r|].
  cbn [fold_left filter]. rewrite IH, runs_at_range by apply range_nodup.
  rewrite existsb_range. fold (covers i run).
  rewrite <- app_assoc. now destruct (covers i run).
Qed.

Lemma runs_at_built (style_runs : list StyleRun) (i : Z) :
  runs_at (build_pos_to_runs style_runs) i = filter (covers i) style_runs.
Proof. unfold build_pos_to_runs. now rewrite runs_at_fold. Qed.

(** The positions of the table are covered by a run. *)
Lemma keys_of_range (run : StyleRun) (l : list Z) (k : Z) :
  forall pos_to_runs,
    In k (dict_keys (fold_left (add_run_at run) l pos_to_runs)) ->
    In k (dict_keys pos_to_runs) \/ In k l.
Proof.
  induction l as [|x l IH]; intros pos_to_runs Hk; [now left|].
  cbn [fold_left] in Hk. apply IH in Hk as [Hk | Hk]; [|right; now right].
  unfold add_run_at in Hk.
  apply (@dict_set_in_keys _ _ _ Z_eqb_eq) in Hk as [-> | Hk];
    [right; now left | now left].
Qed.

Lemma keys_of_fold (style_runs : list StyleRun) (k : Z) :
  forall pos_to_runs,
    In k
      (dict_keys
         (fold_left
            (fun pos_to_runs run =>
               fold_left (add_run_at run)
                 (range (start run) (start run + length run)) pos_to_runs)
            style_runs pos_to_runs)) ->
    In k (dict_keys pos_to_runs)
    \/ exists run, In run style_runs /\ covers k run = true.
Proof.
  induction style_runs as [|run runs IH]; intros pos_to_runs Hk;
    [now left|].
  cbn [fold_left] in Hk. apply IH in Hk as [Hk | (r & Hr & Hc)].
  - apply keys_of_range in Hk as [Hk | Hk]; [now left|].
    right. exists run. split; [now left|].
    apply range_covers in Hk. unfold covers.
    apply andb_true_iff. split; [apply Z.leb_le | apply Z.ltb_lt]; lia.
  - right. exists r. split; [now right | exact Hc].
Qed.

Lemma nodup_of_range (run : StyleRun) (l : list Z) :
  forall pos_to_runs,
    NoDup (dict_keys pos_to_runs) ->
    NoDup (dict_keys (fold_left (add_run_at run) l pos_to_runs)).
Proof.
  induction l as [|x l IH]; intros pos_to_runs Hd; [exact Hd|].
  cbn [fold_left]. apply IH. unfold add_run_at.
  apply dict_set_nodup; [apply Z_eqb_eq | exact Hd].
Qed.

Lemma nodup_of_fold (style_runs : list StyleRun) :
  forall pos_to_runs,
    NoDup (dict_keys pos_to_runs) ->
    NoDup
      (dict_keys
         (fold_left
            (fun pos_to_runs run =>
               fold_left (add_run_at run)
                 (range (start run) (start run + length run)) pos_to_runs)
            style_runs pos_to_runs)).
Proof.
  induction style_runs as [|run runs IH]; intros pos_to_runs Hd; [exact Hd|].
  cbn [fold_left]. apply IH. now apply nodup_of_range.
Qed.

(** Runs that follow one another end where the sum of their lengths
    says. *)
Lemma contiguous_run_end (runs : list StyleRun) :
  forall pos run,
    contiguous_from pos runs ->
    Forall (fun r => 0 < length r) runs ->
    In run runs ->
    pos <= start run /\ start run + length run <= pos + sum_lengths runs.
Proof.
  induction runs as [|r runs IH]; intros pos run Hcont Hpos Hin;
    [contradiction|].
  destruct Hcont as [Hstart Hcont].
  inversion Hpos as [|? ? Hr Hpos']; subst.
  assert (Hsum : 0 <= sum_lengths runs).
  { apply sum_Z_nonneg. apply Forall_map.
    eapply Forall_impl; [|exact Hpos']. intros x Hx. simpl in Hx. lia. }
  assert (Hcons : sum_lengths (r :: runs) = length r + sum_lengths runs)
    by reflexivity.
  rewrite Hcons.
  destruct Hin as [<- | Hin]; [lia|].
  destruct (IH _ _ Hcont Hpos' Hin). lia.
Qed.

(** When the runs lie within the text, the table has at most one entry
    for every character. *)
Lemma table_within_text (text : str) (style_runs : list StyleRun) :
  contiguous_from 0 style_runs ->
  Forall (run_in_text text) style_runs ->
  sum_lengths style_runs <= len text ->
  (List.length (build_pos_to_runs style_runs) <= List.length text)%nat.
Proof.
  intros Hcont Hin Hsum.
  assert (Hpos : Forall (fun r => 0 < length r) style_runs).
  { eapply Forall_impl; [|exact Hin]. intros r Hr. apply Hr. }
  rewrite <- (length_map fst (build_pos_to_runs style_runs)).
  replace (List.length text) with (List.length (range 0 (len text)))
    by (unfold range, len; rewrite length_map, length_seq; lia).
  apply NoDup_incl_length.
  - apply nodup_of_fold. constructor.
  - intros k Hk. apply keys_of_fold in Hk as [[] | (run & Hrun & Hc)].
    destruct (contiguous_run_end _ _ Hcont Hpos Hrun) as [Hlo Hhi].
    unfold covers in Hc. apply andb_true_iff in Hc as [H1 H2].
    apply Z.leb_le in H1. apply Z.ltb_lt in H2.
    apply range_covers. lia.
Qed.

(** Past the last run every character is escaped on its own. *)
Lemma style_loop_uncovered (text : str) (pos_to_runs : pos_to_runs_t)
    (note_lookup : PublishPy.note_lookup_t) (slug : str) (fuel : nat) :
  forall i,
    0 <= i ->
    (forall j, i <= j -> runs_at pos_to_runs j = []) ->
    len text - i <= Z.of_nat fuel ->
    List.concat (style_loop fuel text pos_to_runs note_lookup slug i)
    = escape_html (skipn (Z.to_nat i) text).
Proof.
  unfold len.
  induction fuel as [|fuel IH]; intros i Hi Hfree Hfuel.
  - simpl. rewrite skipn_all2 by lia. reflexivity.
  - cbn [style_loop]. unfold len.
    destruct (Z.ltb_spec i (Z.of_nat (List.length text))) as [Hlt|Hge].
    + rewrite (Hfree i) by lia.
      destruct (@nth_error_inside _ text (Z.to_nat i)) as [c Hc]; [lia|].
      rewrite Hc, (nth_error_skipn _ _ Hc).
      cbn [List.concat].
      rewrite IH; [|lia | intros j Hj; apply Hfree; lia | lia].
      replace (Z.to_nat (i + 1)) with (S (Z.to_nat i)) by lia.
      change (c :: skipn (S (Z.to_nat i)) text)
        with ([c] ++ skipn (S (Z.to_nat i)) text).
      rewrite escape_html_app. f_equal.
      destruct (Z.eqb_spec c newline) as [->|_]; reflexivity.
    + simpl. rewrite skipn_all2 by lia. reflexivity.
Qed.

Lemma covers_not_before (i : Z) (run : StyleRun) :
  start run + length run <= i -> covers i run = false.
Proof.
  intros H. unfold covers.
  destruct (Z.ltb_spec i (start run + length run)); [lia|].
  apply andb_false_r.
Qed.

Lemma filter_covers_done (done : list StyleRun) (i : Z) :
  Forall (fun run => start run + length run <= i) done ->
  forall rest, filter (covers i) (done ++ rest) = filter (covers i) rest.
Proof.
  induction 1 as [|run done Hrun _ IH]; intros rest; [reflexivity|].
  simpl. now rewrite covers_not_before, IH.
Qed.

(** The loop over runs that tile the text from [pos] on; [done] holds the
    runs that end before [pos]. *)
Lemma style_loop_tiling (text : str) (pos_to_runs : pos_to_runs_t)
    (note_lookup : PublishPy.note_lookup_t) (slug : str)
    (rest : list StyleRun) :
  forall (done : list StyleRun) (pos : Z) (fuel : nat),
    (forall i, runs_at pos_to_runs i = filter (covers i) (done ++ rest)) ->
    0 <= pos ->
    Forall (fun run => start run + length run <= pos) done ->
    contiguous_from pos rest ->
    Forall (run_in_text text) rest ->
    len text - pos <= Z.of_nat fuel ->
    List.concat (style_loop fuel text pos_to_runs note_lookup slug pos)
    = List.concat
        (map (fun run =>
                format_run_as_html run (ExportPy.text run) note_lookup slug)
           rest)
      ++ escape_html (skipn (Z.to_nat (pos + sum_lengths rest)) text).
Proof.
  induction rest as [|run rest IH];
    intros done pos fuel Htable Hpos Hdone Hcont Hin Hfuel.
  - cbn [map List.concat app].
    unfold sum_lengths. cbn [map sum_Z fold_right]. rewrite Z.add_0_r.
    apply style_loop_uncovered; [exact Hpos | | exact Hfuel].
    intros j Hj. rewrite Htable, filter_covers_done; [reflexivity|].
    eapply Forall_impl; [|exact Hdone]. intros r Hr. simpl in Hr. lia.
  - destruct Hcont as [Hstart Hcont].
    inversion Hin as [|? ? Hrun Hin']; subst.
    destruct Hrun as (Hinside & Hlen & Htext & _).
    destruct fuel as [|fuel]; [simpl in Hfuel; lia|].
    cbn [style_loop].
    destruct (Z.ltb_spec (start run) (len text)) as [_|Hge]; [|lia].
    rewrite Htable, filter_covers_done by exact Hdone. cbn [filter].
    assert (Hcov : covers (start run) run = true).
    { unfold covers. rewrite Z.leb_refl. simpl. apply Z.ltb_lt. lia. }
    rewrite Hcov. cbn [List.concat map].
    unfold run_slice. rewrite <- Htext, <- app_assoc. f_equal.
    rewrite (IH (done ++ [run]));
      [| now rewrite <- app_assoc | lia | | exact Hcont | exact Hin' | lia].
    + do 3 f_equal. unfold sum_lengths. simpl. lia.
    + apply Forall_app. split.
      * eapply Forall_impl; [|exact Hdone]. intros r Hr. simpl in Hr. lia.
      * constructor; [lia | constructor].
Qed.

(** X29.  When the runs tile the text from its start and lie within it,
    each with a positive length, the table [pos_to_runs] has at most one
    entry for every character of the text, and the legacy conversion renders
    every run once, in order, with [format_run_as_html], escapes the text
    that follows the last run, and makes paragraphs of the result.  The
    loop over the text ends within [len(text)] rounds. *)
Theorem legacy_conversion_renders_each_run_once (text : str)
    (style_runs : list StyleRun) (note_lookup : PublishPy.note_lookup_t)
    (slug : str) :
  contiguous_from 0 style_runs ->
  Forall (run_in_text text) style_runs ->
  sum_lengths style_runs <= len text ->
  style_runs_to_html text style_runs note_lookup slug
  = text_to_paragraphs
      (List.concat
         (map (fun run =>
                 format_run_as_html run (ExportPy.text run) note_lookup slug)
            style_runs)
       ++ escape_html (skipn (Z.to_nat (sum_lengths style_runs)) text))
  /\ (List.length (build_pos_to_runs style_runs) <= List.length text)%nat
  /\ forall i,
       runs_at (build_pos_to_runs style_runs) i
       = filter (covers i) style_runs.
Proof.
  intros Hcont Hin Hsum.
  split; [|split; [now apply table_within_text | apply runs_at_built]].
  unfold style_runs_to_html.
  destruct style_runs as [|run runs] eqn:E; [reflexivity|].
  rewrite <- E in *. cbv zeta. f_equal.
  apply (@style_loop_tiling text (build_pos_to_runs style_runs) note_lookup
           slug style_runs [] 0 (List.length text));
    [intros i; apply runs_at_built | lia | constructor | exact Hcont
    | exact Hin | unfold len; lia].
Qed.

Lemma split_go_pieces (c : Z) (s : str) :
  forall (skip : nat) (cur : str) (limit : option nat),
    limit = None ->
    ~ In c cur ->
    Forall (fun piece => ~ In c piece) (split_go [c] s skip cur limit).
Proof.
  induction s as [|x s IH]; intros skip cur limit Hlimit Hcur.
  - simpl. constructor; [exact Hcur | constructor].
  - cbn [split_go]. destruct skip as [|k]; [|now apply IH].
    subst limit. cbn [may_split andb startswith after_split].
    destruct (Z.eqb_spec c x) as [->|Hne].
    + simpl. constructor; [exact Hcur|]. apply IH; [reflexivity | tauto].
    + simpl. apply IH; [reflexivity|].
      intros H. apply in_app_or in H as [H | [H | []]]; [tauto | congruence].
Qed.

Lemma strip_keeps_out (c : Z) (s : str) : ~ In c s -> ~ In c (strip s).
Proof.
  intros Hs Hin.
  destruct (strip_is_stripped s) as (_ & pre & suf & Hpart).
  apply Hs. rewrite Hpart. apply in_or_app. right.
  apply in_or_app. now left.
Qed.

Lemma join_keeps_out (c : Z) (sep : str) (parts : list str) :
  ~ In c sep -> Forall (fun part => ~ In c part) parts ->
  ~ In c (join sep parts).
Proof.
  intros Hsep. induction 1 as [|part parts Hpart Hparts IH]; [tauto|].
  cbn [join]. destruct parts as [|q parts]; [exact Hpart|].
  intros H. apply in_app_or in H as [H | H]; [tauto|].
  apply in_app_or in H as [H | H]; tauto.
Qed.

Lemma flush_buffer_parts (result buffer : list str) :
  Forall paragraph_or_block result ->
  Forall (fun line => ~ In newline line) buffer ->
  Forall paragraph_or_block (flush_buffer result buffer).
Proof.
  intros Hresult Hbuffer. unfold flush_buffer.
  destruct buffer as [|line buffer]; [exact Hresult|].
  destruct (strip (join (lit " ") (line :: buffer))) as [|x t] eqn:E;
    [exact Hresult|].
  apply Forall_app. split; [exact Hresult|].
  constructor; [|constructor]. split.
  - left. exists (x :: t). split; [discriminate | reflexivity].
  - assert (Hout : ~ In newline (x :: t)).
    { rewrite <- E. apply strip_keeps_out, join_keeps_out;
        [absent | exact Hbuffer]. }
    unfold wrap. intros H.
    repeat (apply in_app_or in H as [H | H]);
      try (revert H; absent). now apply Hout.
Qed.

Lemma paragraphs_loop_parts (lines : list str) :
  Forall (fun line => ~ In newline line) lines ->
  forall result buffer,
    Forall paragraph_or_block result ->
    Forall (fun line => ~ In newline line) buffer ->
    Forall paragraph_or_block (paragraphs_loop lines result buffer).
Proof.
  induction 1 as [|line lines Hline _ IH]; intros result buffer Hr Hb.
  - now apply flush_buffer_parts.
  - cbn [paragraphs_loop].
    pose proof (@strip_keeps_out _ _ Hline) as Hstripped.
    destruct (strip line) as [|x t] eqn:E.
    + apply IH; [now apply flush_buffer_parts | constructor].
    + destruct (startswith (lit "<h") (x :: t)
                || startswith (lit "<blockquote") (x :: t)) eqn:Eb.
      * apply IH; [|constructor].
        apply Forall_app. split; [now apply flush_buffer_parts|].
        constructor; [|constructor]. split; [now right | exact Hstripped].
      * apply IH; [exact Hr|].
        apply Forall_app. split; [exact Hb|].
        constructor; [exact Hstripped | constructor].
Qed.

(** X30.  The result of [text_to_paragraphs] is made of parts joined by
    newlines, where every part is a paragraph around a text that is not
    empty, or a line, without the whitespace around it, that starts a
    heading or a blockquote; no part holds a newline. *)
Theorem text_to_paragraphs_parts (html : str) :
  exists parts,
    text_to_paragraphs html = join nl parts
    /\ Forall paragraph_or_block parts.
Proof.
  exists (paragraphs_loop (split nl html) [] []). split; [reflexivity|].
  apply paragraphs_loop_parts; [|constructor | constructor].
  apply split_go_pieces; [reflexivity | tauto].
Qed.

End LegacyConversion.

(** The text [Hi there], whose first two characters are bold. *)
Lemma legacy_conversion_renders_each_run_once_witness :
  @style_runs_to_html ascii_runtime (lit "Hi there")
    [bold_run 0 2 (lit "Hi")] [] []
  = lit "<p><strong>Hi</strong> there</p>".
Proof.
  apply (@legacy_conversion_renders_each_run_once ascii_runtime
           (lit "Hi there") [bold_run 0 2 (lit "Hi")] [] []).
  - split; [reflexivity | exact I].
  - repeat constructor; try discriminate; vm_compute; congruence.
  - vm_compute. discriminate.
Defined.
